(** * Kart: a shallow embedding of the versioned dataset engine

    The development follows the Python sources module by module:
    - [DiffStructs]  kart/diff_structs.py  (KeyValue, Delta, concatenation, inversion)
    - [Repo]         kart/repo.py          (gitdir files, repository state)
    - [Merge]        kart/merge.py         (abort / continue of the merging state)
    - [FastImport]   kart/fast_import.py   (the should-compare heuristic, the import stream)
    - [TileImporter] kart/tile/importer.py (the temporary ref of a tile import)
    - [KeyFilters]   kart/key_filters.py   (match-all filters, dataset globs)

    Python exceptions are modelled by the [result] monad below; Python dicts
    and sets by stdpp's [gmap] and [gset]. *)

From Stdlib Require Import ZArith Lia Ascii String.
From stdpp Require Import base option list strings pretty gmap.

Local Open Scope string_scope.

(** The double quote and the newline, for the messages of the source. *)
Definition dq : string := String (Ascii.ascii_of_nat 34) EmptyString.
Definition nl : string := String (Ascii.ascii_of_nat 10) EmptyString.

(** ** Exceptions *)

(** The exception classes the modelled code raises or lets through. *)
Inductive exn : Type :=
  | Conflict
  | ValueError (msg : string)
  | AttributeError
  | AssertionError
  | KeyError (k : string)
  | InvalidOperation (msg : string)
  | NotFound (msg : string)
  | UsageError (msg : string)
  | SubprocessError (returncode : Z)
  | BrokenPipeError
  | KeyboardInterrupt
  | _CommitMissing
  | OtherError (msg : string).

Inductive result (A : Type) : Type :=
  | Ok (a : A)
  | Raise (e : exn).
Arguments Ok {A} a.
Arguments Raise {A} e.

#[global] Instance result_ret : MRet result := fun A a => Ok a.
#[global] Instance result_bind : MBind result := fun A B f m =>
  match m with
  | Ok a => f a
  | Raise e => Raise e
  end.
#[global] Instance result_fmap : FMap result := fun A B f m =>
  match m with
  | Ok a => Ok (f a)
  | Raise e => Raise e
  end.

Definition is_ok {A} (r : result A) : bool :=
  match r with Ok _ => true | Raise _ => false end.

(** ** Generators

    What a Python iterator does when it is driven to its end: it yields
    items and then stops, or raises. *)
Inductive gen (A : Type) : Type :=
  | GenEnd
  | GenRaise (e : exn)
  | GenYield (a : A) (rest : gen A).
Arguments GenEnd {A}.
Arguments GenRaise {A} e.
Arguments GenYield {A} a rest.

(** The generator that yields [items] and then goes on as [rest]. *)
Definition gen_app {A} (items : list A) (rest : gen A) : gen A :=
  foldr GenYield rest items.

(** ** kart/diff_structs.py *)

Module DiffStructs.

(** Delta flags. *)
Definition WORKING_COPY_EDIT : Z := 1.
Definition BINARY_FILE : Z := 2.

Inductive delta_type : Type := insert | update | delete.

#[global] Instance delta_type_eq_dec : EqDecision delta_type.
Proof. solve_decision. Defined.

Section Delta.
(** Keys (file names, primary keys) and values (the object's contents). *)
Context {K V : Type} `{EqDecision V}.

(** A value is either there, or a callable evaluated on first use. *)
Inductive lazy_value : Type :=
  | Immediate (v : V)
  | Deferred (f : unit -> V).

(** [KeyValue]: the dataclass fields [key] and [value], and the attribute
    [_cached_value] that [get_lazy_value] sets on first evaluation. *)
Record KeyValue : Type := mkKeyValue {
  key : K;
  value : lazy_value;
  _cached_value : option V
}.

(** [KeyValue.get_lazy_value]: returns the value and the object as it is
    after the call (the cache is filled by the first evaluation). *)
Definition get_lazy_value (kv : KeyValue) : V * KeyValue :=
  match value kv with
  | Immediate v => (v, kv)
  | Deferred f =>
      match _cached_value kv with
      | Some v => (v, kv)
      | None =>
          let v := f tt in
          (v, {| key := key kv; value := value kv; _cached_value := Some v |})
      end
  end.

(** The generated dataclass [__eq__] of [KeyValue] compares the declared
    fields [key] and [value] only. *)
Definition KeyValue_eq (a b : KeyValue) : Prop :=
  key a = key b /\ value a = value b.

Definition opt_KeyValue_eq (a b : option KeyValue) : Prop :=
  match a, b with
  | None, None => True
  | Some x, Some y => KeyValue_eq x y
  | _, _ => False
  end.

Record Delta : Type := mkDelta {
  old : option KeyValue;
  new : option KeyValue;
  type : delta_type;
  flags : Z
}.

(** [Delta.__init__]. *)
Definition Delta_init (o n : option KeyValue) : result Delta :=
  match o, n with
  | None, None => Raise (ValueError "Empty Delta")
  | None, Some _ => Ok {| old := o; new := n; type := insert; flags := 0 |}
  | Some _, None => Ok {| old := o; new := n; type := delete; flags := 0 |}
  | Some _, Some _ => Ok {| old := o; new := n; type := update; flags := 0 |}
  end.

Definition Delta_insert (n : option KeyValue) : result Delta := Delta_init None n.
Definition Delta_update (o n : option KeyValue) : result Delta := Delta_init o n.
Definition Delta_delete (o : option KeyValue) : result Delta := Delta_init o None.

(** [Delta.maybe_update]: [None] when the two (lazy) values are equal. *)
Definition Delta_maybe_update (o n : option KeyValue) : result (option Delta) :=
  match o, n with
  | Some ko, Some kn =>
      let '(vo, ko') := get_lazy_value ko in
      let '(vn, kn') := get_lazy_value kn in
      if decide (vo = vn) then Ok None
      else Some <$> Delta_init (Some ko') (Some kn')
  | _, _ => Raise AttributeError
  end.

(** [Delta.__invert__]. *)
Definition Delta_invert (self : Delta) : result Delta :=
  Delta_init (new self) (old self).

Definition old_key (self : Delta) : option K := key <$> old self.
Definition new_key (self : Delta) : option K := key <$> new self.

Definition old_value (self : Delta) : option V :=
  (fun kv => fst (get_lazy_value kv)) <$> old self.
Definition new_value (self : Delta) : option V :=
  (fun kv => fst (get_lazy_value kv)) <$> new self.

Definition set_flags (f : Z) (d : Delta) : Delta :=
  {| old := old d; new := new d; type := type d; flags := f |}.

(** [Delta.__add__]: concatenate this delta with the subsequent one. *)
Definition Delta_add (self other : Delta) : result (option Delta) :=
  res ← match type self with
        | insert =>
            match type other with
            | insert => Raise Conflict
            | update => Some <$> Delta_insert (new other)
            | delete => Ok None
            end
        | update =>
            match type other with
            | insert => Raise Conflict
            | update => Delta_maybe_update (old self) (new other)
            | delete => Some <$> Delta_delete (old self)
            end
        | delete =>
            match type other with
            | insert => Delta_maybe_update (old self) (new other)
            | _ => Raise Conflict
            end
        end;
  Ok (set_flags (Z.lor (flags self) (flags other)) <$> res).

(** The generated dataclass [__eq__] of [Delta] compares [old] and [new]. *)
Definition Delta_eq (a b : Delta) : Prop :=
  opt_KeyValue_eq (old a) (old b) /\ opt_KeyValue_eq (new a) (new b).

(** A delta as [__init__] leaves it (the flags may have been set since). *)
Definition Delta_wf (d : Delta) : bool :=
  match old d, new d, type d with
  | None, Some _, insert => true
  | Some _, None, delete => true
  | Some _, Some _, update => true
  | _, _, _ => false
  end.

(** The outcome of [a + b] that the composition table gives for an
    update-or-nothing cell: nothing when the old value of [a] and the new
    value of [b] are equal, else the update from [a.old] to [b.new]. *)
Definition maybe_update_cell (a b : Delta) : Prop :=
  if decide (old_value a = new_value b)
  then Delta_add a b = Ok None
  else exists d, Delta_add a b = Ok (Some d)
                 /\ type d = update
                 /\ opt_KeyValue_eq (old d) (old a)
                 /\ opt_KeyValue_eq (new d) (new b)
                 /\ old_value d = old_value a
                 /\ new_value d = new_value b.

End Delta.

Arguments lazy_value V : clear implicits.
Arguments KeyValue K V : clear implicits.
Arguments Delta K V : clear implicits.

End DiffStructs.

(** ** State and exceptions

    Code that changes the repository and may raise is a function from the
    state before to the outcome and the state after: an exception does not
    undo what was written before it was raised. *)

Definition StateErr (S A : Type) : Type := S -> result A * S.

Definition ret {S A} (a : A) : StateErr S A := fun s => (Ok a, s).
Definition raise {S A} (e : exn) : StateErr S A := fun s => (Raise e, s).
Definition bind {S A B} (m : StateErr S A) (k : A -> StateErr S B) : StateErr S B :=
  fun s => match m s with
           | (Ok a, s') => k a s'
           | (Raise e, s') => (Raise e, s')
           end.
Definition gets {S A} (f : S -> A) : StateErr S A := fun s => (Ok (f s), s).
Definition modify {S} (f : S -> S) : StateErr S unit := fun s => (Ok tt, f s).
(** A call that reads the state and may raise, without changing it. *)
Definition call {S A} (f : S -> result A) : StateErr S A := fun s => (f s, s).

(** [try: body finally: cleanup]: the cleanup runs on both exits; an
    exception of the cleanup replaces the outcome of the body. *)
Definition try_finally {S A} (body : StateErr S A) (cleanup : StateErr S unit)
  : StateErr S A :=
  fun s => match body s with
           | (r, s') =>
               match cleanup s' with
               | (Ok _, s'') => (r, s'')
               | (Raise e, s'') => (Raise e, s'')
               end
           end.

(** [for x in xs: body x]. *)
Fixpoint for_each {S A} (xs : list A) (body : A -> StateErr S unit) : StateErr S unit :=
  match xs with
  | [] => ret tt
  | x :: rest => bind (body x) (fun _ => for_each rest body)
  end.

Arguments for_each : simpl never.
Arguments try_finally : simpl never.

Declare Scope staterr_scope.
Delimit Scope staterr_scope with staterr.
Notation "x <-- m ;; k" := (bind m (fun x => k))
  (at level 100, m at next level, right associativity) : staterr_scope.
Notation "m ;;; k" := (bind m (fun _ => k))
  (at level 100, right associativity) : staterr_scope.

(** ** kart/repo.py *)

Module Repo.

(** Object ids (commits, trees) and ref names are strings. *)
Abbreviation oid := string.

(** [KartRepoFiles]: the files found in [repo.gitdir_path]. *)
Module KartRepoFiles.
Definition HEAD := "HEAD".
Definition INDEX := "index".
Definition COMMIT_EDITMSG := "COMMIT_EDITMSG".
Definition ORIG_HEAD := "ORIG_HEAD".
Definition MERGE_HEAD := "MERGE_HEAD".
Definition MERGE_MSG := "MERGE_MSG".
Definition MERGE_BRANCH := "MERGE_BRANCH".
Definition MERGED_INDEX := "MERGED_INDEX".
Definition MERGED_TREE := "MERGED_TREE".
Definition FEATURE_ENVELOPES := "feature_envelopes.db".
End KartRepoFiles.

Inductive KartRepoState : Type := NORMAL | MERGING.

#[global] Instance KartRepoState_eq_dec : EqDecision KartRepoState.
Proof. solve_decision. Defined.

Definition ALL_STATES : list KartRepoState := [NORMAL; MERGING].

(** [KartRepoState.bad_state_message]; [cmd] is the command path of the
    current click context. *)
Definition bad_state_message (cmd : string) (bad_state : KartRepoState)
    (allowed_states : list KartRepoState) (command_extra : option string) : string :=
  let cmd := match command_extra with
             | Some extra =>
                 if decide (extra = EmptyString) then cmd else cmd ++ " " ++ extra
             | None => cmd
             end in
  match bad_state with
  | MERGING =>
      "`" ++ cmd ++ "` does not work while the Kart repo is in " ++ dq ++ "merging"
      ++ dq ++ " state." ++ nl
      ++ "Use `kart merge --abort` to abandon the merge and get back to the previous state."
  | NORMAL =>
      "`" ++ cmd ++ "` only works when the Kart repo is in " ++ dq ++ "merging" ++ dq
      ++ " state, but it is in " ++ dq ++ "normal" ++ dq ++ " state."
  end.

(** Modelled from the spec: [merge_util.MergedIndex] is not among the
    sources.  Per section 4.5, MERGED_INDEX holds the conflict triples plus
    the resolved entries; kart/resolve.py reads [conflicts] and [resolves] as
    dicts on the same keys, and [unresolved_conflicts] as the conflicts that
    have no resolve yet. *)
Record MergedIndex : Type := mkMergedIndex {
  entries : gmap string oid;
  conflicts : gmap string (option oid * option oid * option oid);
  resolves : gmap string (list oid)
}.

Definition unresolved_conflicts (m : MergedIndex)
  : gmap string (option oid * option oid * option oid) :=
  filter (fun kc => resolves m !! kc.1 = None) (conflicts m).

(** What a file of the gitdir holds: text, or a serialised merged index. *)
Inductive file_content : Type :=
  | Text (s : string)
  | Index (m : MergedIndex).

Record Commit : Type := mkCommit {
  author : string;
  committer : string;
  message : string;
  tree : oid;
  parents : list oid
}.

(** The part of a [KartRepo] that the modelled operations read or write. *)
Record KartRepo : Type := mkKartRepo {
  gitdir : gmap string file_content;   (* files under repo.gitdir_path *)
  references : gmap string oid;         (* repo.references: ref name to commit id *)
  head_name : string;                   (* repo.head.name, the ref HEAD points to *)
  odb : list (oid * Commit);            (* commits, the newest first *)
  wc_tree : option oid                  (* the tree the working copy shows *)
}.

Definition set_gitdir (f : gmap string file_content -> gmap string file_content)
    (repo : KartRepo) : KartRepo :=
  {| gitdir := f (gitdir repo); references := references repo;
     head_name := head_name repo; odb := odb repo; wc_tree := wc_tree repo |}.

(** [repo.gitdir_file(rel_path).exists()]. *)
Definition gitdir_file_exists (rel_path : string) (repo : KartRepo) : bool :=
  bool_decide (is_Some (gitdir repo !! rel_path)).

(** [KartRepo.state]. *)
Definition state (repo : KartRepo) : result KartRepoState :=
  let merge_head := gitdir_file_exists KartRepoFiles.MERGE_HEAD repo in
  let merged_index := gitdir_file_exists KartRepoFiles.MERGED_INDEX repo in
  if merge_head && negb merged_index then
    Raise (NotFound
      ("Kart repo is in " ++ dq ++ "merging" ++ dq
       ++ " state, but required file MERGED_INDEX is missing." ++ nl
       ++ "Try `kart merge --abort` to return to a good state."))
  else Ok (if merge_head then MERGING else NORMAL).

(** The two characters that end a line. *)
Definition CR : ascii := Ascii.ascii_of_nat 13.
Definition LF : ascii := Ascii.ascii_of_nat 10.

(** What [Path.read_text] makes of the ends of lines: Python reads a
    text file with universal newlines, so that CR LF and a CR alone
    both come back as LF.  (On the way out, [Path.write_text] turns LF
    into the line end of the system, which on POSIX is LF itself.) *)
Fixpoint universal_newlines (text : string) : string :=
  match text with
  | EmptyString => EmptyString
  | String c rest =>
      if Ascii.eqb c CR then
        String LF match rest with
                  | String d after =>
                      if Ascii.eqb d LF then universal_newlines after
                      else universal_newlines rest
                  | EmptyString => EmptyString
                  end
      else String c (universal_newlines rest)
  end.

(** [KartRepo.read_gitdir_file] with [strip=False]. *)
Definition read_gitdir_file (rel_path : string) (missing_ok : bool)
  : StateErr KartRepo (option string) :=
  fun repo =>
    match gitdir repo !! rel_path with
    | Some (Text s) => (Ok (Some (universal_newlines s)), repo)
    | Some (Index _) => (Raise (OtherError "UnicodeDecodeError"), repo)
    | None => if missing_ok then (Ok None, repo)
              else (Raise (OtherError "FileNotFoundError"), repo)
    end.

(** [KartRepo.remove_gitdir_file] with its default [missing_ok=True]. *)
Definition remove_gitdir_file (rel_path : string) : StateErr KartRepo unit :=
  fun repo =>
    if negb (gitdir_file_exists rel_path repo) then (Ok tt, repo)
    else (Ok tt, set_gitdir (delete rel_path) repo).

(** [text.endswith(newline)].  The text is held as its UTF-8 bytes, among
    which the byte 10 only ever stands for the newline character. *)
Fixpoint ends_with_newline (text : string) : bool :=
  match text with
  | EmptyString => false
  | String c EmptyString => Ascii.eqb c (Ascii.ascii_of_nat 10)
  | String _ rest => ends_with_newline rest
  end.

(** [KartRepo.write_gitdir_file]; its [assert isinstance(text, str)]
    holds by typing. *)
Definition write_gitdir_file (rel_path text : string) : StateErr KartRepo unit :=
  let text := if negb (ends_with_newline text) then text ++ nl else text in
  modify (set_gitdir (<[rel_path := Text text]>)).

(** The commit HEAD points to, and its tree. *)
Definition head_commit_id (repo : KartRepo) : option oid :=
  references repo !! head_name repo.

Definition lookup_commit (id : oid) (repo : KartRepo) : option Commit :=
  snd <$> List.find (fun p => String.eqb (fst p) id) (odb repo).

Definition head_tree (repo : KartRepo) : option oid :=
  id ← head_commit_id repo; c ← lookup_commit id repo; Some (tree c).

(** [repo.working_copy.reset_to_head()]: the working copy shows HEAD. *)
Definition reset_to_head : StateErr KartRepo unit :=
  modify (fun repo =>
    {| gitdir := gitdir repo; references := references repo;
       head_name := head_name repo; odb := odb repo;
       wc_tree := head_tree repo |}).

End Repo.

(** ** kart/merge.py *)

Module Merge.
Import Repo.
Local Open Scope staterr_scope.

(** Modelled from the spec: the constant [merge_util.ALL_MERGE_FILES] is not
    among the sources.  Sections 3 and 8 list the merge-state files as
    MERGE_HEAD, MERGED_INDEX, MERGED_TREE, MERGE_MSG and MERGE_BRANCH. *)
Definition ALL_MERGE_FILES : list string :=
  [ KartRepoFiles.MERGE_HEAD; KartRepoFiles.MERGED_INDEX; KartRepoFiles.MERGED_TREE;
    KartRepoFiles.MERGE_MSG; KartRepoFiles.MERGE_BRANCH ].

(** Modelled from the spec: [merge_util.MergeContext] is not among the
    sources.  Section 4.5: MERGE_HEAD holds the commit OID of theirs, ours is
    the commit HEAD is at, MERGE_BRANCH the shorthand that was merged in.
    Only the commit ids of ours and theirs are read by the code below. *)
Record MergeContext : Type := mkMergeContext {
  ours : oid;
  theirs : oid;
  merge_branch : option string
}.

Definition text_of (c : option file_content) : option string :=
  match c with
  | Some (Text s) => Some s
  | _ => None
  end.

Definition MergeContext_read_from_repo : StateErr KartRepo MergeContext :=
  fun repo =>
    match head_commit_id repo, text_of (gitdir repo !! KartRepoFiles.MERGE_HEAD) with
    | Some o, Some t =>
        (Ok {| ours := o; theirs := t;
               merge_branch := text_of (gitdir repo !! KartRepoFiles.MERGE_BRANCH) |},
         repo)
    | _, _ => (Raise (OtherError "merge context cannot be read"), repo)
    end.

Definition MergedIndex_read_from_repo : StateErr KartRepo MergedIndex :=
  fun repo =>
    match gitdir repo !! KartRepoFiles.MERGED_INDEX with
    | Some (Index m) => (Ok m, repo)
    | _ => (Raise (OtherError "merged index cannot be read"), repo)
    end.

(** [assert repo.state != KartRepoState.MERGING]. *)
Definition assert_state_not_merging : StateErr KartRepo unit :=
  fun repo =>
    match state repo with
    | Ok MERGING => (Raise AssertionError, repo)
    | Ok NORMAL => (Ok tt, repo)
    | Raise e => (Raise e, repo)
    end.

(** Python truthiness of an optional string: [None] and the empty string
    are false. *)
Definition truthy (s : option string) : bool :=
  match s with
  | Some (String _ _) => true
  | _ => false
  end.

(** The gitdir once the loop over [ALL_MERGE_FILES] has run. *)
Definition without_merge_files (g : gmap string file_content)
  : gmap string file_content :=
  delete KartRepoFiles.MERGE_BRANCH
    (delete KartRepoFiles.MERGE_MSG
      (delete KartRepoFiles.MERGED_TREE
        (delete KartRepoFiles.MERGED_INDEX
          (delete KartRepoFiles.MERGE_HEAD g)))).

(** The repository after a completed merge: the merge commit is the
    newest object and the head ref is at it, the merge-state files are
    gone and the working copy shows the new HEAD. *)
Definition merged_repo (repo : KartRepo) (id : oid) (c : Commit) : KartRepo :=
  let repo1 := {| gitdir := without_merge_files (gitdir repo);
                  references := <[head_name repo := id]> (references repo);
                  head_name := head_name repo;
                  odb := (id, c) :: odb repo;
                  wc_tree := wc_tree repo |} in
  {| gitdir := gitdir repo1; references := references repo1;
     head_name := head_name repo1; odb := odb repo1;
     wc_tree := head_tree repo1 |}.

Section Environment.
(** What the sources import from modules that are not at hand, and what
    the user does, are parameters:
    - [cmd]: the command path of the click context;
    - [check_git_user]: kart.core.check_git_user;
    - [hash_commit]: the object id git gives a commit;
    - [write_resolved_tree]: MergedIndex.write_resolved_tree, the id of
      the tree it writes;
    - [merge_message]: MergeContext.get_message;
    - [editor]: commit.get_commit_message, what the user saves when the
      editor opens on the draft message;
    - [default_signature]: repo.default_signature. *)
Variable cmd : string.
Variable check_git_user : KartRepo -> result unit.
Variable hash_commit : Commit -> oid.
Variable write_resolved_tree : MergedIndex -> oid.
Variable merge_message : MergeContext -> string.
Variable editor : option string -> option string.
Variable default_signature : string.

(** [repo.create_commit(ref_name, author, committer, message, tree, parents)]:
    writes the commit and moves the ref to it. *)
Definition create_commit (ref_name author committer message : string)
    (tree : oid) (parents : list oid) : StateErr KartRepo oid :=
  fun repo =>
    let c := {| Repo.author := author; Repo.committer := committer;
                Repo.message := message; Repo.tree := tree;
                Repo.parents := parents |} in
    let id := hash_commit c in
    (Ok id,
     {| gitdir := gitdir repo;
        references := <[ref_name := id]> (references repo);
        head_name := head_name repo;
        odb := (id, c) :: odb repo;
        wc_tree := wc_tree repo |}).

(** [get_commit_message]. *)
Definition get_commit_message (merge_context : MergeContext) (merge_tree_id : oid)
    (launch_editor read_msg_file : bool) : StateErr KartRepo string :=
  message <-- (if read_msg_file
               then read_gitdir_file KartRepoFiles.MERGE_MSG true
               else ret None) ;;
  let message := if truthy message then message
                 else Some (merge_message merge_context) in
  let message := if launch_editor then editor message else message in
  match message with
  | Some (String a m) => ret (String a m)
  | _ => raise (UsageError "Aborting commit due to empty commit message.")
  end.

(** [abort_merging_state], from the repository that
    [ctx.obj.get_repo(allowed_states=KartRepoState.ALL_STATES)] hands out. *)
Definition abort_merging_state : StateErr KartRepo unit :=
  is_ongoing_merge <-- gets (gitdir_file_exists KartRepoFiles.MERGE_HEAD) ;;
  for_each ALL_MERGE_FILES remove_gitdir_file ;;;
  assert_state_not_merging ;;;
  if negb is_ongoing_merge then
    raise (InvalidOperation (bad_state_message cmd NORMAL [MERGING] (Some "--abort")))
  else
    reset_to_head.

(** [complete_merging_state], from the repository that
    [ctx.obj.get_repo(allowed_states=KartRepoState.MERGING)] hands out;
    [message] and [launch_editor] are the two [ctx.params] it reads.
    The packfile context, the text echoed and [repo.gc] do not touch the
    state kept here and are left out.  Returns the id of the merge commit. *)
Definition complete_merging_state (message : option string) (launch_editor : bool)
  : StateErr KartRepo oid :=
  merged_index <-- MergedIndex_read_from_repo ;;
  if negb (size (unresolved_conflicts merged_index) =? 0)%nat then
    raise (InvalidOperation
      "Merge cannot be completed until all conflicts are resolved - see `kart conflicts`.")
  else
    call check_git_user ;;;
    merge_context <-- MergeContext_read_from_repo ;;
    let merge_tree_id := write_resolved_tree merged_index in
    message <-- match message with
                | Some (String a m) => ret (String a m)
                | _ => get_commit_message merge_context merge_tree_id launch_editor true
                end ;;
    let user := default_signature in
    head_ref <-- gets head_name ;;
    merge_commit_id <-- create_commit head_ref user user message merge_tree_id
                          [ours merge_context; theirs merge_context] ;;
    for_each ALL_MERGE_FILES remove_gitdir_file ;;;
    assert_state_not_merging ;;;
    reset_to_head ;;;
    ret merge_commit_id.

End Environment.

End Merge.

(** ** kart/fast_import.py *)

Module FastImport.
Import Repo.
Local Open Scope staterr_scope.

Inductive ReplaceExisting : Type := DONT_REPLACE | GIVEN | ALL.

#[global] Instance ReplaceExisting_eq_dec : EqDecision ReplaceExisting.
Proof. solve_decision. Defined.

(** [Schema.diff_type_counts] returns a dict of counts; the keys read here. *)
Record diff_type_counts_t : Type := mkCounts {
  inserts : nat;
  updates : nat;
  deletes : nat;
  pk_updates : nat
}.

(** The commands of the fast-import stream (section 4.4). *)
Inductive command : Type :=
  | Header (ref : string) (message : string) (from : option oid)
  | M_inline (path data : string)
  | M_existing (sha path : string)
  | D (path : string)
  | Done.

#[global] Instance command_eq_dec : EqDecision command.
Proof. solve_decision. Defined.

(** The repository's refs and the stdin of the running git-fast-import. *)
Record ImportState : Type := mkImportState {
  references : gmap string oid;
  stdin : list command
}.

(** [stream.write]: the bytes of one command go down the pipe. *)
Definition write (c : command) : StateErr ImportState unit :=
  modify (fun s => {| references := references s; stdin := stdin s ++ [c] |}).

(** [write_blob_to_stream]. *)
Definition write_blob_to_stream (blob_path blob_data : string) : StateErr ImportState unit :=
  write (M_inline blob_path blob_data).

(** [copy_existing_blob_to_stream]. *)
Definition copy_existing_blob_to_stream (blob_path blob_sha : string)
  : StateErr ImportState unit :=
  write (M_existing blob_sha blob_path).

(** [write_blobs_to_stream], driven to its end with [check] as the body of
    the caller's loop. *)
Definition write_blobs_to_stream (blobs : list (string * string))
    (check : string -> StateErr ImportState unit) : StateErr ImportState unit :=
  for_each blobs (fun b => write_blob_to_stream b.1 b.2 ;;; check b.1).

(** [_safe_walk_repo]: a [KeyError] out of [repo.walk] becomes
    [_CommitMissing]. *)
Fixpoint _safe_walk_repo (walk : gen oid) : gen oid :=
  match walk with
  | GenEnd => GenEnd
  | GenRaise (KeyError _) => GenRaise _CommitMissing
  | GenRaise e => GenRaise e
  | GenYield commit rest => GenYield commit (_safe_walk_repo rest)
  end.

(** The state once [cmds] have been written to the stream. *)
Definition put (cmds : list command) (s : ImportState) : ImportState :=
  {| references := references s; stdin := stdin s ++ cmds |}.

(** A computation that only writes to the stream. *)
Definition appends {A} (m : StateErr ImportState A) : Prop :=
  forall s, exists cmds, snd (m s) = put cmds s.

(** A computation that leaves the state as it is. *)
Definition pure {A} (m : StateErr ImportState A) : Prop :=
  forall s, snd (m s) = s.

(** A computation that writes nothing to the stream. *)
Definition keeps_stdin {A} (m : StateErr ImportState A) : Prop :=
  forall s, stdin (snd (m s)) = stdin s.

(** Two ref tables that agree on all names but those in [names]. *)
Definition agree_except (names : list string) (refs refs' : gmap string oid) : Prop :=
  forall name, name ∉ names -> refs' !! name = refs !! name.

Definition header_ref (cmds : list command) : option string :=
  match cmds with
  | Header ref _ _ :: _ => Some ref
  | _ => None
  end.

Definition stream_done (cmds : list command) : bool :=
  match last cmds with
  | Some Done => true
  | _ => false
  end.

Section Process.
(** Modelled from the spec: git-fast-import is an external program.  Per
    section 4.4 it reads the commands, writes to the ref named by the
    [commit] command, and an early termination is a failed import; with
    [--done], refs are written only once the [done] command has arrived
    and the program exits with status 0.  Its exit status and the commit it
    writes are functions of the stream it was fed; [wait_interrupted] says
    whether a KeyboardInterrupt reaches [p.wait()]. *)
Variable git_exit : list command -> Z.
Variable git_commit : list command -> oid.
Variable wait_interrupted : bool.

Definition process_exit (s : ImportState) : ImportState :=
  if stream_done (stdin s) && (git_exit (stdin s) =? 0)%Z then
    match header_ref (stdin s) with
    | Some ref => {| references := <[ref := git_commit (stdin s)]> (references s);
                     stdin := stdin s |}
    | None => s
    end
  else s.

(** [p.wait()] and the check of [p.returncode]. *)
Definition wait_and_check : StateErr ImportState unit :=
  fun s =>
    let s' := process_exit s in
    if wait_interrupted then (Raise KeyboardInterrupt, s')
    else if (git_exit (stdin s) =? 0)%Z then (Ok tt, s')
    else (Raise (SubprocessError (git_exit (stdin s))), s').

(** The context manager [git_fast_import], around the body of the
    [with] statement. *)
Definition git_fast_import (body : StateErr ImportState unit)
  : StateErr ImportState unit :=
  fun s =>
    let p := {| references := references s; stdin := [] |} in
    match body p with
    | (Ok _, s1) => (write Done ;;; wait_and_check) s1
    | (Raise BrokenPipeError, s1) => wait_and_check s1
    | (Raise e, s1) => (Raise e, s1)
    end.

End Process.

Section Tables.
(** The schema class and the dataset class (kart.tabular) are not among
    the sources: schemas are an abstract type with decidable equality and
    [diff_type_counts] is a parameter. *)
Context {Schema : Type} `{EqDecision Schema}.
Variable diff_type_counts : Schema -> Schema -> diff_type_counts_t.

(** What is read of a dataset: its path and schema, the name of its inner
    directory, the blobs directly in its tree, its legend blobs. *)
Record Dataset : Type := mkDataset {
  path : string;
  schema : Schema;
  DATASET_DIRNAME : string;
  attachment_names : list string;
  legend_blob_data : list (string * string)
}.

(** What is read of a [TableImportSource]. *)
Record Source : Type := mkSource {
  dest_path : string;
  source_schema : Schema;
  feature_count : Z;
  feature_blobs_already_written : bool
}.

(** The three ways [_import_single_source] obtains the feature blobs. *)
Inductive blob_mode : Type :=
  | ReusedBlobs
  | ComparedWith (replacing_dataset : option Dataset)
  | Plain.

(** The repository and the sources, as far as the import reads them:
    - [repo_walk c]: [repo.walk(c)], the log from [c];
    - [repo_datasets refish]: [repo.datasets(refish)], by path;
    - [feature_blob_iter]: the iterator over (path, blob) that the
      dataset class or the source gives in each mode.  When primary
      keys are replaced, [_ids] writes a delete for every key that the
      iterator takes: the deletes of the keys taken before an item is
      yielded come with the item, and those of the keys taken after
      the last item, before the iterator ends or raises, are the second
      component;
    - [meta_blobs]: [dataset.import_iter_meta_blobs]. *)
Variable repo_walk : oid -> gen oid.
Variable repo_datasets : option oid -> gmap string Dataset.
Variable feature_blob_iter :
  Source -> blob_mode -> option (list string) ->
  gen (list string * (string * string)) * list string.
Variable meta_blobs : Source -> list (string * string).

(** The [if types["pk_updates"]: ... elif types["inserts"] or
    types["deletes"]: ...] of both places: the answer, if one is given. *)
Definition answer_of_types (types : diff_type_counts_t) : option bool :=
  if negb (pk_updates types =? 0)%nat then Some false
  else if negb (inserts types =? 0)%nat || negb (deletes types =? 0)%nat then Some true
  else None.

(** The loop of [should_compare_imported_features_against_old_features]
    over the log. *)
Fixpoint walk_until_schema_change (log : gen oid) (replacing_path : string)
    (src_schema : Schema) : result bool :=
  match log with
  | GenEnd => Ok false
  | GenRaise _CommitMissing => Ok true
  | GenRaise e => Raise e
  | GenYield commit rest =>
      match repo_datasets (Some commit) !! replacing_path with
      | None => Ok false
      | Some old_dataset =>
          match (if decide (schema old_dataset = src_schema) then None
                 else answer_of_types
                        (diff_type_counts (schema old_dataset) src_schema)) with
          | Some answer => Ok answer
          | None => walk_until_schema_change rest replacing_path src_schema
          end
      end
  end.

(** [should_compare_imported_features_against_old_features]. *)
Definition should_compare_imported_features_against_old_features
    (source : Source) (replacing_dataset : option Dataset)
    (from_commit : option oid) : result bool :=
  match replacing_dataset with
  | None => Ok false
  | Some rd =>
      let old_schema := schema rd in
      match (if decide (old_schema = source_schema source) then None
             else answer_of_types
                    (diff_type_counts (schema rd) (source_schema source))) with
      | Some answer => Ok answer
      | None =>
          match from_commit with
          | None => Raise AttributeError
          | Some c =>
              walk_until_schema_change (_safe_walk_repo (repo_walk c))
                (path rd) (source_schema source)
          end
      end
  end.

(** [fast_import_clear_tree]. *)
Definition fast_import_clear_tree (replace_ids : option (list string))
    (replacing_dataset : option Dataset) (source : Source)
  : StateErr ImportState unit :=
  match replacing_dataset with
  | None => ret tt
  | Some rd =>
      let dest_path := dest_path source in
      let dest_inner_path := dest_path ++ "/" ++ DATASET_DIRNAME rd in
      match replace_ids with
      | None => write (D dest_path)
      | Some _ =>
          for_each (attachment_names rd)
            (fun name => write (D (dest_path ++ "/" ++ name))) ;;;
          write (D (dest_inner_path ++ "/meta"))
      end ;;;
      write_blobs_to_stream (legend_blob_data rd) (fun _ => ret tt)
  end.

(** The loop [for i, (feature_path, blob_data) in enumerate(feature_blob_iter)]
    of [_import_single_source], from index [i] on.  Asking the iterator
    for its next item writes the deletes of the keys it takes, whether it
    then yields, ends or raises; after the [break] it is not asked
    again. *)
Fixpoint import_feature_blobs (already_written : bool) (limit : option Z) (i : Z)
    (feature_blob_iter : gen (list string * (string * string)))
    (last_deleted : list string)
  : StateErr ImportState unit :=
  match feature_blob_iter with
  | GenEnd => for_each last_deleted (fun path => write (D path))
  | GenRaise e => for_each last_deleted (fun path => write (D path)) ;;; raise e
  | GenYield (deleted, (feature_path, blob_data)) rest =>
      for_each deleted (fun path => write (D path)) ;;;
      (if already_written
       then copy_existing_blob_to_stream feature_path blob_data
       else write_blob_to_stream feature_path blob_data) ;;;
      if match limit with
         | Some limit => (i =? limit - 1)%Z
         | None => false
         end
      then ret tt
      else import_feature_blobs already_written limit (i + 1) rest last_deleted
  end.

(** The choice of the feature blob iterator in [_import_single_source]. *)
Definition choose_blob_mode (source : Source) (replacing_dataset : option Dataset)
    (from_commit : option oid) : result blob_mode :=
  if feature_blobs_already_written source then Ok ReusedBlobs
  else
    compare ← should_compare_imported_features_against_old_features
                source replacing_dataset from_commit;
    Ok (if compare : bool then ComparedWith replacing_dataset else Plain).

(** [_import_single_source]. *)
Definition _import_single_source (source : Source)
    (replace_existing : ReplaceExisting) (from_commit : option oid)
    (replace_ids : option (list string)) (limit : option Z)
  : StateErr ImportState unit :=
  replacing_dataset <--
    (if decide (replace_existing = GIVEN) then
       let replacing_dataset := repo_datasets from_commit !! dest_path source in
       fast_import_clear_tree replace_ids replacing_dataset source ;;;
       ret replacing_dataset
     else ret None) ;;
  mode <-- call (fun _ => choose_blob_mode source replacing_dataset from_commit) ;;
  import_feature_blobs (feature_blobs_already_written source) limit 0
    (feature_blob_iter source mode replace_ids).1
    (feature_blob_iter source mode replace_ids).2 ;;;
  write_blobs_to_stream (meta_blobs source) (fun _ => ret tt).

(** The rest of what [fast_import_tables] takes from its surroundings:
    - [git_exit], [git_commit], [wait_interrupted]: the git-fast-import
      process, as in [git_fast_import];
    - [uuid4]: the text of the uuid drawn for the temporary ref;
    - [peel_tree], [empty_tree], [tree_contains]: the tree of a commit, the
      empty tree, whether a path is in a tree;
    - [extra_blobs_for_version]: the blobs that record the repo version;
    - [head_branch]: [repo.head_branch], [None] when HEAD is detached;
    - [check_valid], [wrap_sources_if_needed], [aggregate_import_source_desc]:
      the class methods of the import sources;
    - [commit_with_tree c t]: the id of the commit that [repo.create_commit]
      writes with the details of commit [c] and the tree [t]. *)
Variable git_exit : list command -> Z.
Variable git_commit : list command -> oid.
Variable wait_interrupted : bool.
Variable uuid4 : string.
Variable peel_tree : oid -> oid.
Variable empty_tree : oid.
Variable tree_contains : oid -> string -> bool.
Variable extra_blobs_for_version : list (string * string).
Variable head_branch : option string.
Variable check_valid : list Source -> result unit.
Variable wrap_sources_if_needed : list Source -> list Source.
Variable aggregate_import_source_desc : list Source -> string.
Variable commit_with_tree : oid -> oid -> oid.

(** The [from_commit] argument: left out ([UNSPECIFIED]), or a commit,
    or [None]. *)
Inductive from_commit_arg : Type :=
  | UNSPECIFIED
  | FromCommit (c : option oid).

(** [generate_message] and [generate_header]. *)
Definition generate_message (sources : list Source) : result string :=
  match sources with
  | [] => Raise (OtherError "StopIteration")
  | _ :: _ => Ok (aggregate_import_source_desc sources)
  end.

Definition generate_header (sources : list Source) (message : option string)
    (branch : string) (from_commit : option oid) : result command :=
  message ← match message with
            | None => generate_message sources
            | Some m => Ok m
            end;
  Ok (Header branch message from_commit).

(** [repo.revparse_single(import_ref)]. *)
Definition revparse_single (ref : string) : StateErr ImportState oid :=
  fun s => match references s !! ref with
           | Some c => (Ok c, s)
           | None => (Raise (KeyError ref), s)
           end.

(** [repo.create_commit(ref, ...)] with the details of [existing_commit]
    and the tree [new_tree]: the ref moves to the commit written. *)
Definition create_commit_like (ref : string) (existing_commit new_tree : oid)
  : StateErr ImportState unit :=
  modify (fun s =>
    {| references := <[ref := commit_with_tree existing_commit new_tree]> (references s);
       stdin := stdin s |}).

(** The [finally] of [fast_import_tables]: remove the import branch. *)
Definition remove_import_ref (import_ref : option string) : StateErr ImportState unit :=
  match import_ref with
  | Some ref =>
      fun s => if bool_decide (is_Some (references s !! ref))
               then (Ok tt, {| references := delete ref (references s);
                               stdin := stdin s |})
               else (Ok tt, s)
  | None => ret tt
  end.

(** [fast_import_tables]. *)
Definition fast_import_tables (sources : list Source) (message : option string)
    (replace_existing : ReplaceExisting) (from_commit : from_commit_arg)
    (replace_ids : option (list string)) (allow_empty : bool) (limit : option Z)
    (header : option command) : StateErr ImportState unit :=
  from_commit <--
    match replace_existing with
    | ALL => ret None
    | _ => match from_commit with
           | UNSPECIFIED =>
               raise (OtherError
                 "Caller should specify from_commit when requesting an import that doesn't start from scratch")
           | FromCommit c => ret c
           end
    end ;;
  let from_tree := match from_commit with
                   | Some c => peel_tree c
                   | None => empty_tree
                   end in
  let extra_blobs := match from_commit with
                     | Some _ => []
                     | None => extra_blobs_for_version
                     end in
  call (fun _ => check_valid sources) ;;;
  (if decide (replace_existing = DONT_REPLACE) then
     for_each sources (fun source =>
       if tree_contains from_tree (dest_path source)
       then raise (InvalidOperation
              ("Cannot import to " ++ dest_path source ++ "/ - already exists in repository"))
       else ret tt) ;;;
     match replace_ids with
     | None => ret tt
     | Some _ => raise AssertionError
     end
   else ret tt) ;;;
  let sources := wrap_sources_if_needed sources in
  let import_ref := match header with
                    | None => Some ("refs/kart-import/" ++ uuid4)
                    | Some _ => None
                    end in
  try_finally
    (header <-- match header, import_ref with
                | None, Some ref =>
                    call (fun _ => generate_header sources message ref from_commit)
                | Some h, _ => ret h
                | None, None => raise AssertionError
                end ;;
     git_fast_import git_exit git_commit wait_interrupted
       (write header ;;;
        write_blobs_to_stream extra_blobs (fun blob_path =>
          if negb (bool_decide (replace_existing = ALL))
             && tree_contains from_tree blob_path
          then raise (ValueError (blob_path ++ " already exists"))
          else ret tt) ;;;
        for_each sources (fun source =>
          _import_single_source source replace_existing from_commit
            replace_ids limit)) ;;;
     match import_ref with
     | Some ref =>
         existing_commit <-- revparse_single ref ;;
         let new_tree := peel_tree existing_commit in
         (if negb allow_empty && bool_decide (new_tree = from_tree)
          then raise (NotFound "No changes to commit")
          else ret tt) ;;;
         create_commit_like (default "HEAD" head_branch) existing_commit new_tree
     | None => ret tt
     end)
    (remove_import_ref import_ref).

(** The commands that the feature loop writes for the items it takes:
    per item, the deletes that came with it and then its blob. *)
Definition feature_commands (already_written : bool)
    (items : list (list string * (string * string))) : list command :=
  flat_map (fun item =>
              map D item.1
              ++ [if already_written then M_existing item.2.2 item.2.1
                  else M_inline item.2.1 item.2.2])%list
           items.

Definition is_blob (c : command) : bool :=
  match c with
  | M_inline _ _ | M_existing _ _ => true
  | _ => false
  end.

(** The commands of [fast_import_clear_tree]. *)
Definition clear_tree_commands (replace_ids : option (list string))
    (replacing_dataset : option Dataset) (source : Source) : list command :=
  match replacing_dataset with
  | None => []
  | Some rd =>
      (match replace_ids with
       | None => [D (dest_path source)]
       | Some _ =>
           map (fun name => D (dest_path source ++ "/" ++ name)) (attachment_names rd)
           ++ [D ((dest_path source ++ "/" ++ DATASET_DIRNAME rd) ++ "/meta")]
       end
       ++ map (fun b => M_inline b.1 b.2) (legend_blob_data rd))%list
  end.

(** The dataset that [_import_single_source] replaces, if any. *)
Definition replacing_dataset_of (replace_existing : ReplaceExisting)
    (from_commit : option oid) (source : Source) : option Dataset :=
  if decide (replace_existing = GIVEN)
  then repo_datasets from_commit !! dest_path source
  else None.

(** The feature blob iterator of [source] yields [items] and then goes
    on with [rest]: it has at least [length items] features. *)
Definition yields_first (replace_existing : ReplaceExisting)
    (from_commit : option oid) (replace_ids : option (list string))
    (source : Source) (items : list (list string * (string * string))) : Prop :=
  exists mode rest,
    choose_blob_mode source (replacing_dataset_of replace_existing from_commit source)
      from_commit = Ok mode
    /\ (feature_blob_iter source mode replace_ids).1 = gen_app items rest.

(** The limit does not cut short a loop over [n] items: there is none,
    it is not positive, or it is [n] or more. *)
Definition limit_beyond (limit : option Z) (n : nat) : Prop :=
  match limit with
  | None => True
  | Some limit => (limit <= 0 \/ Z.of_nat n <= limit)%Z
  end.

(** All the commands of one source when the loop takes [items] and,
    if it comes to the end of the iterator, writes the deletes
    [last_deleted] there. *)
Definition source_commands (replace_existing : ReplaceExisting)
    (from_commit : option oid) (replace_ids : option (list string))
    (source : Source) (items : list (list string * (string * string)))
    (last_deleted : list string)
  : list command :=
  (clear_tree_commands replace_ids
     (replacing_dataset_of replace_existing from_commit source) source
   ++ feature_commands (feature_blobs_already_written source) items
   ++ map D last_deleted
   ++ map (fun b => M_inline b.1 b.2) (meta_blobs source))%list.

(** How an old schema stands against the schema being imported: the
    primary key changed; columns were added or dropped and the primary key
    was kept; or neither (the schemas are equal, or differ in other ways). *)
Definition pk_change (old_schema src_schema : Schema) : Prop :=
  old_schema <> src_schema
  /\ pk_updates (diff_type_counts old_schema src_schema) <> 0.

Definition column_change (old_schema src_schema : Schema) : Prop :=
  old_schema <> src_schema
  /\ pk_updates (diff_type_counts old_schema src_schema) = 0
  /\ (inserts (diff_type_counts old_schema src_schema) <> 0
      \/ deletes (diff_type_counts old_schema src_schema) <> 0).

Definition no_schema_change (old_schema src_schema : Schema) : Prop :=
  old_schema = src_schema
  \/ (pk_updates (diff_type_counts old_schema src_schema) = 0
      /\ inserts (diff_type_counts old_schema src_schema) = 0
      /\ deletes (diff_type_counts old_schema src_schema) = 0).

(** A commit of the log that has the dataset, without schema change. *)
Definition quiet_commit (replacing_path : string) (src_schema : Schema)
    (commit : oid) : Prop :=
  exists ds, repo_datasets (Some commit) !! replacing_path = Some ds
             /\ no_schema_change (schema ds) src_schema.

End Tables.

Arguments remove_import_ref : simpl never.

End FastImport.

(** ** kart/tile/importer.py *)

Module TileImporter.
Import Repo FastImport.
Local Open Scope staterr_scope.

(** The fields of a [TileImporter] that [import_tiles] reads once the
    sources have been checked. *)
Record TileImporter : Type := mkTileImporter {
  dataset_path : string;
  DATASET_DIRNAME : string;
  message : option string;
  amend : bool;
  allow_empty : bool;
  update_existing : bool;
  delete : list string;
  sources : list string
}.

Section ImportTiles.
(** The repository and the tiles, as far as [import_tiles] reads them:
    - [git_exit], [git_commit], [wait_interrupted]: the git-fast-import
      process, as in [git_fast_import];
    - [uuid4]: the text of the uuid drawn for the temporary ref;
    - [head_commit], [head_commit_message], [head_tree], [head_branch]:
      of [self.repo], before the import;
    - [peel_tree]: the tree of a commit;
    - [default_message]: [get_default_message()];
    - [extra_blobs]: what [write_extra_blobs] writes;
    - [tilename_to_blob_path], [tree_contains]: the blob path of a tile of
      the existing dataset, and whether the root tree has a path;
    - [tile_pointer_blobs]: the pointer blobs that [import_tiles_to_stream]
      writes, in the order the conversions complete;
    - [check_for_non_homogenous_metadata], [meta_blobs]: the check of the
      merged metadata, and the meta blobs written from it;
    - [amended_commit t]: the id of the commit that [repo.create_commit(None, ...)]
      writes with the tree [t] on the parents of the head commit;
    - [unlink_local_copies]: the loop that unlinks the local copies of
      fetched tiles, which returns or raises;
    - [configure_do_checkout_datasets], [reset_to_head]: the calls on the
      config and on the working copy (kart.working_copy is not among the
      sources) that end the import; they return or raise, and touch neither
      the refs nor the stream. *)
Variable git_exit : list command -> Z.
Variable git_commit : list command -> oid.
Variable wait_interrupted : bool.
Variable uuid4 : string.
Variable head_commit : option oid.
Variable head_commit_message : string.
Variable head_tree : option oid.
Variable head_branch : string.
Variable peel_tree : oid -> oid.
Variable default_message : string.
Variable extra_blobs : list (string * string).
Variable tilename_to_blob_path : string -> string.
Variable tree_contains : option oid -> string -> bool.
Variable tile_pointer_blobs : gen (string * string).
Variable check_for_non_homogenous_metadata : result unit.
Variable meta_blobs : list (string * string).
Variable amended_commit : oid -> oid.
Variable unlink_local_copies : result unit.
Variable configure_do_checkout_datasets : result unit.
Variable reset_to_head : result unit.

(** Write the items of a generator as inline blobs, up to its end. *)
Fixpoint write_blob_gen (blobs : gen (string * string)) : StateErr ImportState unit :=
  match blobs with
  | GenEnd => ret tt
  | GenRaise e => raise e
  | GenYield b rest => write_blob_to_stream b.1 b.2 ;;; write_blob_gen rest
  end.

(** [self.repo.references[ref]]. *)
Definition lookup_reference (ref : string) : StateErr ImportState oid :=
  fun s => match references s !! ref with
           | Some c => (Ok c, s)
           | None => (Raise (KeyError ref), s)
           end.

(** [self.repo.references[ref].delete()]. *)
Definition delete_reference (ref : string) : StateErr ImportState unit :=
  lookup_reference ref ;;;
  modify (fun s => {| references := base.delete ref (references s);
                      stdin := stdin s |}).

(** [references.create(head_branch, oid)] on an unborn head, else
    [references[head_branch].set_target(oid)]: either way the branch is at
    the commit. *)
Definition move_head_branch (new_commit_oid : oid) : StateErr ImportState unit :=
  modify (fun s => {| references := <[head_branch := new_commit_oid]> (references s);
                      stdin := stdin s |}).

(** [import_tiles], from the choice of the temporary ref on. *)
Definition import_tiles (self : TileImporter) : StateErr ImportState unit :=
  let fast_import_on_branch := "refs/kart-import/" ++ uuid4 in
  message <--
    (if amend self then
       match head_commit with
       | None => raise (InvalidOperation "Cannot amend in an empty repository")
       | Some _ =>
           ret match message self with
               | Some (String a m) => String a m
               | _ => head_commit_message
               end
       end
     else
       ret (default default_message (message self))) ;;
  let header := Header fast_import_on_branch message head_commit in
  let dataset_inner_path := dataset_path self ++ "/" ++ DATASET_DIRNAME self in
  git_fast_import git_exit git_commit wait_interrupted
    (write header ;;;
     write_blobs_to_stream extra_blobs (fun _ => ret tt) ;;;
     (if negb (update_existing self) then write (D (dataset_path self)) else ret tt) ;;;
     for_each (delete self) (fun tile_name =>
       let blob_path := tilename_to_blob_path tile_name in
       if tree_contains head_tree blob_path then write (D blob_path)
       else raise (NotFound (tile_name ++ " does not exist, can't delete it"))) ;;;
     match sources self with
     | [] => ret tt
     | _ :: _ =>
         write_blob_gen tile_pointer_blobs ;;;
         call (fun _ => check_for_non_homogenous_metadata) ;;;
         write_blobs_to_stream meta_blobs (fun _ => ret tt)
     end) ;;;
  try_finally
    (new_commit_oid <--
       (if amend self then
          c <-- lookup_reference fast_import_on_branch ;;
          ret (amended_commit (peel_tree c))
        else
          new_commit <-- lookup_reference fast_import_on_branch ;;
          (if negb (allow_empty self)
              && bool_decide (head_tree = Some (peel_tree new_commit))
           then raise (NotFound "No changes to commit")
           else ret tt) ;;;
          ret new_commit) ;;
     move_head_branch new_commit_oid)
    (delete_reference fast_import_on_branch ;;;
     call (fun _ => unlink_local_copies)) ;;;
  call (fun _ => configure_do_checkout_datasets) ;;;
  call (fun _ => reset_to_head).

End ImportTiles.

End TileImporter.

(** ** kart/key_filters.py *)

Module KeyFilters.
Local Open Scope staterr_scope.
Local Open Scope char_scope.

(** *** [fnmatch.fnmatch] of the Python library

    On POSIX [os.path.normcase] is the identity, so [fnmatch] is
    [fnmatchcase]: the pattern is cut into tokens as [fnmatch.translate]
    does, and the whole name has to match them. *)
Inductive token : Type :=
  | TStar                          (* [*]: any sequence of characters *)
  | TAny                           (* [?]: any one character *)
  | TClass (stuff : list ascii)    (* [[stuff]]: one character of a set *)
  | TLit (c : ascii).              (* any other character stands for itself *)

(** After a [[]: the text up to the closing bracket and what follows it.
    A [!] and then a []] right at the start belong to the set. *)
Fixpoint until_bracket (pat : list ascii) : option (list ascii * list ascii) :=
  match pat with
  | [] => None
  | "]" :: rest => Some ([], rest)
  | c :: rest =>
      match until_bracket rest with
      | Some (stuff, rest') => Some (c :: stuff, rest')
      | None => None
      end
  end.

Definition find_close (pat : list ascii) : option (list ascii * list ascii) :=
  let '(bang, pat1) := match pat with
                       | "!" :: rest => (["!"], rest)
                       | _ => ([], pat)
                       end in
  let '(first, pat2) := match pat1 with
                        | "]" :: rest => (["]"], rest)
                        | _ => ([], pat1)
                        end in
  match until_bracket pat2 with
  | Some (stuff, rest) => Some ((bang ++ first ++ stuff)%list, rest)
  | None => None
  end.

(** The tokens of a pattern; every step takes at least one character, so
    the length of the pattern is fuel enough. *)
Fixpoint tokenize (fuel : nat) (pat : list ascii) : list token :=
  match fuel, pat with
  | _, [] => []
  | O, _ => []
  | S fuel, "*" :: rest => TStar :: tokenize fuel rest
  | S fuel, "?" :: rest => TAny :: tokenize fuel rest
  | S fuel, "[" :: rest =>
      match find_close rest with
      | Some (stuff, rest') => TClass stuff :: tokenize fuel rest'
      | None => TLit "[" :: tokenize fuel rest
      end
  | S fuel, c :: rest => TLit c :: tokenize fuel rest
  end.

Definition ascii_leb (a b : ascii) : bool := (N_of_ascii a <=? N_of_ascii b)%N.

(** Whether [c] is in the set written [body]: [x-y] is a range, any other
    character stands for itself. *)
Fixpoint in_set (body : list ascii) (c : ascii) : bool :=
  match body with
  | [] => false
  | x :: rest =>
      match rest with
      | "-" :: y :: rest' => (ascii_leb x c && ascii_leb c y) || in_set rest' c
      | _ => Ascii.eqb x c || in_set rest c
      end
  end.

Definition class_matches (stuff : list ascii) (c : ascii) : bool :=
  match stuff with
  | "!" :: body => negb (in_set body c)
  | _ => in_set stuff c
  end.

Fixpoint match_tokens (toks : list token) (name : list ascii) : bool :=
  match toks with
  | [] => match name with [] => true | _ => false end
  | TStar :: toks' =>
      (fix star (name : list ascii) : bool :=
         match_tokens toks' name
         || match name with
            | [] => false
            | _ :: name' => star name'
            end) name
  | TAny :: toks' =>
      match name with
      | _ :: name' => match_tokens toks' name'
      | [] => false
      end
  | TClass stuff :: toks' =>
      match name with
      | c :: name' => class_matches stuff c && match_tokens toks' name'
      | [] => false
      end
  | TLit x :: toks' =>
      match name with
      | c :: name' => Ascii.eqb x c && match_tokens toks' name'
      | [] => false
      end
  end.

Definition fnmatch (name pat : string) : bool :=
  let pat := list_ascii_of_string pat in
  match_tokens (tokenize (length pat) pat) (list_ascii_of_string name).

(** [str.replace(char, new)] for a one-character [char]. *)
Fixpoint str_replace (char : ascii) (new : string) (s : string) : string :=
  match s with
  | EmptyString => EmptyString
  | String c rest =>
      if Ascii.eqb c char then new ++ str_replace char new rest
      else String c (str_replace char new rest)
  end.

(** ["*" in key]. *)
Fixpoint str_contains (char : ascii) (s : string) : bool :=
  match s with
  | EmptyString => false
  | String c rest => Ascii.eqb c char || str_contains char rest
  end.

(** The escaping in [RepoKeyFilter.__setitem__]:
    [for char in "?[]": key = key.replace(char, f"[{char}]")]. *)
Definition escape_glob (key : string) : string :=
  foldl (fun key char =>
           str_replace char (String "[" (String char (String "]" EmptyString))) key)
        key ["?"; "["; "]"].



(** *** The filter objects

    Filters are objects that are shared and changed in place (the MATCH_ALL
    singletons, the class attributes [child_that_matches_all]): they live in
    a heap and are named by their address. *)
Abbreviation ref := nat.

Inductive obj : Type :=
  | UserStringKeyFilter (elems : gset string) (match_all : bool)
  | DatasetKeyFilter (data : gmap string ref) (match_all : bool)
  | RepoKeyFilter (data : gmap string ref) (match_all : bool)
                  (_dataset_glob_filters : list (string * ref)).

Abbreviation heap := (gmap ref obj).

Definition match_all_of (o : obj) : bool :=
  match o with
  | UserStringKeyFilter _ m => m
  | DatasetKeyFilter _ m => m
  | RepoKeyFilter _ m _ => m
  end.

(** The objects made when the module is loaded, in this order. *)
Definition UserStringKeyFilter_MATCH_ALL : ref := 0.
Definition DatasetKeyFilter_child_that_matches_all : ref := 1.
Definition DatasetKeyFilter_MATCH_ALL : ref := 2.
Definition RepoKeyFilter_child_that_matches_all : ref := 3.
Definition RepoKeyFilter_MATCH_ALL : ref := 4.

Definition initial_heap : heap :=
  <[RepoKeyFilter_MATCH_ALL := RepoKeyFilter ∅ true []]>
  (<[RepoKeyFilter_child_that_matches_all := DatasetKeyFilter ∅ true]>
  (<[DatasetKeyFilter_MATCH_ALL := DatasetKeyFilter ∅ true]>
  (<[DatasetKeyFilter_child_that_matches_all := UserStringKeyFilter ∅ true]>
  (<[UserStringKeyFilter_MATCH_ALL := UserStringKeyFilter ∅ true]> ∅)))).

Definition TypeError : exn := OtherError "TypeError".

(** A constructor call: the new object gets an address not in use. *)
Definition new_object (o : obj) : StateErr heap ref :=
  fun h => let r := fresh (dom h) in (Ok r, <[r := o]> h).

Definition deref (self : ref) : StateErr heap obj :=
  fun h => match h !! self with
           | Some o => (Ok o, h)
           | None => (Raise TypeError, h)
           end.

(** A key given to a [UserStringKeyFilter]: a tuple or list of parts, or
    anything else; [str] has been applied to the parts. *)
Inductive user_key : Type :=
  | KeyParts (parts : list string)
  | KeyOther (s : string).

Definition join_comma (parts : list string) : string :=
  match parts with
  | [] => EmptyString
  | p :: rest => foldl (fun acc q => acc ++ "," ++ q)%string p rest
  end.

Definition key_string (key : user_key) : string :=
  match key with
  | KeyParts [p] => p
  | KeyParts parts => join_comma parts
  | KeyOther s => s
  end.

(** [UserStringKeyFilter.__contains__]. *)
Definition UserStringKeyFilter_contains (self : ref) (key : user_key)
  : StateErr heap bool :=
  o <-- deref self ;;
  match o with
  | UserStringKeyFilter elems match_all =>
      if match_all then ret true
      else ret (bool_decide (key_string key ∈ elems))
  | _ => raise TypeError
  end.

(** [UserStringKeyFilter.add]. *)
Definition UserStringKeyFilter_add (self : ref) (key : string) : StateErr heap unit :=
  o <-- deref self ;;
  match o with
  | UserStringKeyFilter elems match_all =>
      if negb match_all
      then modify (insert self (UserStringKeyFilter ({[key]} ∪ elems) match_all))
      else ret tt
  | _ => raise TypeError
  end.

(** [RepoKeyFilter._dataset_glob_pattern_matching_key]: the first glob
    pattern, in the order they were stored, that matches the key. *)
Definition _dataset_glob_pattern_matching_key (globs : list (string * ref))
    (key : string) : option (string * ref) :=
  List.find (fun g => fnmatch key g.1) globs.

(** [key in self] for the dict filters: [KeyFilterDict.__contains__] and
    [RepoKeyFilter.__contains__]. *)
Definition KeyFilterDict_contains (self : ref) (key : string) : StateErr heap bool :=
  o <-- deref self ;;
  match o with
  | DatasetKeyFilter data match_all =>
      ret (match_all || bool_decide (is_Some (data !! key)))
  | RepoKeyFilter data match_all globs =>
      ret ((match_all || bool_decide (is_Some (data !! key)))
           || bool_decide (is_Some (_dataset_glob_pattern_matching_key globs key)))
  | _ => raise TypeError
  end.

(** [self[key]]: [KeyFilterDict.__getitem__] and [RepoKeyFilter.__getitem__]. *)
Definition KeyFilterDict_getitem (self : ref) (key : string) : StateErr heap ref :=
  o <-- deref self ;;
  match o with
  | DatasetKeyFilter data match_all =>
      if match_all then ret DatasetKeyFilter_child_that_matches_all
      else match data !! key with
           | Some child => ret child
           | None => raise (KeyError key)
           end
  | RepoKeyFilter data match_all globs =>
      if match_all then ret RepoKeyFilter_child_that_matches_all
      else match data !! key with
           | Some child => ret child
           | None =>
               match _dataset_glob_pattern_matching_key globs key with
               | Some (_, child) => ret child
               | None => raise (KeyError key)
               end
           end
  | _ => raise TypeError
  end.

(** [self.get(key, default_value)]: [KeyFilterDict.get] and
    [RepoKeyFilter.get]. *)
Definition KeyFilterDict_get (self : ref) (key : string) (default_value : option ref)
  : StateErr heap (option ref) :=
  fun h => match KeyFilterDict_getitem self key h with
           | (Ok child, h') => (Ok (Some child), h')
           | (Raise (KeyError _), h') => (Ok default_value, h')
           | (Raise e, h') => (Raise e, h')
           end.

(** [RichDict.ensure_child_type]. *)
Definition ensure_child_type (self_obj : obj) (value : ref) : StateErr heap unit :=
  v <-- deref value ;;
  match self_obj, v with
  | DatasetKeyFilter _ _, UserStringKeyFilter _ _ => ret tt
  | RepoKeyFilter _ _ _, DatasetKeyFilter _ _ => ret tt
  | _, _ => raise TypeError
  end.

(** [self[key] = value]: [KeyFilterDict.__setitem__] over
    [RichDict.__setitem__], and [RepoKeyFilter.__setitem__]. *)
Definition KeyFilterDict_setitem (self : ref) (key : string) (value : ref)
  : StateErr heap unit :=
  o <-- deref self ;;
  match o with
  | DatasetKeyFilter data match_all =>
      if negb match_all then
        ensure_child_type o value ;;;
        modify (insert self (DatasetKeyFilter (<[key := value]> data) match_all))
      else ret tt
  | RepoKeyFilter data match_all globs =>
      if match_all then ret tt
      else
        let is_glob := str_contains "*" key in
        let key := if is_glob then escape_glob key else key in
        let globs := if is_glob
                     then match List.find (fun g => String.eqb g.1 key) globs with
                          | Some _ =>
                              map (fun g => if String.eqb g.1 key then (key, value) else g)
                                  globs
                          | None => (globs ++ [(key, value)])%list
                          end
                     else globs in
        let o' := RepoKeyFilter data match_all globs in
        modify (insert self o') ;;;
        ensure_child_type o' value ;;;
        modify (insert self (RepoKeyFilter (<[key := value]> data) match_all globs))
  | _ => raise TypeError
  end.

(** [RepoKeyFilter.datasets]: a filter that matches all of each of the
    given datasets. *)
Definition RepoKeyFilter_datasets (dataset_paths : list string) : StateErr heap ref :=
  result <-- new_object (RepoKeyFilter ∅ false []) ;;
  for_each dataset_paths (fun dataset_path =>
    KeyFilterDict_setitem result dataset_path DatasetKeyFilter_MATCH_ALL) ;;;
  ret result.

(** The operations on filters, for sequences of them. *)
Inductive op : Type :=
  | OpNewUserStringKeyFilter
  | OpNewDatasetKeyFilter
  | OpNewRepoKeyFilter
  | OpContains (self : ref) (key : user_key)
  | OpAdd (self : ref) (key : string)
  | OpDictContains (self : ref) (key : string)
  | OpGetitem (self : ref) (key : string)
  | OpGet (self : ref) (key : string) (default_value : option ref)
  | OpSetitem (self : ref) (key : string) (value : ref).

Definition ignore {A} (m : StateErr heap A) : StateErr heap unit := m ;;; ret tt.

Definition run_op (o : op) : StateErr heap unit :=
  match o with
  | OpNewUserStringKeyFilter => ignore (new_object (UserStringKeyFilter ∅ false))
  | OpNewDatasetKeyFilter => ignore (new_object (DatasetKeyFilter ∅ false))
  | OpNewRepoKeyFilter => ignore (new_object (RepoKeyFilter ∅ false []))
  | OpContains self key => ignore (UserStringKeyFilter_contains self key)
  | OpAdd self key => UserStringKeyFilter_add self key
  | OpDictContains self key => ignore (KeyFilterDict_contains self key)
  | OpGetitem self key => ignore (KeyFilterDict_getitem self key)
  | OpGet self key default_value => ignore (KeyFilterDict_get self key default_value)
  | OpSetitem self key value => KeyFilterDict_setitem self key value
  end.

(** The heap after a sequence of operations, each run whether or not the
    ones before it raised. *)
Definition run_ops (ops : list op) (h : heap) : heap :=
  foldl (fun h o => snd (run_op o h)) h ops.

(** Every object that matches all is the same in [h'] as in [h]. *)
Definition frozen (h h' : heap) : Prop :=
  forall r o, h !! r = Some o -> match_all_of o = true -> h' !! r = Some o.

(** *** User patterns *)

(** [s.startswith(prefix)]: what follows the prefix, if [s] starts with it. *)
Fixpoint strip_prefix (prefix s : string) : option string :=
  match prefix, s with
  | EmptyString, _ => Some s
  | String a prefix, String b s => if Ascii.eqb a b then strip_prefix prefix s else None
  | String _ _, EmptyString => None
  end.

Definition startswith (s prefix : string) : bool :=
  match strip_prefix prefix s with
  | Some _ => true
  | None => false
  end.

(** [s.endswith(char)] for a one-character [char]. *)
Fixpoint endswith (s : string) (char : ascii) : bool :=
  match s with
  | EmptyString => false
  | String c EmptyString => Ascii.eqb c char
  | String _ rest => endswith rest char
  end.

(** [sub in s] for strings. *)
Fixpoint str_in (sub s : string) : bool :=
  startswith s sub
  || match s with
     | EmptyString => false
     | String _ rest => str_in sub rest
     end.

(** The longest prefix of characters that satisfy [p], and what follows. *)
Fixpoint span (p : ascii -> bool) (s : string) : string * string :=
  match s with
  | EmptyString => (EmptyString, EmptyString)
  | String c rest =>
      if p c then let '(taken, after) := span p rest in (String c taken, after)
      else (EmptyString, s)
  end.

(** Every character of [s] satisfies [p]. *)
Fixpoint all_chars (p : ascii -> bool) (s : string) : bool :=
  match s with
  | EmptyString => true
  | String c rest => p c && all_chars p rest
  end.

(** A character of the class of [FILTER_PATTERN]: any but the colon, the
    angle brackets, the double quote, the bar, the question mark and the
    control characters 0 to 31. *)
Definition dataset_glob_char (c : ascii) : bool :=
  negb (Ascii.eqb c ":" || Ascii.eqb c "<" || Ascii.eqb c ">"
        || Ascii.eqb c (ascii_of_nat 34) || Ascii.eqb c "|" || Ascii.eqb c "?"
        || (N_of_ascii c <=? 31)%N).

(** What [.] matches: any character but the newline. *)
Definition dot_char (c : ascii) : bool := negb (Ascii.eqb c (ascii_of_nat 10)).

(** [FILTER_PATTERN.match(user_pattern)]: the groups [dataset_glob],
    [subdataset] and [rest] of the match at the start of the string.  The
    first group takes the longest run of its characters; the two optional
    groups are taken when they match, and what follows them is not looked
    at. *)
Definition FILTER_PATTERN_match (user_pattern : string)
  : option (string * option string * option string) :=
  let '(dataset_glob, after_glob) := span dataset_glob_char user_pattern in
  match dataset_glob with
  | EmptyString => None
  | String _ _ =>
      let '(subdataset, after_sub) :=
        match strip_prefix ":feature" after_glob with
        | Some s => (Some "feature"%string, s)
        | None =>
            match strip_prefix ":meta" after_glob with
            | Some s => (Some "meta"%string, s)
            | None =>
                match strip_prefix ":tile" after_glob with
                | Some s => (Some "tile"%string, s)
                | None => (None, after_glob)
                end
            end
        end in
      let rest := match after_sub with
                  | String ":" s => Some (fst (span dot_char s))
                  | _ => None
                  end in
      Some (dataset_glob, subdataset, rest)
  end.

(** The dataset globs that [_parse_user_pattern] turns down. *)
Definition bad_dataset_glob (dataset_glob : string) : bool :=
  (startswith dataset_glob "/" || startswith dataset_glob ".")
  || (endswith dataset_glob "/" || endswith dataset_glob ".")
  || str_in "./" dataset_glob
  || str_in "/." dataset_glob.

Arguments bad_dataset_glob : simpl never.

Section UserPatterns.
(** [repr] of a string, for the message of the error. *)
Variable repr : string -> string.

(** [RepoKeyFilter._bad_pattern]. *)
Definition _bad_pattern (user_pattern : string) : exn :=
  UsageError
    ("Invalid filter format, should be '<dataset>' or '<dataset>:<primary_key>': got "
     ++ repr user_pattern).

(** [RepoKeyFilter._parse_user_pattern]. *)
Definition _parse_user_pattern (user_pattern : string)
  : result (string * option string * option string) :=
  match FILTER_PATTERN_match user_pattern with
  | None => Raise (_bad_pattern user_pattern)
  | Some (dataset_glob, subdataset, rest) =>
      if bad_dataset_glob dataset_glob then Raise (_bad_pattern user_pattern)
      else
        let subdataset :=
          match subdataset with
          | Some (String a s) => Some (String a s)
          | _ => if Merge.truthy rest then Some "feature"%string else None
          end in
        Ok (dataset_glob, subdataset, if Merge.truthy rest then rest else None)
  end.

(** [bool(self)] for the dict filters: [KeyFilterDict.__bool__]. *)
Definition KeyFilterDict_bool (self : ref) : StateErr heap bool :=
  o <-- deref self ;;
  match o with
  | DatasetKeyFilter data match_all => ret (match_all || negb (size data =? 0)%nat)
  | RepoKeyFilter data match_all _ => ret (match_all || negb (size data =? 0)%nat)
  | _ => raise TypeError
  end.

(** [ds_filter[subdataset].add(rest)].  When [rest] is [None], it is [None]
    that is added to a set that does not match all: the sets of the model
    hold the strings, which are all that [in] compares a key with. *)
Definition UserStringKeyFilter_add_rest (self : ref) (rest : option string)
  : StateErr heap unit :=
  match rest with
  | Some rest => UserStringKeyFilter_add self rest
  | None =>
      o <-- deref self ;;
      match o with
      | UserStringKeyFilter _ _ => ret tt
      | _ => raise TypeError
      end
  end.

(** [RepoKeyFilter.add_user_pattern]. *)
Definition add_user_pattern (self : ref) (user_pattern : string) : StateErr heap unit :=
  parsed <-- call (fun _ => _parse_user_pattern user_pattern) ;;
  let '(dataset_glob, subdataset, rest) := parsed in
  match subdataset with
  | None => KeyFilterDict_setitem self dataset_glob DatasetKeyFilter_MATCH_ALL
  | Some subdataset =>
      ds_filter <-- KeyFilterDict_get self dataset_glob None ;;
      is_there <-- match ds_filter with
                   | Some ds_filter => KeyFilterDict_bool ds_filter
                   | None => ret false
                   end ;;
      ds_filter <--
        match ds_filter, is_there with
        | Some ds_filter, true => ret ds_filter
        | _, _ =>
            ds_filter <-- new_object (DatasetKeyFilter ∅ false) ;;
            (if Merge.truthy rest then
               child <-- new_object (UserStringKeyFilter ∅ false) ;;
               KeyFilterDict_setitem ds_filter subdataset child
             else
               KeyFilterDict_setitem ds_filter subdataset UserStringKeyFilter_MATCH_ALL) ;;;
            KeyFilterDict_setitem self dataset_glob ds_filter ;;;
            ret ds_filter
        end ;;
      child <-- KeyFilterDict_getitem ds_filter subdataset ;;
      UserStringKeyFilter_add_rest child rest
  end.

(** [RepoKeyFilter.build_from_user_patterns]. *)
Definition build_from_user_patterns (user_patterns : list string) : StateErr heap ref :=
  filter <-- new_object (RepoKeyFilter ∅ false []) ;;
  for_each user_patterns (add_user_pattern filter) ;;;
  is_there <-- KeyFilterDict_bool filter ;;
  ret (if is_there : bool then filter else RepoKeyFilter_MATCH_ALL).

End UserPatterns.

(** The heap after the first pattern [d:sub:rest] for a dataset [d]: a
    new dataset filter [f] with the one part [sub], which is a new set [c]
    with the one string [rest]. *)
Definition with_new_part (h : heap) (self : ref) (data : gmap string ref)
    (d sub rest : string) : heap :=
  let f := fresh (dom h) in
  let h1 := <[f := DatasetKeyFilter ∅ false]> h in
  let c := fresh (dom h1) in
  <[c := UserStringKeyFilter {[rest]} false]>
    (<[self := RepoKeyFilter (<[d := f]> data) false []]>
      (<[f := DatasetKeyFilter {[sub := c]} false]>
        (<[c := UserStringKeyFilter ∅ false]> h1))).

(** [RepoKeyFilter._dataset_glob_pattern_matching_key] as a truth value:
    the pattern found, unless it is the empty string. *)
Definition glob_matches_key (globs : list (string * ref)) (key : string) : bool :=
  match _dataset_glob_pattern_matching_key globs key with
  | Some (String _ _, _) => true
  | _ => false
  end.

(** [RepoKeyFilter.filter_keys].  In [keys & self.keys()] the set does
    not know the keys view and hands over to it ([Set.__rand__]): the
    view keeps the given keys that are [in] the filter, which it asks
    through [RepoKeyFilter.__contains__]. *)
Definition filter_keys (self : ref) (keys : gset string) : StateErr heap (gset string) :=
  fun h =>
    match h !! self with
    | Some (RepoKeyFilter data match_all globs) =>
        let matched_keys :=
          filter (fun k => match fst (KeyFilterDict_contains self k h) with
                           | Ok true => true
                           | _ => false
                           end = true) keys in
        (Ok (matched_keys
             ∪ filter (fun k => glob_matches_key globs k = true) (keys ∖ matched_keys)),
         h)
    | _ => (Raise TypeError, h)
    end.

(** [NegateKeyFilter]: the filter it delegates to. *)
Record NegateKeyFilter : Type := mkNegateKeyFilter { delegate : ref }.

(** [NegateKeyFilter.__contains__]. *)
Definition NegateKeyFilter_contains (self : NegateKeyFilter) (key : string)
  : StateErr heap bool :=
  b <-- KeyFilterDict_contains (delegate self) key ;;
  ret (negb b).

(** [RepoKeyFilter.exclude_datasets]. *)
Definition exclude_datasets (dataset_paths : list string) : StateErr heap NegateKeyFilter :=
  filter <-- RepoKeyFilter_datasets dataset_paths ;;
  ret {| delegate := filter |}.

(** *** [DeltaFilter] *)

(** A set of the keys [--], [-], [+], [++], or the filter that matches all. *)
Record DeltaFilter : Type := mkDeltaFilter {
  delta_filter_elems : gset string;
  delta_filter_match_all : bool
}.

(** [DeltaFilter.__contains__]. *)
Definition DeltaFilter_contains (self : DeltaFilter) (key : string) : bool :=
  delta_filter_match_all self || bool_decide (key ∈ delta_filter_elems self).

Definition DeltaFilter_MATCH_ALL : DeltaFilter :=
  {| delta_filter_elems := ∅; delta_filter_match_all := true |}.

End KeyFilters.

(** ** kart/diff_structs.py: the dicts of deltas

    A Python dict is modelled by the [gmap] of its items.  Where the code
    loops over a dict or over a set of keys, the function takes the list
    that the loop runs through, in the order Python takes it: the theorems
    hold for every enumeration. *)

Module Diffs.
Import DiffStructs KeyFilters.

Definition RuntimeError (msg : string) : exn := OtherError ("RuntimeError: " ++ msg).

Definition type_name (t : delta_type) : string :=
  match t with
  | insert => "insert"
  | update => "update"
  | delete => "delete"
  end.

Section DeltaDiff.
(** Keys other than [None], and values. *)
Context {K V : Type} `{Countable K} `{EqDecision V}.

(** [KeyValue.of] on a tuple [(key, value)] whose value is not callable. *)
Definition KeyValue_of (k : K) (v : V) : KeyValue K V :=
  {| key := k; value := Immediate v; _cached_value := None |}.

(** [Delta.key]. *)
Definition Delta_key (self : Delta K V) : option K :=
  match old_key self with
  | Some k => Some k
  | None => new_key self
  end.

(** [Delta.is_rename]. *)
Definition is_rename (self : Delta K V) : bool :=
  bool_decide (type self = update)
  && negb (bool_decide (old_key self = new_key self)).

(** [Delta.to_plus_minus_dict__simple]. *)
Definition to_plus_minus_dict__simple (self : Delta K V) (minimal : bool)
  : gmap string V :=
  match minimal, old self, new_value self with
  | true, Some _, Some new_value => {[ "*" := new_value ]}
  | _, _, _ =>
      let d : gmap string V := ∅ in
      let d := match old_value self with
               | Some old_value => <["-" := old_value]> d
               | None => d
               end in
      match new_value self with
      | Some new_value => <["+" := new_value]> d
      | None => d
      end
  end.

(** [Delta.to_plus_minus_dict__advanced]: a value that the filter leaves
    out is [None] in the dict. *)
Definition to_plus_minus_dict__advanced (self : Delta K V)
    (delta_filter : option DeltaFilter) : gmap string (option V) :=
  let delta_filter := default DeltaFilter_MATCH_ALL delta_filter in
  let d : gmap string (option V) := ∅ in
  match old self, new self with
  | Some _, Some _ =>
      let d :=
        <["-" := if DeltaFilter_contains delta_filter "-"
                 then old_value self else None]> d in
      <["+" := if DeltaFilter_contains delta_filter "+"
               then new_value self else None]> d
  | Some _, None =>
      <["--" := if DeltaFilter_contains delta_filter "--"
                then old_value self else None]> d
  | None, Some _ =>
      <["++" := if DeltaFilter_contains delta_filter "++"
                then new_value self else None]> d
  | None, None => d
  end.

(** [Delta.from_key_and_plus_minus_dict]. *)
Definition from_key_and_plus_minus_dict (key : K) (d : gmap string V)
  : result (Delta K V) :=
  if bool_decide (is_Some (d !! "--")) then
    match d !! "++" with
    | Some v => Delta_delete (Some (KeyValue_of key v))
    | None => Raise (KeyError "++")
    end
  else
    match d !! "++" with
    | Some v => Delta_insert (Some (KeyValue_of key v))
    | None =>
        Delta_init (KeyValue_of key <$> d !! "-") (KeyValue_of key <$> d !! "+")
    end.

(** A [DeltaDiff]: the deltas by the key they are stored at; the key
    [None] is Python's [None]. *)
Abbreviation DeltaDiff := (gmap (option K) (Delta K V)).

(** [DeltaDiff.__setitem__]. *)
Definition DeltaDiff_setitem (key : option K) (delta : Delta K V) (self : DeltaDiff)
  : result DeltaDiff :=
  if decide (key = Delta_key delta) then Ok (<[key := delta]> self)
  else Raise (ValueError "Delta must be added at the appropriate key").

(** [DeltaDiff.add_delta]. *)
Definition add_delta (delta : Delta K V) (self : DeltaDiff) : DeltaDiff :=
  <[Delta_key delta := delta]> self.

(** [DeltaDiff.__init__] on an iterable of deltas: [UserDict.__init__]
    stores each pair [(delta.key, delta)] with [self[key] = delta]. *)
Fixpoint DeltaDiff_update (initial_contents : gen (Delta K V)) (self : DeltaDiff)
  : result DeltaDiff :=
  match initial_contents with
  | GenEnd => Ok self
  | GenRaise e => Raise e
  | GenYield delta rest =>
      self ← DeltaDiff_setitem (Delta_key delta) delta self;
      DeltaDiff_update rest self
  end.

Definition DeltaDiff_init (initial_contents : gen (Delta K V)) : result DeltaDiff :=
  DeltaDiff_update initial_contents ∅.

(** [DeltaDiff.__invert__]; [items] is [self.items()]. *)
Definition DeltaDiff_invert (items : list (option K * Delta K V)) : result DeltaDiff :=
  foldl (fun inverse item =>
           inverse ← inverse;
           inverted ← Delta_invert item.2;
           Ok (add_delta inverted inverse))
        (Ok ∅) items.

(** The body of the loop of [Diff.__add__], for two [DeltaDiff]s; [sum]
    is the result so far. *)
Definition Diff_add_key (self other : DeltaDiff) (sum : DeltaDiff) (key : option K)
  : result DeltaDiff :=
  match self !! key, other !! key with
  | Some lhs, Some rhs =>
      both ← Delta_add lhs rhs;
      match both with
      | Some both => DeltaDiff_setitem key both sum
      | None => Ok (base.delete key sum)
      end
  | Some lhs, None => DeltaDiff_setitem key lhs sum
  | None, Some rhs => DeltaDiff_setitem key rhs sum
  | None, None => Raise AttributeError
  end.

(** [Diff.__add__] for two [DeltaDiff]s; [keys] is the set
    [self.keys() | other.keys()]. *)
Definition Diff_add (keys : list (option K)) (self other : DeltaDiff)
  : result DeltaDiff :=
  foldl (fun sum key => sum ← sum; Diff_add_key self other sum key) (Ok ∅) keys.

(** The body of the loop of [Diff.__iadd__], for two [DeltaDiff]s. *)
Definition Diff_iadd_key (other : DeltaDiff) (key : option K)
  : StateErr DeltaDiff unit :=
  fun self =>
    match self !! key, other !! key with
    | _, None => (Raise (KeyError "other[key]"), self)
    | Some lhs, Some rhs =>
        match Delta_add lhs rhs with
        | Ok (Some both) =>
            match DeltaDiff_setitem key both self with
            | Ok self' => (Ok tt, self')
            | Raise e => (Raise e, self)
            end
        | Ok None => (Ok tt, base.delete key self)
        | Raise e => (Raise e, self)
        end
    | None, Some rhs =>
        match DeltaDiff_setitem key rhs self with
        | Ok self' => (Ok tt, self')
        | Raise e => (Raise e, self)
        end
    end.

(** [Diff.__iadd__] for two [DeltaDiff]s, on the object [self] that it
    changes in place; [keys] is [other.keys()]. *)
Definition Diff_iadd (keys : list (option K)) (other : DeltaDiff)
  : StateErr DeltaDiff unit :=
  for_each keys (Diff_iadd_key other).

(** [DeltaDiff.type_counts]; [values] is [self.values()]. *)
Definition type_counts (values : list (Delta K V)) : gmap string nat :=
  let counts :=
    foldl (fun counts delta =>
             let delta_type := type_name (type delta) in
             let counts := match counts !! delta_type with
                           | Some _ => counts
                           | None => <[delta_type := 0]> counts
                           end in
             <[delta_type := S (default 0 (counts !! delta_type))]> counts)
          (∅ : gmap string nat) values in
  kmap (fun delta_type => delta_type ++ "s") counts.

(** One step of [DeltaDiff.diff_dicts_as_deltas]: the delta for the key
    [k], if the values differ.  A value [None] in a dict is as good as no
    value, so the dicts hold values other than [None]. *)
Definition diff_dicts_delta (old new : gmap K V) (delta_flags : Z) (k : K)
  : result (option (Delta K V)) :=
  let old_value := old !! k in
  let new_value := new !! k in
  if decide (old_value = new_value) then Ok None
  else
    delta ← Delta_init (KeyValue_of k <$> old_value) (KeyValue_of k <$> new_value);
    Ok (Some (set_flags delta_flags delta)).

(** [DeltaDiff.diff_dicts_as_deltas]; [keys] is the set [set(old) | set(new)]. *)
Fixpoint diff_dicts_as_deltas (keys : list K) (old new : gmap K V) (delta_flags : Z)
  : gen (Delta K V) :=
  match keys with
  | [] => GenEnd
  | k :: keys =>
      match diff_dicts_delta old new delta_flags k with
      | Ok None => diff_dicts_as_deltas keys old new delta_flags
      | Ok (Some delta) => GenYield delta (diff_dicts_as_deltas keys old new delta_flags)
      | Raise e => GenRaise e
      end
  end.

(** The loop [for delta in ...: result.add_delta(delta)]. *)
Fixpoint add_deltas (deltas : gen (Delta K V)) (self : DeltaDiff) : result DeltaDiff :=
  match deltas with
  | GenEnd => Ok self
  | GenRaise e => Raise e
  | GenYield delta rest => add_deltas rest (add_delta delta self)
  end.

(** [DeltaDiff.diff_dicts]. *)
Definition diff_dicts (keys : list K) (old new : gmap K V) (delta_flags : Z)
  : result DeltaDiff :=
  add_deltas (diff_dicts_as_deltas keys old new delta_flags) ∅.

(** [LazyDeltaDiff]: the wrapped iterator and the two flags. *)
Record LazyDeltaDiff : Type := mkLazyDeltaDiff {
  _wrapped_iter : gen (Delta K V);
  _bool : bool;
  _consumed : bool
}.

(** [LazyDeltaDiff.__init__]: the first item is taken to see whether
    there is one, and chained back in front. *)
Definition LazyDeltaDiff_init (initial_contents : gen (Delta K V))
  : result LazyDeltaDiff :=
  match initial_contents with
  | GenEnd => Ok {| _wrapped_iter := GenEnd; _bool := false; _consumed := false |}
  | GenRaise e => Raise e
  | GenYield first_item wrapped_iter =>
      Ok {| _wrapped_iter := GenYield first_item wrapped_iter;
            _bool := true; _consumed := false |}
  end.

(** [LazyDeltaDiff.__bool__]. *)
Definition LazyDeltaDiff_bool (self : LazyDeltaDiff) : bool := _bool self.

(** [LazyDeltaDiff._check_not_consumed]. *)
Definition _check_not_consumed : StateErr LazyDeltaDiff unit :=
  fun self =>
    if _consumed self
    then (Raise (RuntimeError "LazyDeltaDiff has already been consumed"), self)
    else (Ok tt, self).

(** The iterator is run through: nothing is left of it. *)
Definition consume : StateErr LazyDeltaDiff (gen (Delta K V)) :=
  fun self =>
    (Ok (_wrapped_iter self),
     {| _wrapped_iter := GenEnd; _bool := _bool self; _consumed := true |}).

(** The items that a generator of deltas gives, up to its end. *)
Fixpoint gen_items (deltas : gen (Delta K V))
  : result (list (option K * Delta K V)) :=
  match deltas with
  | GenEnd => Ok []
  | GenRaise e => Raise e
  | GenYield delta rest =>
      items ← gen_items rest; Ok ((Delta_key delta, delta) :: items)
  end.

(** [LazyDeltaDiff.items], driven to its end. *)
Definition LazyDeltaDiff_items : StateErr LazyDeltaDiff (list (option K * Delta K V)) :=
  (_check_not_consumed ;;;
   deltas <-- consume ;;
   call (fun _ => gen_items deltas))%staterr.

(** [LazyDeltaDiff.resolve]. *)
Definition LazyDeltaDiff_resolve : StateErr LazyDeltaDiff DeltaDiff :=
  (_check_not_consumed ;;;
   deltas <-- consume ;;
   call (fun _ => DeltaDiff_init deltas))%staterr.

(** [LazyDeltaDiff.__add__]; [keys] is [other.keys()]. *)
Definition LazyDeltaDiff_add (keys : list (option K)) (other : DeltaDiff)
  : StateErr LazyDeltaDiff DeltaDiff :=
  (resolved <-- LazyDeltaDiff_resolve ;;
   call (fun _ => match Diff_iadd keys other resolved with
                  | (Ok _, resolved) => Ok resolved
                  | (Raise e, _) => Raise e
                  end))%staterr.

(** Every delta is stored at its own key. *)
Definition keyed (self : DeltaDiff) : Prop :=
  map_Forall (fun key delta => Delta_key delta = key) self.

(** Every delta is as [Delta.__init__] leaves it. *)
Definition well_formed (self : DeltaDiff) : Prop :=
  map_Forall (fun _ delta => Delta_wf delta = true) self.

(** No delta moves its object to another key. *)
Definition no_renames (self : DeltaDiff) : Prop :=
  map_Forall (fun _ delta => is_rename delta = false) self.

(** The keys of a loop over [self.keys() | other.keys()], in some order. *)
Definition union_keys (keys : list (option K)) (self other : DeltaDiff) : Prop :=
  NoDup keys /\ (list_to_set keys : gset (option K)) = dom self ∪ dom other.

(** The keys of a loop over [self.keys()], in some order. *)
Definition dict_keys (keys : list (option K)) (self : DeltaDiff) : Prop :=
  NoDup keys /\ (list_to_set keys : gset (option K)) = dom self.

(** The items of a loop over [self.items()], in some order. *)
Definition dict_items (items : list (option K * Delta K V)) (self : DeltaDiff) : Prop :=
  items ≡ₚ map_to_list self.

(** The keys of a loop over [set(old) | set(new)], in some order. *)
Definition dicts_keys (keys : list K) (old new : gmap K V) : Prop :=
  dom old ∪ dom new ⊆ (list_to_set keys : gset K).

(** What the diff of two dicts holds for the key [k]: nothing where the
    dicts agree, else the insert, the delete or the update of the value. *)
Definition dict_delta (old new : gmap K V) (delta_flags : Z) (k : K)
  : option (Delta K V) :=
  match old !! k, new !! k with
  | None, None => None
  | None, Some v =>
      Some {| DiffStructs.old := None; DiffStructs.new := Some (KeyValue_of k v);
              type := insert; flags := delta_flags |}
  | Some v, None =>
      Some {| DiffStructs.old := Some (KeyValue_of k v); DiffStructs.new := None;
              type := delete; flags := delta_flags |}
  | Some v, Some w =>
      if decide (v = w) then None
      else Some {| DiffStructs.old := Some (KeyValue_of k v);
                   DiffStructs.new := Some (KeyValue_of k w);
                   type := update; flags := delta_flags |}
  end.

(** The pairs of types that [Delta.__add__] refuses. *)
Definition conflicting (a b : delta_type) : bool :=
  match a, b with
  | insert, insert | update, insert | delete, delete | delete, update => true
  | _, _ => false
  end.

(** A count as [type_counts] shows it: a type that does not occur has
    no entry. *)
Definition counted (n : nat) : option nat :=
  match n with
  | O => None
  | S _ => Some n
  end.

(** The body of the loop of [Diff.concatenated], on the object that
    [result] names, if it names one yet; a diff comes with the order of
    its [keys()].  The first diff becomes [result] itself, and the later
    ones are added to that object in place. *)
Definition concatenated_step (diff : option (list (option K) * DeltaDiff))
  : StateErr (option DeltaDiff) unit :=
  fun res =>
    match diff, res with
    | None, _ => (Ok tt, res)
    | Some (_, diff), None => (Ok tt, Some diff)
    | Some (keys, diff), Some self =>
        let '(r, self) := Diff_iadd keys diff self in (r, Some self)
    end.

(** [Diff.concatenated] for [DeltaDiff]s. *)
Definition Diff_concatenated (diffs : list (option (list (option K) * DeltaDiff)))
  : result DeltaDiff :=
  match for_each diffs concatenated_step None with
  | (Ok _, Some res) => Ok res
  | (Ok _, None) => Ok ∅
  | (Raise e, _) => Raise e
  end.

(** The diffs lead from the dict [old] to the dict [last] through a
    chain of dicts: each is the [diff_dicts] of one dict of the chain
    and the next, and comes with a valid order of its keys; [None]s may
    stand between them. *)
Fixpoint diffs_along (delta_flags : Z) (old : gmap K V)
    (diffs : list (option (list (option K) * DeltaDiff))) (last : gmap K V) : Prop :=
  match diffs with
  | [] => old = last
  | None :: diffs => diffs_along delta_flags old diffs last
  | Some (keys, diff) :: diffs =>
      dict_keys keys diff
      /\ exists ks new,
           dicts_keys ks old new
           /\ diff_dicts ks old new delta_flags = Ok diff
           /\ diffs_along delta_flags new diffs last
  end.

(** What [self + other] holds at [key]. *)
Definition Diff_add_cell (self other : DeltaDiff) (key : option K)
  : result (option (Delta K V)) :=
  match self !! key, other !! key with
  | Some lhs, Some rhs =>
      both ← Delta_add lhs rhs;
      match both with
      | Some both =>
          if decide (key = Delta_key both) then Ok (Some both)
          else Raise (ValueError "Delta must be added at the appropriate key")
      | None => Ok None
      end
  | Some delta, None | None, Some delta =>
      if decide (key = Delta_key delta) then Ok (Some delta)
      else Raise (ValueError "Delta must be added at the appropriate key")
  | None, None => Ok None
  end.

End DeltaDiff.

Arguments LazyDeltaDiff K V : clear implicits.

Abbreviation DeltaDiff K V := (gmap (option K) (Delta K V)).

End Diffs.

(** ** kart/point_cloud/v1.py: the paths of tiles *)

Module PointCloudV1.
Import KeyFilters.

(** [s.rsplit(sep, maxsplit=1)[-1]] for a one-character [sep]: what
    follows the last [sep], or all of [s] when it has none. *)
Fixpoint rsplit_last (s : string) (sep : ascii) : string :=
  match s with
  | EmptyString => EmptyString
  | String c rest =>
      if str_contains sep rest then rsplit_last rest sep
      else if Ascii.eqb c sep then rest
      else s
  end.

(** [s[0:2]]. *)
Definition first_two (s : string) : string :=
  match s with
  | String a (String b _) => String a (String b EmptyString)
  | _ => s
  end.

Section Paths.
(** What the class takes from modules that are not at hand:
    - [hexhash]: kart.serialise_util.hexhash;
    - [ensure_full_path], [ensure_rel_path], [super_decode_path]: the
      methods of BaseDataset, the last with whatever it returns. *)
Variable hexhash : string -> string.
Variable ensure_full_path : string -> string.
Variable ensure_rel_path : string -> string.
Context {Decoded : Type}.
Variable super_decode_path : string -> Decoded.

(** [PointCloudV1.encode_tile_path]. *)
Definition encode_tile_path (tilename : string) (relative : bool) : string :=
  let tile_prefix := first_two (hexhash tilename) in
  let rel_path := "tile/" ++ tile_prefix ++ "/" ++ tilename in
  if relative then rel_path else ensure_full_path rel_path.

(** [PointCloudV1.decode_tile_path]. *)
Definition decode_tile_path (tile_path : string) : string :=
  rsplit_last tile_path "/".

(** [PointCloudV1.decode_path]: the pair [("tile", tilename)], or what
    the method of the base class returns. *)
Definition decode_path (path : string) : (string * string) + Decoded :=
  let rel_path := ensure_rel_path path in
  if startswith rel_path "tile/"
  then inl ("tile", decode_tile_path rel_path)
  else inr (super_decode_path rel_path).

End Paths.

End PointCloudV1.

(** ** kart/sqlalchemy/adapter/postgis.py: the types of columns *)

Module Postgis.
Import KeyFilters.

(** The values found in the [extra_type_info] of a column and in the
    rows read from the database: [None], an integer or a string. *)
Inductive pyval : Type :=
  | PNone
  | PInt (n : Z)
  | PStr (s : string).

#[global] Instance pyval_eq_dec : EqDecision pyval.
Proof. solve_decision. Defined.

(** [str(x)], as an f-string formats the value. *)
Definition format (x : pyval) : string :=
  match x with
  | PNone => "None"
  | PInt n => pretty n
  | PStr s => s
  end.

(** A value of [V2_TYPE_TO_SQL_TYPE]: a type name, or a dict from the
    size to the type name. *)
Inductive sql_type_info : Type :=
  | SqlType (name : string)
  | SqlTypeBySize (sizes : gmap Z string).

(** A value of [SQL_TYPE_TO_V2_TYPE]: a type name, or a tuple of the
    type name and the size. *)
Inductive v2_type_info : Type :=
  | V2Type (name : string)
  | V2TypeSize (name : string) (size : Z).

Definition V2_TYPE_TO_SQL_TYPE : gmap string sql_type_info :=
  list_to_map
    [ ("boolean", SqlType "BOOLEAN");
      ("blob", SqlType "BYTEA");
      ("date", SqlType "DATE");
      ("float", SqlTypeBySize
                  (list_to_map [(0, "REAL"); (32, "REAL"); (64, "DOUBLE PRECISION")]%Z));
      ("geometry", SqlType "GEOMETRY");
      ("integer", SqlTypeBySize
                    (list_to_map [(0, "INTEGER"); (8, "SMALLINT"); (16, "SMALLINT");
                                  (32, "INTEGER"); (64, "BIGINT")]%Z));
      ("interval", SqlType "INTERVAL");
      ("numeric", SqlType "NUMERIC");
      ("text", SqlType "TEXT");
      ("time", SqlType "TIME");
      ("timestamp", SqlType "TIMESTAMPTZ") ].

Definition SQL_TYPE_TO_V2_TYPE : gmap string v2_type_info :=
  list_to_map
    [ ("BOOLEAN", V2Type "boolean");
      ("SMALLINT", V2TypeSize "integer" 16);
      ("INTEGER", V2TypeSize "integer" 32);
      ("BIGINT", V2TypeSize "integer" 64);
      ("REAL", V2TypeSize "float" 32);
      ("DOUBLE PRECISION", V2TypeSize "float" 64);
      ("BYTEA", V2Type "blob");
      ("CHARACTER VARYING", V2Type "text");
      ("DATE", V2Type "date");
      ("GEOMETRY", V2Type "geometry");
      ("INTERVAL", V2Type "interval");
      ("NUMERIC", V2Type "numeric");
      ("TEXT", V2Type "text");
      ("TIME", V2Type "time");
      ("TIMETZ", V2Type "time");
      ("TIMESTAMP", V2Type "timestamp");
      ("TIMESTAMPTZ", V2Type "timestamp");
      ("VARCHAR", V2Type "text") ].

(** Types that do not come back the same from PostGIS. *)
Definition APPROXIMATED_TYPES : gmap (string * Z) (string * Z) :=
  {[ ("integer", 8%Z) := ("integer", 16%Z) ]}.

(** What the code reads of a [ColumnSchema] (kart.schema). *)
Record ColumnSchema : Type := mkColumnSchema {
  data_type : string;
  extra_type_info : gmap string pyval
}.

(** A row of the query on information_schema.columns, and a row of
    spatial_ref_sys; a column that is NULL is [None]. *)
Module PgCol.
Record pg_col_info : Type := mk {
  column_name : string;
  pk_ordinal_position : option Z;
  data_type : string;
  udt_name : string;
  character_maximum_length : option Z;
  numeric_precision : option Z;
  numeric_scale : option Z;
  geometry_type : option string;
  geometry_srid : option Z
}.
End PgCol.

Record crs_info : Type := mkCrsInfo {
  srid : Z;
  srtext : string
}.

(** [s.endswith(suffix)]. *)
Fixpoint str_endswith (s suffix : string) : bool :=
  String.eqb s suffix
  || match s with
     | EmptyString => false
     | String _ rest => str_endswith rest suffix
     end.

(** [s[:-1]]. *)
Fixpoint drop_last (s : string) : string :=
  match s with
  | EmptyString => EmptyString
  | String _ EmptyString => EmptyString
  | String c rest => String c (drop_last rest)
  end.

(** [x or None] for an integer column: zero counts as absent. *)
Definition or_None (x : option Z) : pyval :=
  match x with
  | Some n => if decide (n = 0%Z) then PNone else PInt n
  | None => PNone
  end.

(** [d.get(key)] and [d.get(key, default)] on the dict of a column. *)
Definition dict_get (d : gmap string pyval) (key : string) (dflt : pyval) : pyval :=
  default dflt (d !! key).

Section Adapter.
(** What the adapter takes from elsewhere:
    - [upper], [strip]: [str.upper] and [str.strip] of Python;
    - [get_identifier_int_from_dataset]: of kart.crs_util, for the
      dataset at hand;
    - [get_identifier_str]: of kart.crs_util. *)
Variable upper : string -> string.
Variable strip : string -> string.
Variable get_identifier_int_from_dataset : pyval -> result pyval.
Variable get_identifier_str : string -> string.

(** [KartAdapter_Postgis._v2_geometry_type_to_pg_type]. *)
Definition _v2_geometry_type_to_pg_type (geometry_type crs_id : pyval)
  : result string :=
  geometry_type ← match geometry_type with
                  | PNone => Ok PNone
                  | PStr s => Ok (PStr (str_replace " " EmptyString s))
                  | PInt _ => Raise AttributeError
                  end;
  if negb (bool_decide (geometry_type = PNone)) && negb (bool_decide (crs_id = PNone))
  then Ok ("GEOMETRY(" ++ format geometry_type ++ "," ++ format crs_id ++ ")")
  else if negb (bool_decide (geometry_type = PNone))
  then Ok ("GEOMETRY(" ++ format geometry_type ++ ")")
  else Ok "GEOMETRY".

(** [KartAdapter_Postgis.v2_type_to_pg_type]; the result is [None]
    where the Python method returns [None]. *)
Definition v2_type_to_pg_type (column_schema : ColumnSchema) : result (option string) :=
  let v2_type := data_type column_schema in
  let extra_type_info := extra_type_info column_schema in
  match V2_TYPE_TO_SQL_TYPE !! v2_type with
  | None => Raise (ValueError ("Unrecognised data type: " ++ v2_type))
  | Some (SqlTypeBySize pg_type_info) =>
      Ok (match dict_get extra_type_info "size" (PInt 0) with
          | PInt size => pg_type_info !! size
          | _ => None
          end)
  | Some (SqlType pg_type) =>
      if decide (pg_type = "GEOMETRY") then
        let geometry_type := dict_get extra_type_info "geometryType" PNone in
        let crs_name := dict_get extra_type_info "geometryCRS" PNone in
        crs_id ← (if decide (crs_name = PNone) then Ok PNone
                  else get_identifier_int_from_dataset crs_name);
        Some <$> _v2_geometry_type_to_pg_type geometry_type crs_id
      else if decide (pg_type = "TEXT") then
        let length := dict_get extra_type_info "length" PNone in
        Ok (Some (if decide (length = PNone) then "TEXT"
                  else "VARCHAR(" ++ format length ++ ")"))
      else if decide (pg_type = "NUMERIC") then
        let precision := dict_get extra_type_info "precision" PNone in
        let scale := dict_get extra_type_info "scale" PNone in
        Ok (Some (if negb (bool_decide (precision = PNone))
                     && negb (bool_decide (scale = PNone))
                  then "NUMERIC(" ++ format precision ++ "," ++ format scale ++ ")"
                  else if negb (bool_decide (precision = PNone))
                  then "NUMERIC(" ++ format precision ++ ")"
                  else "NUMERIC"))
      else Ok (Some pg_type)
  end.

(** [KartAdapter_Postgis._pop_suffix]. *)
Definition _pop_suffix (geometry_type suffix : string) : string * string :=
  if str_endswith geometry_type suffix
  then (drop_last geometry_type, suffix)
  else (geometry_type, EmptyString).

(** [KartAdapter_Postgis._pg_type_to_v2_geometry_type]. *)
Definition _pg_type_to_v2_geometry_type (pg_col_info : PgCol.pg_col_info)
    (pg_spatial_ref_sys : list crs_info)
  : result (option string * gmap string pyval) :=
  match PgCol.geometry_type pg_col_info with
  | None => Raise AttributeError
  | Some geometry_type =>
      let geometry_type := upper geometry_type in
      let '(geometry_type, m) := _pop_suffix geometry_type "M" in
      let '(geometry_type, z) := _pop_suffix geometry_type "Z" in
      let geometry_type := strip (geometry_type ++ " " ++ z ++ m) in
      let geometry_crs :=
        match or_None (PgCol.geometry_srid pg_col_info) with
        | PInt crs_id =>
            match List.find (fun r => bool_decide (srid r = crs_id)) pg_spatial_ref_sys with
            | Some crs_info => PStr (get_identifier_str (srtext crs_info))
            | None => PNone
            end
        | _ => PNone
        end in
      Ok (Some "geometry",
          {[ "geometryType" := PStr geometry_type; "geometryCRS" := geometry_crs ]})
  end.

(** [KartAdapter_Postgis._pg_type_to_v2_type]; the type is [None] when
    neither name of the column type is in the table. *)
Definition _pg_type_to_v2_type (pg_col_info : PgCol.pg_col_info)
    (pg_spatial_ref_sys : list crs_info)
  : result (option string * gmap string pyval) :=
  let pg_type := upper (PgCol.data_type pg_col_info) in
  let v2_type_info :=
    match SQL_TYPE_TO_V2_TYPE !! pg_type with
    | Some info => Some info
    | None => SQL_TYPE_TO_V2_TYPE !! upper (PgCol.udt_name pg_col_info)
    end in
  let '(v2_type, extra_type_info) :=
    match v2_type_info with
    | Some (V2TypeSize name size) => (Some name, {[ "size" := PInt size ]})
    | Some (V2Type name) => (Some name, ∅)
    | None => (None, ∅)
    end in
  if decide (v2_type = Some "geometry") then
    _pg_type_to_v2_geometry_type pg_col_info pg_spatial_ref_sys
  else
    let extra_type_info :=
      if decide (v2_type = Some "text") then
        match or_None (PgCol.character_maximum_length pg_col_info) with
        | PNone => extra_type_info
        | length => <["length" := length]> extra_type_info
        end
      else extra_type_info in
    let extra_type_info :=
      if decide (v2_type = Some "numeric") then
        <["scale" := or_None (PgCol.numeric_scale pg_col_info)]>
          (<["precision" := or_None (PgCol.numeric_precision pg_col_info)]>
             extra_type_info)
      else extra_type_info in
    Ok (v2_type, extra_type_info).

(** [KartAdapter_Postgis._dimension_count]. *)
Definition _dimension_count (geometry_type : string) : nat :=
  let '(geometry_type, m) := _pop_suffix geometry_type "M" in
  let '(geometry_type, z) := _pop_suffix geometry_type "Z" in
  String.length ("XY" ++ z ++ m).

End Adapter.

(** The size of a sized type as a column of PostGIS gives it back: 32
    for the size 0, and the approximation where there is one. *)
Definition size_read_back (v2_type : string) (size : Z) : Z :=
  if decide (size = 0%Z) then 32%Z
  else (default (v2_type, size) (APPROXIMATED_TYPES !! (v2_type, size))).2.

End Postgis.

(** ** kart/resolve.py *)

Module Resolve.
Import Repo Merge KeyFilters.
Local Open Scope staterr_scope.

(** The choices of [--with]. *)
Inductive with_version_t : Type :=
  | with_ancestor
  | with_ours
  | with_theirs
  | with_delete
  | with_workingcopy.

(** A conflict: the entries of the ancestor, of ours and of theirs,
    each of which may be missing. *)
Abbreviation conflict3_t := (option oid * option oid * option oid)%type.

(** Modelled from the spec, as [MergedIndex] is: a resolution is stored
    under the key of its conflict (section 4.5), and the merge index is
    written to the file it is read from. *)
Definition add_resolve (key : string) (res : list oid) (m : MergedIndex) : MergedIndex :=
  {| entries := entries m; conflicts := conflicts m;
     resolves := <[key := res]> (resolves m) |}.

Definition MergedIndex_write_to_repo (m : MergedIndex) : StateErr KartRepo unit :=
  modify (set_gitdir (<[KartRepoFiles.MERGED_INDEX := Index m]>)).

(** [getattr(conflict3, with_version)] for the three versions. *)
Definition version_of (with_version : with_version_t) (conflict3 : conflict3_t)
  : option oid :=
  match with_version with
  | with_ancestor => conflict3.1.1
  | with_ours => conflict3.1.2
  | with_theirs => conflict3.2
  | _ => None
  end.

Section Resolve.
(** What the command takes from modules that are not at hand:
    - [label]: [RichConflict(conflict3, merge_context).label];
    - [load_file_resolve], [load_workingcopy_resolve]: the entries read
      from a file or from the working copy (the blobs they write are not
      part of the state kept here). *)
Variable label : conflict3_t -> MergeContext -> string.
Variable load_file_resolve :
  conflict3_t -> MergeContext -> string -> KartRepo -> result (list oid).
Variable load_workingcopy_resolve :
  conflict3_t -> MergeContext -> KartRepo -> result (list oid).

(** The loop of [resolve] over [merge_index.conflicts.items()]; leaving
    it with [Ok] is [ctx.exit(0)]. *)
Fixpoint resolve_loop (items : list (string * conflict3_t))
    (merge_index : MergedIndex) (merge_context : MergeContext)
    (with_version : option with_version_t) (file_path : option string)
    (conflict_label : string) : StateErr KartRepo unit :=
  match items with
  | [] => raise (NotFound ("No conflict found at " ++ conflict_label))
  | (key, conflict3) :: items =>
      if String.eqb (label conflict3 merge_context) conflict_label then
        if bool_decide (is_Some (resolves merge_index !! key)) then
          raise (InvalidOperation
                   ("Conflict at " ++ conflict_label ++ " is already resolved"))
        else
          res <-- match file_path, with_version with
                  | Some (String a path), _ =>
                      call (load_file_resolve conflict3 merge_context (String a path))
                  | _, Some with_workingcopy =>
                      call (load_workingcopy_resolve conflict3 merge_context)
                  | _, Some with_delete => ret []
                  | _, Some with_version =>
                      ret match version_of with_version conflict3 with
                          | Some entry => [entry]
                          | None => []
                          end
                  | _, None => raise AssertionError
                  end ;;
          MergedIndex_write_to_repo (add_resolve key res merge_index)
      else
        resolve_loop items merge_index merge_context with_version file_path
          conflict_label
  end.

(** [resolve], from the repository that
    [ctx.obj.get_repo(allowed_states=KartRepoState.MERGING)] hands out;
    [items] is [merge_index.conflicts.items()] in the order of the loop. *)
Definition resolve (items : list (string * conflict3_t))
    (with_version : option with_version_t) (file_path : option string)
    (conflict_label : string) : StateErr KartRepo unit :=
  if negb (bool_decide (is_Some with_version) || truthy file_path) then
    raise (UsageError "Choose a resolution using --with or --with-file")
  else
    merge_index <-- MergedIndex_read_from_repo ;;
    merge_context <-- MergeContext_read_from_repo ;;
    let conflict_label :=
      if endswith conflict_label ":" then Postgis.drop_last conflict_label
      else conflict_label in
    resolve_loop items merge_index merge_context with_version file_path conflict_label.

End Resolve.

(** The items of the loop over [merge_index.conflicts.items()], in
    some order. *)
Definition conflicts_items (items : list (string * conflict3_t)) (m : MergedIndex) : Prop :=
  NoDup items.*1 /\ list_to_map items = conflicts m.

End Resolve.

(** ** kart/tile/importer.py: a name for the dataset

    A Python [str] is a sequence of code points: [len], the comparisons
    of [min] and [max], [os.path.commonprefix], [split] and [rstrip] all
    go by code point, whatever the bytes of an encoding would be.  So a
    name is held here as the list of its code points. *)

Module DatasetPath.

(** The code points of a text in ASCII, where each byte is one. *)
Definition code_points (text : string) : list N :=
  N_of_ascii <$> list_ascii_of_string text.

(** The order of [str]: by the first code point that differs, and a
    proper prefix comes first. *)
Fixpoint str_compare (a b : list N) : comparison :=
  match a, b with
  | [], [] => Eq
  | [], _ :: _ => Lt
  | _ :: _, [] => Gt
  | c :: a, d :: b =>
      match (c ?= d)%N with
      | Eq => str_compare a b
      | Lt => Lt
      | Gt => Gt
      end
  end.

(** [a < b] for strings. *)
Definition str_lt (a b : list N) : bool :=
  match str_compare a b with
  | Lt => true
  | _ => false
  end.

(** [min(m)] and [max(m)] for a list that starts with [first]. *)
Definition py_min (first : list N) (rest : list (list N)) : list N :=
  foldl (fun least x => if str_lt x least then x else least) first rest.

Definition py_max (first : list N) (rest : list (list N)) : list N :=
  foldl (fun greatest x => if str_lt greatest x then x else greatest) first rest.

(** The loop of [os.path.commonprefix] over the characters of [s1]. *)
Fixpoint commonprefix_loop (s1 s2 : list N) : result (list N) :=
  match s1 with
  | [] => Ok []
  | c :: s1 =>
      match s2 with
      | [] => Raise (OtherError "IndexError")
      | d :: s2 =>
          if (c =? d)%N then cons c <$> commonprefix_loop s1 s2
          else Ok []
      end
  end.

Definition commonprefix (m : list (list N)) : result (list N) :=
  match m with
  | [] => Ok []
  | first :: rest => commonprefix_loop (py_min first rest) (py_max first rest)
  end.

(** [s.split(char, maxsplit=1)[0]]. *)
Fixpoint before_char (char : N) (s : list N) : list N :=
  match s with
  | [] => []
  | c :: rest => if (c =? char)%N then [] else c :: before_char char rest
  end.

(** [s.rstrip(chars)]. *)
Fixpoint rstrip_chars (chars : list N) (s : list N) : list N :=
  match s with
  | [] => []
  | c :: rest =>
      match rstrip_chars chars rest with
      | [] => if bool_decide (c ∈ chars) then [] else [c]
      | stripped => c :: stripped
      end
  end.

(** The star at which the prefix is cut. *)
Definition STAR : N := N_of_ascii "*".

(** The characters that [rstrip] takes off the end of the prefix:
    underscore, hyphen, full stop, comma, slash and backslash. *)
Definition STRIPPED : list N := code_points "_-.,/\".

(** [a <= b] for strings. *)
Definition str_le (a b : list N) : Prop := str_compare a b <> Gt.

Section DatasetPath.
(** What the importer takes from elsewhere:
    - [tile_name]: [DATASET_CLASS.remove_tile_extension(Path(source).name)];
    - [parent_name]: [Path(source).parents[0].name], or the star when
      the path has no parents;
    - [list_of]: [list(collection)], the order in which Python takes
      the elements of a set. *)
Variable tile_name : list N -> list N.
Variable parent_name : list N -> list N.
Variable list_of : gset (list N) -> list (list N).

(** [TileImporter._common_prefix]. *)
Definition _common_prefix (collection : gset (list N)) (min_length : nat)
  : result (option (list N)) :=
  prefix ← commonprefix (list_of collection);
  let prefix := before_char STAR prefix in
  let prefix := rstrip_chars STRIPPED prefix in
  if (length prefix <? min_length)%nat then Ok None else Ok (Some prefix).

(** [TileImporter.infer_dataset_path]. *)
Definition infer_dataset_path (sources : list (list N)) : result (option (list N)) :=
  let names : gset (list N) := list_to_set (tile_name <$> sources) in
  let parent_names : gset (list N) := list_to_set (parent_name <$> sources) in
  inferred ← _common_prefix names 4;
  match inferred with
  | None => _common_prefix parent_names 4
  | Some _ => Ok inferred
  end.

End DatasetPath.

End DatasetPath.

(** ** Concrete inputs

    Small repositories, deltas, sources and filters on which the theorems
    below are instantiated and the code is run. *)

Module Examples.
Import DiffStructs Repo Merge FastImport KeyFilters.

(** *** Deltas *)

Definition kv (k : string) (v : Z) : KeyValue string Z :=
  {| key := k; value := Immediate v; _cached_value := None |}.

Definition lazy_kv (k : string) (v : Z) : KeyValue string Z :=
  {| key := k; value := Deferred (fun _ => v); _cached_value := None |}.

Definition insert_a1 : Delta string Z :=
  {| old := None; new := Some (kv "a" 1); type := insert; flags := WORKING_COPY_EDIT |}.

Definition update_a1_a2 : Delta string Z :=
  {| old := Some (kv "a" 1); new := Some (lazy_kv "a" 2); type := update;
     flags := BINARY_FILE |}.

(** *** A repository in the merging state *)

Definition conflict_key : string := "points:feature:1".

Definition index_with_resolve : MergedIndex :=
  {| entries := ∅;
     conflicts := {[ conflict_key := (Some "blob0", Some "blobX", Some "blobY") ]};
     resolves := {[ conflict_key := ["blobY"] ]} |}.

Definition index_without_resolve : MergedIndex :=
  {| entries := ∅;
     conflicts := {[ conflict_key := (Some "blob0", Some "blobX", Some "blobY") ]};
     resolves := ∅ |}.

Definition ours_commit : Commit :=
  {| author := "user"; committer := "user"; message := "ours";
     tree := "tree_ours"; parents := ["commit_ancestor"] |}.

Definition merging_repo (m : MergedIndex) : KartRepo :=
  {| gitdir := <[KartRepoFiles.MERGE_HEAD := Text "commit_theirs"]>
               (<[KartRepoFiles.MERGED_INDEX := Index m]>
               (<[KartRepoFiles.MERGE_MSG := Text "Merge branch theirs into main"]>
               (<[KartRepoFiles.HEAD := Text "ref: refs/heads/main"]> ∅)));
     Repo.references := {[ "refs/heads/main" := "commit_ours" ]};
     head_name := "refs/heads/main";
     odb := [("commit_ours", ours_commit)];
     wc_tree := Some "tree_dirty" |}.

(** MERGE_HEAD is there, MERGED_INDEX is not. *)
Definition corrupt_repo : KartRepo :=
  {| gitdir := <[KartRepoFiles.MERGE_HEAD := Text "commit_theirs"]> ∅;
     Repo.references := {[ "refs/heads/main" := "commit_ours" ]};
     head_name := "refs/heads/main";
     odb := [("commit_ours", ours_commit)];
     wc_tree := Some "tree_ours" |}.

Definition git_user_is_set (repo : KartRepo) : result unit := Ok tt.
Definition hash_commit (c : Commit) : oid := "commit_merge".
Definition write_resolved_tree (m : MergedIndex) : oid := "tree_merged".
Definition merge_message (c : MergeContext) : string := "Merge branch theirs into main".

(** The user saves the draft as it is, or saves an empty message. *)
Definition editor_keeps_draft (draft : option string) : option string := draft.
Definition editor_clears_message (draft : option string) : option string :=
  Some EmptyString.

(** *** Schemas and a log for the should-compare heuristic *)

(** A schema as the list of its columns: name, and whether it is part of
    the primary key. *)
Abbreviation schema_t := (list (string * bool)).

Definition has_column (s : schema_t) (name : string) : bool :=
  existsb (fun c => String.eqb c.1 name) s.

Definition pk_differs (s : schema_t) (c : string * bool) : bool :=
  existsb (fun d => String.eqb d.1 c.1 && negb (Bool.eqb d.2 c.2)) s.

Definition diff_type_counts (old_schema new_schema : schema_t) : diff_type_counts_t :=
  {| inserts := length (List.filter (fun c => negb (has_column old_schema c.1)) new_schema);
     updates := 0;
     deletes := length (List.filter (fun c => negb (has_column new_schema c.1)) old_schema);
     pk_updates := length (List.filter (pk_differs old_schema) new_schema) |}.

Definition schema_v1 : schema_t := [("id", true); ("name", false)].
Definition schema_v2 : schema_t := [("id", true); ("name", false); ("age", false)].

Definition dataset_with (s : schema_t) : Dataset :=
  {| FastImport.path := "points"; schema := s; DATASET_DIRNAME := ".table-dataset";
     attachment_names := []; legend_blob_data := [] |}.

(** The log from commit c3: c3 and c2 have the schema being imported, c1
    has the older schema without the column [age]. *)
Definition repo_walk (c : oid) : gen oid :=
  GenYield "c3" (GenYield "c2" (GenYield "c1" GenEnd)).

Definition repo_datasets (refish : option oid) : gmap string Dataset :=
  match refish with
  | Some "c1" => {[ "points" := dataset_with schema_v1 ]}
  | Some _ => {[ "points" := dataset_with schema_v2 ]}
  | None => ∅
  end.

Definition source_v2 : Source :=
  {| dest_path := "points"; source_schema := schema_v2; feature_count := 3;
     feature_blobs_already_written := false |}.

(** *** Two sources of three features each *)

Definition source_roads : Source :=
  {| dest_path := "roads"; source_schema := schema_v2; feature_count := 3;
     feature_blobs_already_written := false |}.

Definition three_features (source : Source (Schema := schema_t))
  : list (list string * (string * string)) :=
  [ ([], (dest_path source +:+ "/feature/1", "a"));
    ([], (dest_path source +:+ "/feature/2", "b"));
    ([], (dest_path source +:+ "/feature/3", "c")) ].

Definition feature_blob_iter (source : Source (Schema := schema_t))
    (mode : blob_mode (Schema := schema_t)) (replace_ids : option (list string))
  : gen (list string * (string * string)) * list string :=
  (gen_app (three_features source) GenEnd, []).

(** The same three features when the keys 1, 7, 2, 3 and 9 are
    replaced: there is no feature 7 and no feature 9, and each key is
    deleted as it is taken. *)
Definition three_features_replaced (source : Source (Schema := schema_t))
  : list (list string * (string * string)) :=
  [ ([dest_path source +:+ "/feature/1"], (dest_path source +:+ "/feature/1", "a"));
    ([dest_path source +:+ "/feature/7"; dest_path source +:+ "/feature/2"],
     (dest_path source +:+ "/feature/2", "b"));
    ([dest_path source +:+ "/feature/3"], (dest_path source +:+ "/feature/3", "c")) ].

Definition feature_blob_iter_replacing (source : Source (Schema := schema_t))
    (mode : blob_mode (Schema := schema_t)) (replace_ids : option (list string))
  : gen (list string * (string * string)) * list string :=
  match replace_ids with
  | Some _ => (gen_app (three_features_replaced source) GenEnd,
               [dest_path source +:+ "/feature/9"])
  | None => feature_blob_iter source mode replace_ids
  end.

Definition meta_blobs (source : Source (Schema := schema_t)) : list (string * string) :=
  [(dest_path source +:+ "/meta/schema.json", "[]")].

(** *** An import whose wait is interrupted *)

(** git-fast-import ends well and writes the commit [commit_import]. *)
Definition git_exit (stream : list command) : Z := 0.
Definition git_commit (stream : list command) : oid := "commit_import".

Definition repo_before_import : ImportState :=
  {| FastImport.references := {[ "refs/heads/main" := "commit_head" ]}; stdin := [] |}.

Definition tile_importer : TileImporter.TileImporter :=
  {| TileImporter.dataset_path := "auckland";
     TileImporter.DATASET_DIRNAME := ".point-cloud-dataset.v1";
     TileImporter.message := Some "Import a tile";
     TileImporter.amend := false;
     TileImporter.allow_empty := false;
     TileImporter.update_existing := false;
     TileImporter.delete := [];
     TileImporter.sources := ["auckland_0_0.laz"] |}.

Definition tile_pointer_blobs : gen (string * string) :=
  GenYield ("auckland/.point-cloud-dataset.v1/tile/auckland_0_0", "oid sha256:00")
    GenEnd.

(** *** A sequence of operations on filters *)

Definition filter_ops : list op :=
  [ OpNewRepoKeyFilter;
    OpSetitem RepoKeyFilter_MATCH_ALL "points" DatasetKeyFilter_MATCH_ALL;
    OpSetitem DatasetKeyFilter_MATCH_ALL "feature" UserStringKeyFilter_MATCH_ALL;
    OpAdd UserStringKeyFilter_MATCH_ALL "1";
    OpAdd DatasetKeyFilter_child_that_matches_all "2";
    OpGetitem RepoKeyFilter_MATCH_ALL "points";
    OpSetitem RepoKeyFilter_child_that_matches_all "meta" UserStringKeyFilter_MATCH_ALL;
    OpSetitem 5 "roads*" DatasetKeyFilter_MATCH_ALL ].

(** *** Three versions of a dict and the diffs between them *)

Definition dict_v1 : gmap string Z := <["a" := 1%Z]> (<["b" := 2%Z]> ∅).
Definition dict_v2 : gmap string Z := <["b" := 3%Z]> (<["c" := 4%Z]> ∅).
Definition dict_v3 : gmap string Z := <["a" := 5%Z]> (<["b" := 3%Z]> ∅).

Definition abc : list string := ["a"; "b"; "c"].
Definition some_abc : list (option string) := [Some "c"; Some "a"; Some "b"].

(** From [dict_v1] to [dict_v2]: [a] is deleted, [b] updated, [c] inserted. *)
Definition diff_v1_v2 : Diffs.DeltaDiff string Z :=
  <[Some "a" := {| old := Some (Diffs.KeyValue_of "a" 1%Z); new := None;
                   type := delete; flags := 0 |}]>
  (<[Some "b" := {| old := Some (Diffs.KeyValue_of "b" 2%Z);
                    new := Some (Diffs.KeyValue_of "b" 3%Z);
                    type := update; flags := 0 |}]>
  (<[Some "c" := {| old := None; new := Some (Diffs.KeyValue_of "c" 4%Z);
                    type := insert; flags := 0 |}]> ∅)).

(** From [dict_v2] to [dict_v3]: [a] is inserted, [c] deleted. *)
Definition diff_v2_v3 : Diffs.DeltaDiff string Z :=
  <[Some "a" := {| old := None; new := Some (Diffs.KeyValue_of "a" 5%Z);
                   type := insert; flags := 0 |}]>
  (<[Some "c" := {| old := Some (Diffs.KeyValue_of "c" 4%Z); new := None;
                    type := delete; flags := 0 |}]> ∅).

(** *** User patterns and a filter with a glob *)

(** A [repr] that puts the string between single quotes. *)
Definition quoted (s : string) : string := "'" ++ s ++ "'".

(** The repo filter with the dataset [points] and the glob [roads*], both
    holding [DatasetKeyFilter.MATCH_ALL], at the address 5. *)
Definition heap_with_glob : heap :=
  <[5 := RepoKeyFilter (<["points" := DatasetKeyFilter_MATCH_ALL]>
                         (<["roads*" := DatasetKeyFilter_MATCH_ALL]> ∅))
                       false [("roads*", DatasetKeyFilter_MATCH_ALL)]]> initial_heap.

(** *** A column of PostGIS *)

(** [str.upper] on the letters a to z. *)
Definition upper (s : string) : string :=
  string_of_list_ascii
    (map (fun c => let n := nat_of_ascii c in
                   if (97 <=? n)%nat && (n <=? 122)%nat
                   then ascii_of_nat (n - 32) else c)
         (list_ascii_of_string s)).

(** [str.strip] where the only white space is the space character. *)
Fixpoint lstrip (s : string) : string :=
  match s with
  | String c rest => if Ascii.eqb c " " then lstrip rest else s
  | EmptyString => EmptyString
  end.

Fixpoint rstrip (s : string) : string :=
  match s with
  | String c rest =>
      match rstrip rest with
      | EmptyString => if Ascii.eqb c " " then EmptyString else String c EmptyString
      | stripped => String c stripped
      end
  | EmptyString => EmptyString
  end.

Definition strip (s : string) : string := rstrip (lstrip s).

Definition pg_column_geom : Postgis.PgCol.pg_col_info :=
  {| Postgis.PgCol.column_name := "geom";
     Postgis.PgCol.pk_ordinal_position := None;
     Postgis.PgCol.data_type := "USER-DEFINED";
     Postgis.PgCol.udt_name := "geometry";
     Postgis.PgCol.character_maximum_length := None;
     Postgis.PgCol.numeric_precision := None;
     Postgis.PgCol.numeric_scale := None;
     Postgis.PgCol.geometry_type := Some "PointZM";
     Postgis.PgCol.geometry_srid := Some 4326%Z |}.

Definition column_int8 : Postgis.ColumnSchema :=
  {| Postgis.data_type := "integer";
     Postgis.extra_type_info := {[ "size" := Postgis.PInt 8 ]} |}.

Definition pg_column_smallint : Postgis.PgCol.pg_col_info :=
  {| Postgis.PgCol.column_name := "count";
     Postgis.PgCol.pk_ordinal_position := None;
     Postgis.PgCol.data_type := "smallint";
     Postgis.PgCol.udt_name := "int2";
     Postgis.PgCol.character_maximum_length := None;
     Postgis.PgCol.numeric_precision := Some 16%Z;
     Postgis.PgCol.numeric_scale := Some 0%Z;
     Postgis.PgCol.geometry_type := None;
     Postgis.PgCol.geometry_srid := None |}.

End Examples.

(** * Theorems *)

(** ** Delta algebra (kart/diff_structs.py) *)

Section DeltaFacts.
Import DiffStructs.
Context {K V : Type} `{EqDecision V}.
Implicit Types (a b d : Delta K V) (kv : KeyValue K V).

Lemma get_lazy_value_KeyValue_eq kv :
  KeyValue_eq (snd (get_lazy_value kv)) kv.
Proof.
  unfold get_lazy_value, KeyValue_eq.
  destruct (value kv) eqn:Hv; [done|].
  destruct (_cached_value kv); simpl; auto.
Qed.

Lemma get_lazy_value_idem kv :
  get_lazy_value (snd (get_lazy_value kv))
  = (fst (get_lazy_value kv), snd (get_lazy_value kv)).
Proof.
  destruct kv as [k [v|f] [c|]]; reflexivity.
Qed.

Lemma Delta_wf_cases d :
  Delta_wf d = true ->
  (type d = insert /\ old d = None /\ exists n, new d = Some n)
  \/ (type d = update /\ (exists o, old d = Some o) /\ exists n, new d = Some n)
  \/ (type d = delete /\ (exists o, old d = Some o) /\ new d = None).
Proof.
  unfold Delta_wf.
  destruct (old d) as [o|], (new d) as [n|], (type d); try discriminate; intros _.
  - right; left; eauto.
  - right; right; eauto.
  - left; eauto.
Qed.

Lemma Delta_init_wf o n d : Delta_init o n = Ok d -> Delta_wf d = true.
Proof.
  unfold Delta_init.
  destruct o, n; intros [= <-]; reflexivity.
Qed.

(** What [maybe_update] returns on two present sides. *)
Lemma Delta_maybe_update_Some (ko kn : KeyValue K V) :
  Delta_maybe_update (Some ko) (Some kn)
  = if decide (fst (get_lazy_value ko) = fst (get_lazy_value kn)) then Ok None
    else Ok (Some {| old := Some (snd (get_lazy_value ko));
                     new := Some (snd (get_lazy_value kn));
                     type := update; flags := 0 |}).
Proof.
  unfold Delta_maybe_update.
  destruct (get_lazy_value ko) as [vo ko'], (get_lazy_value kn) as [vn kn']; simpl.
  by destruct (decide (vo = vn)).
Qed.

Lemma maybe_update_cell_intro a b (ko kn : KeyValue K V) :
  old a = Some ko -> new b = Some kn ->
  (type a = update /\ type b = update) \/ (type a = delete /\ type b = insert) ->
  maybe_update_cell a b.
Proof.
  intros Ho Hn Ht. unfold maybe_update_cell, old_value, new_value, Delta_add.
  destruct Ht as [[-> ->]|[-> ->]];
  rewrite Ho, Hn, Delta_maybe_update_Some; simpl.
  all: destruct (decide (fst (get_lazy_value ko) = fst (get_lazy_value kn))) as [e|ne];
    [ rewrite decide_True by congruence; done
    | rewrite decide_False by congruence; simpl;
      eexists; split; [reflexivity|]; simpl;
      repeat split; try apply get_lazy_value_KeyValue_eq;
      by rewrite get_lazy_value_idem ].
Qed.

(** C1. Delta concatenation follows the composition table: for
    well-formed deltas [a] and [b], insert+insert, update+insert,
    delete+delete and delete+update raise [Conflict]; insert+update is the
    insert of [b.new]; insert+delete is nothing; update+update and
    delete+insert are the update from [a.old] to [b.new], or nothing when
    the two values are equal; update+delete is the delete of [a.old]. *)
Theorem Delta_add_composition_table a b :
  Delta_wf a = true -> Delta_wf b = true ->
  match type a, type b with
  | insert, insert => Delta_add a b = Raise Conflict
  | insert, update =>
      exists d, Delta_add a b = Ok (Some d)
                /\ type d = insert /\ old d = None /\ new d = new b
  | insert, delete => Delta_add a b = Ok None
  | update, insert => Delta_add a b = Raise Conflict
  | update, update => maybe_update_cell a b
  | update, delete =>
      exists d, Delta_add a b = Ok (Some d)
                /\ type d = delete /\ old d = old a /\ new d = None
  | delete, insert => maybe_update_cell a b
  | delete, update => Delta_add a b = Raise Conflict
  | delete, delete => Delta_add a b = Raise Conflict
  end.
Proof.
  intros Ha Hb.
  destruct (Delta_wf_cases a Ha) as [(Ta & Oa & na & Na)|[(Ta & (oa & Oa) & na & Na)|(Ta & (oa & Oa) & Na)]];
  destruct (Delta_wf_cases b Hb) as [(Tb & Ob & nb & Nb)|[(Tb & (ob & Ob) & nb & Nb)|(Tb & (ob & Ob) & Nb)]];
  rewrite Ta, Tb;
  try (unfold Delta_add; rewrite Ta, Tb; reflexivity).
  - unfold Delta_add. rewrite Ta, Tb, Nb. simpl. eexists; split; [reflexivity|]. done.
  - eapply maybe_update_cell_intro; eauto.
  - unfold Delta_add. rewrite Ta, Tb, Oa. simpl. eexists; split; [reflexivity|]. done.
  - eapply maybe_update_cell_intro; eauto.
Qed.

Lemma opt_KeyValue_eq_refl (o : option (KeyValue K V)) : opt_KeyValue_eq o o.
Proof. destruct o; simpl; [split|]; done. Qed.

Lemma Delta_invert_wf d :
  Delta_wf d = true ->
  Delta_invert d
  = Ok {| old := new d; new := old d;
          type := match type d with
                  | insert => delete | update => update | delete => insert
                  end;
          flags := 0 |}.
Proof.
  intros Hd. unfold Delta_invert.
  destruct (Delta_wf_cases d Hd)
    as [(T & O & n & N)|[(T & (o & O) & n & N)|(T & (o & O) & N)]];
    rewrite T, O, N; reflexivity.
Qed.

Lemma Delta_add_flags a b s :
  Delta_add a b = Ok (Some s) -> flags s = Z.lor (flags a) (flags b).
Proof.
  unfold Delta_add. intros Hadd.
  destruct (match type a with insert => _ | update => _ | delete => _ end)
    as [[r|]|e]; simpl in Hadd; try discriminate.
  by injection Hadd as <-.
Qed.

Lemma Delta_add_wf a b s :
  Delta_wf a = true -> Delta_wf b = true ->
  Delta_add a b = Ok (Some s) -> Delta_wf s = true.
Proof.
  intros Ha Hb. unfold Delta_add.
  destruct (Delta_wf_cases a Ha)
    as [(Ta & Oa & na & Na)|[(Ta & (oa & Oa) & na & Na)|(Ta & (oa & Oa) & Na)]];
  destruct (Delta_wf_cases b Hb)
    as [(Tb & Ob & nb & Nb)|[(Tb & (ob & Ob) & nb & Nb)|(Tb & (ob & Ob) & Nb)]];
  rewrite Ta, Tb, ?Oa, ?Na, ?Ob, ?Nb, ?Delta_maybe_update_Some;
  simpl; try discriminate;
  try (destruct (decide (fst (get_lazy_value oa) = fst (get_lazy_value nb)));
       simpl; [discriminate|]);
  intros [= <-]; reflexivity.
Qed.

Lemma Delta_add_invert a b s :
  Delta_wf a = true -> Delta_wf b = true ->
  Delta_add a b = Ok (Some s) ->
  exists ia ib si,
    Delta_invert a = Ok ia /\ Delta_invert b = Ok ib /\ Delta_invert s = Ok si
    /\ Delta_add ib ia = Ok (Some si).
Proof.
  intros Ha Hb Hadd.
  pose proof (Delta_add_wf a b s Ha Hb Hadd) as Hs.
  rewrite (Delta_invert_wf a Ha), (Delta_invert_wf b Hb), (Delta_invert_wf s Hs).
  do 3 eexists. do 3 (split; [reflexivity|]).
  revert Hadd. clear Hs. unfold Delta_add; simpl.
  destruct (Delta_wf_cases a Ha)
    as [(Ta & Oa & na & Na)|[(Ta & (oa & Oa) & na & Na)|(Ta & (oa & Oa) & Na)]];
  destruct (Delta_wf_cases b Hb)
    as [(Tb & Ob & nb & Nb)|[(Tb & (ob & Ob) & nb & Nb)|(Tb & (ob & Ob) & Nb)]];
  rewrite Ta, Tb, ?Oa, ?Na, ?Ob, ?Nb, ?Delta_maybe_update_Some;
  simpl; try discriminate;
  try (destruct (decide (fst (get_lazy_value oa) = fst (get_lazy_value nb)));
       simpl; [discriminate|]; rewrite decide_False by congruence);
  intros [= <-]; reflexivity.
Qed.

(** C2. Inversion swaps [old] and [new] and is an involution for the
    deltas' own equality; whenever [a + b] is a delta, [(~b) + (~a)] is
    defined and is the delta [~(a + b)]; and the flags of [a + b] are the
    bitwise OR of the flags of [a] and [b]. *)
Theorem Delta_invert_swaps_and_antidistributes :
  (forall d, Delta_wf d = true ->
     exists d1 d2,
       Delta_invert d = Ok d1 /\ old d1 = new d /\ new d1 = old d
       /\ Delta_invert d1 = Ok d2
       /\ old d2 = old d /\ new d2 = new d /\ type d2 = type d
       /\ Delta_eq d2 d)
  /\ (forall a b s,
       Delta_wf a = true -> Delta_wf b = true ->
       Delta_add a b = Ok (Some s) ->
       exists ia ib si,
         Delta_invert a = Ok ia /\ Delta_invert b = Ok ib
         /\ Delta_invert s = Ok si
         /\ Delta_add ib ia = Ok (Some si))
  /\ (forall a b s,
       Delta_add a b = Ok (Some s) -> flags s = Z.lor (flags a) (flags b)).
Proof.
  split; [|split].
  - intros d Hd. rewrite (Delta_invert_wf d Hd).
    eexists. exists (set_flags 0 d).
    split; [reflexivity|]. simpl.
    split; [reflexivity|]. split; [reflexivity|].
    split.
    + unfold Delta_invert, set_flags; simpl.
      destruct (Delta_wf_cases d Hd)
        as [(T & O & n & N)|[(T & (o & O) & n & N)|(T & (o & O) & N)]];
        rewrite T, O, N; reflexivity.
    + repeat split; apply opt_KeyValue_eq_refl.
  - apply Delta_add_invert.
  - apply Delta_add_flags.
Qed.

End DeltaFacts.

(** ** Repository state and the merging state (kart/repo.py, kart/merge.py) *)

Section MergeStateFacts.
Import Repo Merge.

Lemma gitdir_file_exists_true f repo :
  gitdir_file_exists f repo = true <-> is_Some (gitdir repo !! f).
Proof. unfold gitdir_file_exists. apply bool_decide_eq_true. Qed.

Lemma gitdir_file_exists_false f repo :
  gitdir_file_exists f repo = false <-> gitdir repo !! f = None.
Proof.
  unfold gitdir_file_exists. rewrite bool_decide_eq_false.
  rewrite <- eq_None_not_Some. done.
Qed.

(** C4. The state is MERGING exactly when MERGE_HEAD and MERGED_INDEX both
    exist, NORMAL when MERGE_HEAD is absent, and the query raises
    [NotFound], pointing to [kart merge --abort], when MERGE_HEAD exists
    without MERGED_INDEX; no repository is in both states. *)
Theorem state_merging_iff_both_files (repo : KartRepo) :
  (state repo = Ok MERGING <->
     gitdir_file_exists KartRepoFiles.MERGE_HEAD repo = true
     /\ gitdir_file_exists KartRepoFiles.MERGED_INDEX repo = true)
  /\ (gitdir_file_exists KartRepoFiles.MERGE_HEAD repo = false ->
      state repo = Ok NORMAL)
  /\ (gitdir_file_exists KartRepoFiles.MERGE_HEAD repo = true ->
      gitdir_file_exists KartRepoFiles.MERGED_INDEX repo = false ->
      state repo = Raise (NotFound
        ("Kart repo is in " ++ dq ++ "merging" ++ dq
         ++ " state, but required file MERGED_INDEX is missing." ++ nl
         ++ "Try `kart merge --abort` to return to a good state.")))
  /\ ~ (state repo = Ok MERGING /\ state repo = Ok NORMAL).
Proof.
  unfold state.
  destruct (gitdir_file_exists KartRepoFiles.MERGE_HEAD repo) eqn:Hh,
           (gitdir_file_exists KartRepoFiles.MERGED_INDEX repo) eqn:Hi; simpl;
    repeat split; try done; try (intros [? ?]; done); try (intros [? ?]; congruence).
Qed.

Lemma set_gitdir_id repo : set_gitdir (fun g => g) repo = repo.
Proof. by destruct repo. Qed.

Lemma remove_gitdir_file_delete f repo :
  remove_gitdir_file f repo = (Ok tt, set_gitdir (delete f) repo).
Proof.
  unfold remove_gitdir_file.
  destruct (gitdir_file_exists f repo) eqn:He; simpl; [done|].
  apply gitdir_file_exists_false in He.
  destruct repo as [g r h o w]; unfold set_gitdir; simpl in *.
  by rewrite delete_id.
Qed.

Lemma remove_all_merge_files repo :
  for_each ALL_MERGE_FILES remove_gitdir_file repo
  = (Ok tt, set_gitdir without_merge_files repo).
Proof.
  unfold ALL_MERGE_FILES, for_each, bind.
  rewrite !remove_gitdir_file_delete. unfold ret.
  by destruct repo.
Qed.

Lemma without_merge_files_lookup g f :
  f ∈ ALL_MERGE_FILES -> without_merge_files g !! f = None.
Proof.
  unfold ALL_MERGE_FILES, without_merge_files. intros Hf.
  repeat (apply elem_of_cons in Hf as [->|Hf]; [by simplify_map_eq|]).
  by apply elem_of_nil in Hf.
Qed.

Lemma state_without_merge_files repo :
  state (set_gitdir without_merge_files repo) = Ok NORMAL.
Proof.
  unfold state.
  replace (gitdir_file_exists KartRepoFiles.MERGE_HEAD
             (set_gitdir without_merge_files repo)) with false; [done|].
  symmetry. apply gitdir_file_exists_false. simpl.
  apply without_merge_files_lookup. unfold ALL_MERGE_FILES. set_solver.
Qed.

Lemma assert_state_not_merging_ok repo :
  assert_state_not_merging (set_gitdir without_merge_files repo)
  = (Ok tt, set_gitdir without_merge_files repo).
Proof.
  unfold assert_state_not_merging. by rewrite state_without_merge_files.
Qed.

Lemma abort_merging_state_unfold cmd repo :
  abort_merging_state cmd repo
  = if gitdir_file_exists KartRepoFiles.MERGE_HEAD repo
    then reset_to_head (set_gitdir without_merge_files repo)
    else (Raise (InvalidOperation
                   (bad_state_message cmd NORMAL [MERGING] (Some "--abort"))),
          set_gitdir without_merge_files repo).
Proof.
  unfold abort_merging_state, bind, gets.
  rewrite remove_all_merge_files, assert_state_not_merging_ok.
  by destruct (gitdir_file_exists _ repo).
Qed.

(** C5. Whatever the repository looked like, after [abort_merging_state]
    none of MERGE_HEAD, MERGED_INDEX, MERGED_TREE, MERGE_MSG and
    MERGE_BRANCH exists and the state is NORMAL, on the normal exit as on
    the [InvalidOperation] exit; the normal exit is taken exactly when
    MERGE_HEAD existed, and then the working copy shows HEAD. *)
Theorem abort_merging_state_removes_merge_files (cmd : string) (repo : KartRepo) :
  let r := fst (abort_merging_state cmd repo) in
  let repo' := snd (abort_merging_state cmd repo) in
  gitdir repo' !! KartRepoFiles.MERGE_HEAD = None
  /\ gitdir repo' !! KartRepoFiles.MERGED_INDEX = None
  /\ gitdir repo' !! KartRepoFiles.MERGED_TREE = None
  /\ gitdir repo' !! KartRepoFiles.MERGE_MSG = None
  /\ gitdir repo' !! KartRepoFiles.MERGE_BRANCH = None
  /\ state repo' = Ok NORMAL
  /\ (if gitdir_file_exists KartRepoFiles.MERGE_HEAD repo
      then r = Ok tt /\ wc_tree repo' = head_tree repo'
      else r = Raise (InvalidOperation
                        (bad_state_message cmd NORMAL [MERGING] (Some "--abort")))
           /\ wc_tree repo' = wc_tree repo).
Proof.
  cbv zeta. rewrite abort_merging_state_unfold.
  destruct (gitdir_file_exists KartRepoFiles.MERGE_HEAD repo); simpl;
    (repeat (split; [apply without_merge_files_lookup;
                     unfold ALL_MERGE_FILES; set_solver|]));
    (split; [|done]).
  - apply (state_without_merge_files
             {| gitdir := gitdir repo; references := _; head_name := _;
                odb := _; wc_tree := _ |}).
  - apply state_without_merge_files.
Qed.

(** *** Aborting again *)

Lemma without_merge_files_other g f :
  f ∉ ALL_MERGE_FILES -> without_merge_files g !! f = g !! f.
Proof.
  unfold ALL_MERGE_FILES, without_merge_files. intros Hf.
  rewrite !lookup_delete_ne; [done|..]; intros <-; apply Hf;
    rewrite !elem_of_cons; tauto.
Qed.

Lemma without_merge_files_twice g :
  without_merge_files (without_merge_files g) = without_merge_files g.
Proof.
  apply map_eq. intros f. destruct (decide (f ∈ ALL_MERGE_FILES)) as [Hf|Hf].
  - by rewrite !without_merge_files_lookup.
  - by rewrite without_merge_files_other.
Qed.

(** [abort_merging_state] touches nothing but the five merge files and
    the working copy: the refs, the commits, HEAD and every other file of
    the gitdir are as before.  Run again on the repository it leaves, it
    finds no merge to abort: it raises [InvalidOperation] and leaves that
    repository exactly as it is. *)
Theorem abort_merging_state_again (cmd : string) (repo : KartRepo) :
  let repo' := snd (abort_merging_state cmd repo) in
  abort_merging_state cmd repo'
  = (Raise (InvalidOperation
              (bad_state_message cmd NORMAL [MERGING] (Some "--abort"))), repo')
  /\ references repo' = references repo
  /\ odb repo' = odb repo
  /\ head_name repo' = head_name repo
  /\ (forall f, f ∉ ALL_MERGE_FILES -> gitdir repo' !! f = gitdir repo !! f).
Proof.
  cbv zeta. rewrite (abort_merging_state_unfold cmd repo).
  assert (Hgone : forall r : KartRepo,
            gitdir r = without_merge_files (gitdir repo) ->
            abort_merging_state cmd r
            = (Raise (InvalidOperation
                        (bad_state_message cmd NORMAL [MERGING] (Some "--abort"))), r)).
  { intros r Hr. rewrite abort_merging_state_unfold.
    replace (gitdir_file_exists KartRepoFiles.MERGE_HEAD r) with false.
    - f_equal. destruct r as [g rf h o w]. unfold set_gitdir. simpl in *.
      subst g. by rewrite without_merge_files_twice.
    - symmetry. apply gitdir_file_exists_false. rewrite Hr.
      apply without_merge_files_lookup. unfold ALL_MERGE_FILES.
      apply elem_of_cons. by left. }
  destruct (gitdir_file_exists KartRepoFiles.MERGE_HEAD repo); simpl;
    (split; [by apply Hgone|]); repeat (split; [done|]);
    intros f Hf; by apply without_merge_files_other.
Qed.

(** *** Files of the gitdir *)

Lemma ends_with_newline_app text : ends_with_newline (text ++ nl) = true.
Proof.
  induction text as [|c text IH]; [done|].
  change (String c text ++ nl) with (String c (text ++ nl)).
  destruct text; [done|]. exact IH.
Qed.

Lemma ends_with_newline_nonempty text :
  ends_with_newline text = true -> text <> EmptyString.
Proof. by destruct text. Qed.

Lemma write_gitdir_file_stores rel_path text repo :
  write_gitdir_file rel_path text repo
  = (Ok tt,
     set_gitdir (<[rel_path := Text (if ends_with_newline text then text
                                     else text ++ nl)]>) repo).
Proof.
  unfold write_gitdir_file, modify. by destruct (ends_with_newline text).
Qed.

Lemma string_ind2 (P : string -> Prop) :
  P EmptyString ->
  (forall c, P (String c EmptyString)) ->
  (forall c d s, P s -> P (String d s) -> P (String c (String d s))) ->
  forall s, P s.
Proof.
  intros Hempty Hone Htwo s.
  assert (Hboth : P s /\ forall c, P (String c s)); [|by destruct Hboth].
  induction s as [|d s [IH1 IH2]]; [by split|].
  split; [apply IH2|]. intros c. by apply Htwo.
Qed.

Lemma universal_newlines_cons c d s :
  universal_newlines (String c (String d s))
  = if Ascii.eqb c CR
    then String LF (if Ascii.eqb d LF then universal_newlines s
                    else universal_newlines (String d s))
    else String c (universal_newlines (String d s)).
Proof. reflexivity. Qed.

Lemma ends_with_newline_cons c text :
  ends_with_newline text = true -> ends_with_newline (String c text) = true.
Proof. by destruct text. Qed.

(** Reading keeps the newline at the end. *)
Lemma universal_newlines_end text :
  ends_with_newline text = true -> ends_with_newline (universal_newlines text) = true.
Proof.
  induction text as [|c|c d s IH1 IH2] using string_ind2; [done| |].
  - simpl. intros Hc. apply Ascii.eqb_eq in Hc as ->. done.
  - intros Hend. rewrite universal_newlines_cons.
    change (ends_with_newline (String c (String d s)))
      with (ends_with_newline (String d s)) in Hend.
    destruct (Ascii.eqb c CR).
    + destruct (Ascii.eqb d LF) eqn:Hd.
      * destruct s as [|e s]; [done|].
        apply ends_with_newline_cons, IH1. exact Hend.
      * by apply ends_with_newline_cons, IH2.
    + by apply ends_with_newline_cons, IH2.
Qed.

(** A text without CR is read as it is, and no text read has a CR. *)
Lemma universal_newlines_without_CR text :
  KeyFilters.str_contains CR text = false -> universal_newlines text = text.
Proof.
  induction text as [|c text IH]; [done|]. simpl.
  intros [Hc Htext]%orb_false_iff. rewrite Hc. by rewrite IH.
Qed.

Lemma universal_newlines_has_no_CR text :
  KeyFilters.str_contains CR (universal_newlines text) = false.
Proof.
  induction text as [|c|c d s IH1 IH2] using string_ind2; [done| |].
  - simpl. destruct (Ascii.eqb c CR) eqn:Hc; simpl; [done|]. by rewrite Hc.
  - rewrite universal_newlines_cons.
    destruct (Ascii.eqb c CR) eqn:Hc.
    + destruct (Ascii.eqb d LF); simpl; [exact IH1|exact IH2].
    + simpl. rewrite Hc. exact IH2.
Qed.

Lemma read_gitdir_file_text rel_path missing_ok text (repo : KartRepo) :
  gitdir repo !! rel_path = Some (Text text) ->
  read_gitdir_file rel_path missing_ok repo = (Ok (Some (universal_newlines text)), repo).
Proof. intros Hfile. unfold read_gitdir_file. by rewrite Hfile. Qed.

(** A file written with [write_gitdir_file] and read back with
    [read_gitdir_file].  The text is stored with a newline put at its
    end, unless it had one, and it is read with every CR LF and every CR
    turned into LF; so a text without CR is read as it was stored, and
    writing it again changes nothing.  What is read always ends in a
    newline, and written and read once more it comes back the same.  No
    other file of the gitdir is touched; and once the file is removed,
    reading gives [None] with [missing_ok] and raises without. *)
Theorem write_gitdir_file_round_trip
    (rel_path text : string) (missing_ok : bool) (repo : KartRepo) :
  let stored := if ends_with_newline text then text else text ++ nl in
  let repo' := snd (write_gitdir_file rel_path text repo) in
  let removed := snd (remove_gitdir_file rel_path repo') in
  let read := universal_newlines stored in
  read_gitdir_file rel_path missing_ok repo' = (Ok (Some read), repo')
  /\ (KeyFilters.str_contains CR text = false ->
      read = stored /\ write_gitdir_file rel_path read repo' = (Ok tt, repo'))
  /\ ends_with_newline read = true
  /\ read_gitdir_file rel_path missing_ok (snd (write_gitdir_file rel_path read repo'))
     = (Ok (Some read), snd (write_gitdir_file rel_path read repo'))
  /\ (forall f, f <> rel_path -> gitdir repo' !! f = gitdir repo !! f)
  /\ read_gitdir_file rel_path true removed = (Ok None, removed)
  /\ read_gitdir_file rel_path false removed
     = (Raise (OtherError "FileNotFoundError"), removed).
Proof.
  cbv zeta. rewrite write_gitdir_file_stores, remove_gitdir_file_delete.
  set (stored := if ends_with_newline text then text else text ++ nl).
  assert (Hnl : ends_with_newline stored = true).
  { subst stored. destruct (ends_with_newline text) eqn:He; [done|].
    apply ends_with_newline_app. }
  pose proof (universal_newlines_end stored Hnl) as Hread.
  cbn [snd]. split; [|split; [|split; [done|split; [|split; [|split]]]]].
  - apply read_gitdir_file_text. simpl. apply lookup_insert_eq.
  - intros Hplain.
    assert (Hsame : universal_newlines stored = stored).
    { apply universal_newlines_without_CR. subst stored.
      destruct (ends_with_newline text); [done|].
      clear -Hplain. induction text as [|c text IH]; [done|].
      simpl in *. apply orb_false_iff in Hplain as [-> Htext]. by apply IH. }
    split; [done|]. rewrite Hsame, write_gitdir_file_stores, Hnl. f_equal.
    destruct repo as [g r h o w]. unfold set_gitdir. simpl.
    by rewrite insert_insert_eq.
  - rewrite write_gitdir_file_stores, Hread. cbn [snd].
    rewrite (read_gitdir_file_text rel_path missing_ok (universal_newlines stored))
      by apply lookup_insert_eq.
    by rewrite (universal_newlines_without_CR _ (universal_newlines_has_no_CR stored)).
  - intros f Hf. by apply lookup_insert_ne.
  - unfold read_gitdir_file. simpl. by rewrite lookup_delete_eq.
  - unfold read_gitdir_file. simpl. by rewrite lookup_delete_eq.
Qed.

Section Continue.
Context (cmd : string) (check_git_user : KartRepo -> result unit)
        (hash_commit : Commit -> oid) (write_resolved_tree : MergedIndex -> oid)
        (merge_message : MergeContext -> string)
        (editor : option string -> option string)
        (default_signature : string).

Abbreviation complete := (complete_merging_state check_git_user hash_commit
                        write_resolved_tree merge_message editor default_signature).
Abbreviation commit_message := (get_commit_message merge_message editor).

Lemma get_commit_message_state ctx t le rf repo :
  snd (commit_message ctx t le rf repo) = repo.
Proof.
  unfold get_commit_message, bind, read_gitdir_file, ret, raise.
  destruct rf; simpl.
  - destruct (gitdir repo !! KartRepoFiles.MERGE_MSG) as [[txt|m]|]; simpl; [| done |].
    + destruct (if le then _ else _) as [[|a m]|]; done.
    + destruct (if le then _ else _) as [[|a m]|]; done.
  - destruct (if le then _ else _) as [[|a m]|]; done.
Qed.

(** The commit message that [move_repo_to_merging_state] leaves in
    MERGE_MSG with [write_gitdir_file] is the one that
    [get_commit_message] takes up when it reads the file: without the
    editor it returns the text as it is read back (with its final newline,
    and with LF for every CR LF and CR), also when the text written was
    empty; with the editor, that text is the draft, and the outcome is
    what the user saves.  The message of the merge context is not
    used. *)
Theorem get_commit_message_reads_what_was_written
    (text : string) (ctx : MergeContext) (t : oid) (repo : KartRepo) :
  let stored := if ends_with_newline text then text else text ++ nl in
  let read := universal_newlines stored in
  let repo' := snd (write_gitdir_file KartRepoFiles.MERGE_MSG text repo) in
  commit_message ctx t false true repo' = (Ok read, repo')
  /\ commit_message ctx t true true repo'
     = (match editor (Some read) with
        | Some (String a m) => Ok (String a m)
        | _ => Raise (UsageError "Aborting commit due to empty commit message.")
        end, repo')
  /\ (KeyFilters.str_contains CR text = false -> read = stored).
Proof.
  cbv zeta. rewrite write_gitdir_file_stores.
  set (stored := if ends_with_newline text then text else text ++ nl).
  assert (Hnl : ends_with_newline stored = true).
  { subst stored. destruct (ends_with_newline text) eqn:He; [done|].
    apply ends_with_newline_app. }
  pose proof (universal_newlines_end stored Hnl) as Hread.
  destruct (universal_newlines stored) as [|a m] eqn:Hs; [done|].
  unfold get_commit_message, bind. simpl.
  rewrite (read_gitdir_file_text KartRepoFiles.MERGE_MSG true stored)
    by apply lookup_insert_eq.
  rewrite Hs. unfold ret, raise. simpl. split; [done|]. split.
  - by destruct (editor (Some (String a m))) as [[|a' m']|].
  - intros Hplain. rewrite <- Hs. apply universal_newlines_without_CR. subst stored.
    destruct (ends_with_newline text); [done|].
    clear -Hplain. induction text as [|c text IH]; [done|].
    simpl in *. apply orb_false_iff in Hplain as [-> Htext]. by apply IH.
Qed.

(** C3 (as amended). From a repository in the MERGING state:
    with unresolved conflicts left, [complete_merging_state] raises
    [InvalidOperation] and leaves the repository as it was, still
    MERGING; with none left, once the git user check passes and a
    non-empty commit message is obtained, it creates exactly one commit,
    with parents ours then theirs, moves the head ref to it and leaves
    the repository in the NORMAL state. *)
Theorem complete_merging_state_gate
    (message : option string) (launch_editor : bool)
    (repo : KartRepo) (m : MergedIndex) (o t : oid) :
  state repo = Ok MERGING ->
  gitdir repo !! KartRepoFiles.MERGED_INDEX = Some (Index m) ->
  gitdir repo !! KartRepoFiles.MERGE_HEAD = Some (Text t) ->
  head_commit_id repo = Some o ->
  let r := fst (complete message launch_editor repo) in
  let repo' := snd (complete message launch_editor repo) in
  (size (unresolved_conflicts m) <> 0 ->
     r = Raise (InvalidOperation
           "Merge cannot be completed until all conflicts are resolved - see `kart conflicts`.")
     /\ repo' = repo /\ state repo' = Ok MERGING)
  /\ (size (unresolved_conflicts m) = 0 ->
      check_git_user repo = Ok tt ->
      forall ctx msg,
        fst (MergeContext_read_from_repo repo) = Ok ctx ->
        fst (match message with
             | Some (String a s) => ret (String a s)
             | _ => commit_message ctx (write_resolved_tree m) launch_editor true
             end repo) = Ok msg ->
        exists id c,
          r = Ok id
          /\ odb repo' = (id, c) :: odb repo
          /\ parents c = [o; t]
          /\ tree c = write_resolved_tree m
          /\ references repo' !! head_name repo = Some id
          /\ repo' = merged_repo repo id c
          /\ state repo' = Ok NORMAL).
Proof.
  intros Hst Hidx Hmh Hhead. cbv zeta.
  unfold complete_merging_state, bind, MergedIndex_read_from_repo.
  rewrite Hidx. split.
  - intros Hn. apply Nat.eqb_neq in Hn. rewrite Hn. simpl. done.
  - intros Hz Hgu ctx msg Hctx Hmsg. rewrite Hz. simpl.
    unfold call. rewrite Hgu.
    unfold MergeContext_read_from_repo in *. rewrite Hhead, Hmh in *. simpl in *.
    injection Hctx as <-. simpl in *.
    set (getmsg := match message with
                   | Some (String a s) => ret (String a s)
                   | _ => _
                   end) in *.
    assert (Hsnd : snd (getmsg repo) = repo).
    { unfold getmsg. destruct message as [[|a s]|];
        try apply get_commit_message_state. done. }
    destruct (getmsg repo) as [rm repo1] eqn:Hg. simpl in Hmsg, Hsnd. subst rm repo1.
    unfold gets, create_commit.
    rewrite remove_all_merge_files, assert_state_not_merging_ok. simpl.
    do 2 eexists. split; [reflexivity|].
    split; [reflexivity|]. split; [reflexivity|]. split; [reflexivity|].
    split; [by rewrite lookup_insert_eq|].
    split; [reflexivity|].
    apply (state_without_merge_files
             {| gitdir := gitdir repo; references := _; head_name := _;
                odb := _; wc_tree := _ |}).
Qed.

End Continue.

End MergeStateFacts.

(** ** The should-compare heuristic (kart/fast_import.py) *)

Section ShouldCompareFacts.
Import Repo FastImport.
Context {Schema : Type} `{EqDecision Schema}.
Context (diff_type_counts : Schema -> Schema -> diff_type_counts_t)
        (repo_walk : oid -> gen oid)
        (repo_datasets : option oid -> gmap string (Dataset (Schema := Schema))).

Abbreviation should_compare :=
  (should_compare_imported_features_against_old_features
     diff_type_counts repo_walk repo_datasets).
Abbreviation walk_log := (walk_until_schema_change diff_type_counts repo_datasets).

Lemma answer_pk_change old_schema src_schema :
  pk_change diff_type_counts old_schema src_schema ->
  (if decide (old_schema = src_schema) then None
   else answer_of_types (diff_type_counts old_schema src_schema)) = Some false.
Proof.
  intros [Hne Hpk]. rewrite decide_False by done. unfold answer_of_types.
  apply Nat.eqb_neq in Hpk. by rewrite Hpk.
Qed.

Lemma answer_column_change old_schema src_schema :
  column_change diff_type_counts old_schema src_schema ->
  (if decide (old_schema = src_schema) then None
   else answer_of_types (diff_type_counts old_schema src_schema)) = Some true.
Proof.
  intros (Hne & Hpk & Hcol). rewrite decide_False by done. unfold answer_of_types.
  rewrite Hpk. simpl.
  destruct Hcol as [Hi|Hd].
  - apply Nat.eqb_neq in Hi. by rewrite Hi.
  - apply Nat.eqb_neq in Hd. rewrite Hd. simpl. by rewrite orb_true_r.
Qed.

Lemma answer_no_schema_change old_schema src_schema :
  no_schema_change diff_type_counts old_schema src_schema ->
  (if decide (old_schema = src_schema) then None
   else answer_of_types (diff_type_counts old_schema src_schema)) = None.
Proof.
  intros [Heq|(Hpk & Hi & Hd)].
  - by rewrite decide_True.
  - destruct (decide (old_schema = src_schema)); [done|].
    unfold answer_of_types. by rewrite Hpk, Hi, Hd.
Qed.

(** The walk passes over the commits that show no schema change. *)
Lemma walk_log_quiet_prefix replacing_path src_schema pre rest :
  Forall (quiet_commit diff_type_counts repo_datasets replacing_path src_schema) pre ->
  walk_log (_safe_walk_repo (gen_app pre rest)) replacing_path src_schema
  = walk_log (_safe_walk_repo rest) replacing_path src_schema.
Proof.
  induction 1 as [|commit pre (ds & Hds & Hq) _ IH]; [done|].
  simpl. rewrite Hds, (answer_no_schema_change _ _ Hq). exact IH.
Qed.

(** C6. With a dataset being replaced: the heuristic answers false when
    the most recent schema change against the imported schema is a
    primary-key change and true when it is an add or drop of columns that
    keeps the primary key, be that change at the replaced dataset itself
    or at a commit of the log reached through commits without schema
    change; it answers false when the walk, without meeting a schema
    change, reaches a commit that does not have the dataset or the end of
    the log; and true when it reaches a commit that is missing. *)
Theorem should_compare_follows_most_recent_schema_change
    (source : Source) (rd : Dataset) (c : oid) (pre : list oid) (rest : gen oid) :
  let src := source_schema source in
  (pk_change diff_type_counts (schema rd) src ->
     should_compare source (Some rd) (Some c) = Ok false)
  /\ (column_change diff_type_counts (schema rd) src ->
     should_compare source (Some rd) (Some c) = Ok true)
  /\ (no_schema_change diff_type_counts (schema rd) src ->
      Forall (quiet_commit diff_type_counts repo_datasets (path rd) src) pre ->
      (forall next ds,
         repo_walk c = gen_app pre (GenYield next rest) ->
         repo_datasets (Some next) !! path rd = Some ds ->
         pk_change diff_type_counts (schema ds) src ->
         should_compare source (Some rd) (Some c) = Ok false)
      /\ (forall next ds,
         repo_walk c = gen_app pre (GenYield next rest) ->
         repo_datasets (Some next) !! path rd = Some ds ->
         column_change diff_type_counts (schema ds) src ->
         should_compare source (Some rd) (Some c) = Ok true)
      /\ (forall next,
         repo_walk c = gen_app pre (GenYield next rest) ->
         repo_datasets (Some next) !! path rd = None ->
         should_compare source (Some rd) (Some c) = Ok false)
      /\ (repo_walk c = gen_app pre GenEnd ->
         should_compare source (Some rd) (Some c) = Ok false)
      /\ (forall k,
         repo_walk c = gen_app pre (GenRaise (KeyError k)) ->
         should_compare source (Some rd) (Some c) = Ok true)).
Proof.
  cbv zeta. unfold should_compare_imported_features_against_old_features.
  split; [|split].
  - intros Hpk. by rewrite (answer_pk_change _ _ Hpk).
  - intros Hcol. by rewrite (answer_column_change _ _ Hcol).
  - intros Hq Hpre. rewrite (answer_no_schema_change _ _ Hq).
    repeat split.
    + intros next ds -> Hds Hpk.
      rewrite walk_log_quiet_prefix by done. simpl.
      by rewrite Hds, (answer_pk_change _ _ Hpk).
    + intros next ds -> Hds Hcol.
      rewrite walk_log_quiet_prefix by done. simpl.
      by rewrite Hds, (answer_column_change _ _ Hcol).
    + intros next -> Hds.
      rewrite walk_log_quiet_prefix by done. simpl. by rewrite Hds.
    + intros ->. by rewrite walk_log_quiet_prefix.
    + intros k ->. by rewrite walk_log_quiet_prefix.
Qed.

End ShouldCompareFacts.

(** ** The import stream (kart/fast_import.py) *)

Section ImportStreamFacts.
Import Repo FastImport.
Local Open Scope staterr_scope.
Local Open Scope list_scope.
Context {Schema : Type} `{EqDecision Schema}.
Context (diff_type_counts : Schema -> Schema -> diff_type_counts_t)
        (repo_walk : oid -> gen oid)
        (repo_datasets : option oid -> gmap string (Dataset (Schema := Schema)))
        (feature_blob_iter :
           Source (Schema := Schema) -> blob_mode (Schema := Schema) ->
           option (list string) ->
           gen (list string * (string * string)) * list string)
        (meta_blobs : Source (Schema := Schema) -> list (string * string)).

Lemma put_nil s : put [] s = s.
Proof. destruct s. unfold put. simpl. by rewrite app_nil_r. Qed.

Lemma put_put a b s : put b (put a s) = put (a ++ b) s.
Proof. unfold put. simpl. by rewrite app_assoc. Qed.

Lemma write_put c s : write c s = (Ok tt, put [c] s).
Proof. reflexivity. Qed.

Lemma for_each_write {A} (f : A -> command) (xs : list A) s :
  for_each xs (fun x => write (f x)) s = (Ok tt, put (map f xs) s).
Proof.
  revert s. induction xs as [|x xs IH]; intros s.
  - unfold for_each, ret. by rewrite put_nil.
  - change (for_each (x :: xs) (fun x => write (f x)) s)
      with (bind (write (f x)) (fun _ => for_each xs (fun x => write (f x))) s).
    unfold bind. rewrite write_put, IH, put_put. done.
Qed.

Lemma write_blobs_to_stream_put (blobs : list (string * string)) s :
  write_blobs_to_stream blobs (fun _ => ret tt) s
  = (Ok tt, put (map (fun b => M_inline b.1 b.2) blobs) s).
Proof.
  unfold write_blobs_to_stream.
  revert s. induction blobs as [|b blobs IH]; intros s.
  - unfold for_each, ret. by rewrite put_nil.
  - change (for_each (b :: blobs) ?f s) with (bind (f b) (fun _ => for_each blobs f) s).
    unfold bind at 1. unfold bind at 1. unfold write_blob_to_stream.
    rewrite write_put. unfold ret at 1. rewrite IH, put_put. done.
Qed.

Lemma fast_import_clear_tree_put replace_ids rd (source : Source (Schema := Schema)) s :
  fast_import_clear_tree replace_ids rd source s
  = (Ok tt, put (clear_tree_commands replace_ids rd source) s).
Proof.
  unfold fast_import_clear_tree, clear_tree_commands.
  destruct rd as [rd|]; [|unfold ret; by rewrite put_nil].
  unfold bind at 1.
  destruct replace_ids as [ids|].
  - unfold bind at 1. rewrite for_each_write, write_put, put_put.
    rewrite write_blobs_to_stream_put, put_put. done.
  - rewrite write_put, write_blobs_to_stream_put, put_put. done.
Qed.

Lemma write_feature_blob_put (already_written : bool)
    (feature_path blob_data : string) (s : ImportState) :
  (if already_written
   then copy_existing_blob_to_stream feature_path blob_data
   else write_blob_to_stream feature_path blob_data) s
  = (Ok tt, put [if already_written
                 then M_existing blob_data feature_path
                 else M_inline feature_path blob_data] s).
Proof.
  destruct already_written;
    unfold copy_existing_blob_to_stream, write_blob_to_stream;
    by rewrite write_put.
Qed.

Lemma feature_commands_cons already_written item items :
  feature_commands already_written (item :: items)
  = (map D item.1
     ++ [if already_written then M_existing item.2.2 item.2.1
         else M_inline item.2.1 item.2.2])
    ++ feature_commands already_written items.
Proof. reflexivity. Qed.

Lemma gen_app_app {A} (items more : list A) (rest : gen A) :
  gen_app (items ++ more) rest = gen_app items (gen_app more rest).
Proof. unfold gen_app. apply foldr_app. Qed.

(** The feature loop from index [i] on, when exactly [limit - i] items
    are left before the limit: the loop breaks after the last of them,
    and the iterator is not asked for what follows. *)
Lemma import_feature_blobs_limit already_written (limit : Z) items rest last_deleted :
  forall (i : Z) s,
    items <> [] ->
    (Z.of_nat (length items) = limit - i)%Z ->
    import_feature_blobs already_written (Some limit) i (gen_app items rest)
      last_deleted s
    = (Ok tt, put (feature_commands already_written items) s).
Proof.
  induction items as [|[deleted [feature_path blob_data]] items IH];
    intros i s Hne Hlen; [done|].
  simpl gen_app. simpl import_feature_blobs.
  unfold bind at 1. rewrite for_each_write.
  unfold bind at 1. rewrite write_feature_blob_put, put_put.
  rewrite feature_commands_cons. simpl fst. simpl snd.
  destruct items as [|item items].
  - simpl in Hlen. replace (i =? limit - 1)%Z with true by (symmetry; lia).
    unfold ret, feature_commands. simpl. by rewrite app_nil_r.
  - replace (i =? limit - 1)%Z with false
      by (symmetry; apply Z.eqb_neq; simpl length in Hlen; lia).
    rewrite IH; [|done|simpl length in *; lia].
    rewrite put_put. done.
Qed.

(** The same when the iterator has [limit] items or more. *)
Lemma import_feature_blobs_first already_written (N : Z) items rest last_deleted s :
  (0 < N <= Z.of_nat (length items))%Z ->
  import_feature_blobs already_written (Some N) 0 (gen_app items rest) last_deleted s
  = (Ok tt, put (feature_commands already_written (take (Z.to_nat N) items)) s).
Proof.
  intros HN.
  rewrite <- (take_drop (Z.to_nat N) items) at 1. rewrite gen_app_app.
  apply import_feature_blobs_limit.
  - intros Hnil. apply (f_equal length) in Hnil. rewrite length_take in Hnil.
    simpl in Hnil. lia.
  - rewrite length_take. lia.
Qed.

Lemma count_feature_blobs already_written items :
  length (filter (fun c => is_blob c = true) (feature_commands already_written items))
  = length items.
Proof.
  induction items as [|[deleted [p d]] items IH]; [done|].
  unfold feature_commands in *. simpl flat_map.
  rewrite !filter_app, !length_app, IH.
  assert (Hd : filter (fun c => is_blob c = true) (map D deleted) = []).
  { clear. induction deleted as [|x xs IHd]; [done|]. simpl.
    rewrite filter_cons_False; [done|]. simpl. done. }
  rewrite Hd. simpl.
  rewrite filter_cons_True; [|by destruct already_written].
  simpl. done.
Qed.

(** One call of [_import_single_source], whatever the loop over the
    features comes to. *)
Lemma import_single_source_loop
    (source : Source) (replace_existing : ReplaceExisting)
    (from_commit : option oid) (replace_ids : option (list string))
    (limit : option Z) (mode : blob_mode) (written : list command)
    (outcome : result unit) (s : ImportState) :
  choose_blob_mode diff_type_counts repo_walk repo_datasets source
    (replacing_dataset_of repo_datasets replace_existing from_commit source)
    from_commit = Ok mode ->
  (forall s0,
     import_feature_blobs (feature_blobs_already_written source) limit 0
       (feature_blob_iter source mode replace_ids).1
       (feature_blob_iter source mode replace_ids).2 s0
     = (outcome, put written s0)) ->
  _import_single_source diff_type_counts repo_walk repo_datasets
    feature_blob_iter meta_blobs source replace_existing from_commit
    replace_ids limit s
  = (outcome,
     put (clear_tree_commands replace_ids
            (replacing_dataset_of repo_datasets replace_existing from_commit source)
            source
          ++ written
          ++ match outcome with
             | Ok _ => map (fun b => M_inline b.1 b.2) (meta_blobs source)
             | Raise _ => []
             end) s).
Proof.
  intros Hmode Hloop. unfold _import_single_source.
  unfold replacing_dataset_of in *.
  destruct (decide (replace_existing = GIVEN)) as [Hg|Hg].
  - unfold bind at 1. unfold bind at 1.
    rewrite fast_import_clear_tree_put. unfold ret at 1.
    unfold bind at 1. unfold call. rewrite Hmode.
    unfold bind at 1. rewrite Hloop. destruct outcome as [[]|e].
    + by rewrite write_blobs_to_stream_put, !put_put.
    + by rewrite !put_put, app_nil_r.
  - unfold bind at 1. unfold ret at 1.
    unfold bind at 1. unfold call. rewrite Hmode.
    unfold bind at 1. rewrite Hloop. destruct outcome as [[]|e].
    + by rewrite write_blobs_to_stream_put, !put_put.
    + by rewrite app_nil_r.
Qed.

(** One call of [_import_single_source] with a limit, for a source
    whose iterator yields [items], which are as many as the limit or
    more. *)
Lemma import_single_source_limit
    (source : Source) (replace_existing : ReplaceExisting)
    (from_commit : option oid) (replace_ids : option (list string)) (N : Z)
    (items : list (list string * (string * string))) (s : ImportState) :
  (0 < N <= Z.of_nat (length items))%Z ->
  yields_first diff_type_counts repo_walk repo_datasets feature_blob_iter
    replace_existing from_commit replace_ids source items ->
  _import_single_source diff_type_counts repo_walk repo_datasets
    feature_blob_iter meta_blobs source replace_existing from_commit
    replace_ids (Some N) s
  = (Ok tt,
     put (source_commands repo_datasets meta_blobs replace_existing from_commit
            replace_ids source (take (Z.to_nat N) items) []) s).
Proof.
  intros HN (mode & rest & Hmode & Hiter).
  rewrite (import_single_source_loop source replace_existing from_commit replace_ids
             (Some N) mode
             (feature_commands (feature_blobs_already_written source)
                (take (Z.to_nat N) items))
             (Ok tt) s Hmode); [done|].
  intros s0. rewrite Hiter. by apply import_feature_blobs_first.
Qed.

(** The loop of [fast_import_tables] over the sources, with a limit. *)
Lemma import_sources_limit
    (sources : list Source)
    (items_of : Source -> list (list string * (string * string)))
    (replace_existing : ReplaceExisting) (from_commit : option oid)
    (replace_ids : option (list string)) (N : Z) (s : ImportState) :
  (0 < N)%Z ->
  (forall source, source ∈ sources ->
     yields_first diff_type_counts repo_walk repo_datasets feature_blob_iter
       replace_existing from_commit replace_ids source (items_of source)
     /\ (N <= Z.of_nat (length (items_of source)))%Z) ->
  for_each sources (fun source =>
    _import_single_source diff_type_counts repo_walk repo_datasets
      feature_blob_iter meta_blobs source replace_existing from_commit
      replace_ids (Some N)) s
  = (Ok tt,
     put (flat_map (fun source =>
                      source_commands repo_datasets meta_blobs replace_existing
                        from_commit replace_ids source
                        (take (Z.to_nat N) (items_of source)) [])
                   sources) s).
Proof.
  intros HN Hfirst.
  revert s. induction sources as [|source sources IH]; intros s.
  - unfold for_each, ret. simpl. by rewrite put_nil.
  - change (for_each (source :: sources) ?f s)
      with (bind (f source) (fun _ => for_each sources f) s).
    unfold bind at 1.
    destruct (Hfirst source) as [Hyields Hlen]; [by left|].
    rewrite (import_single_source_limit source replace_existing from_commit
               replace_ids N (items_of source) s) by (done || lia).
    rewrite IH by (intros x Hx; apply Hfirst; by right).
    rewrite put_put. done.
Qed.

(** *** An import that the limit does not cut short *)

(** The feature loop from index [i] on, over an iterator that ends after
    [items], when the limit is behind [i] or after the last item: the
    iterator is asked once more after the last item, and writes its last
    deletes. *)
Lemma import_feature_blobs_to_the_end already_written limit items last_deleted :
  forall (i : Z) s,
    match limit with
    | None => True
    | Some limit => (limit <= i \/ i + Z.of_nat (length items) < limit)%Z
    end ->
    import_feature_blobs already_written limit i (gen_app items GenEnd) last_deleted s
    = (Ok tt, put (feature_commands already_written items ++ map D last_deleted) s).
Proof.
  induction items as [|[deleted [feature_path blob_data]] items IH];
    intros i s Hlimit.
  - simpl. by rewrite for_each_write.
  - simpl gen_app. simpl import_feature_blobs.
    unfold bind at 1. rewrite for_each_write.
    unfold bind at 1. rewrite write_feature_blob_put, put_put.
    rewrite feature_commands_cons. simpl fst. simpl snd.
    replace (match limit with
             | Some limit => (i =? limit - 1)%Z
             | None => false
             end) with false.
    + rewrite IH, put_put; [by rewrite <- !app_assoc|].
      destruct limit as [limit|]; [|done].
      simpl length in Hlimit. lia.
    + destruct limit as [limit|]; [|done].
      symmetry. apply Z.eqb_neq. simpl length in Hlimit. lia.
Qed.

(** The same over an iterator that raises after [items]. *)
Lemma import_feature_blobs_raises already_written limit items last_deleted e :
  forall (i : Z) s,
    match limit with
    | None => True
    | Some limit => (limit <= i \/ i + Z.of_nat (length items) < limit)%Z
    end ->
    import_feature_blobs already_written limit i (gen_app items (GenRaise e))
      last_deleted s
    = (Raise e, put (feature_commands already_written items ++ map D last_deleted) s).
Proof.
  induction items as [|[deleted [feature_path blob_data]] items IH];
    intros i s Hlimit.
  - simpl. unfold bind. by rewrite for_each_write.
  - simpl gen_app. simpl import_feature_blobs.
    unfold bind at 1. rewrite for_each_write.
    unfold bind at 1. rewrite write_feature_blob_put, put_put.
    rewrite feature_commands_cons. simpl fst. simpl snd.
    replace (match limit with
             | Some limit => (i =? limit - 1)%Z
             | None => false
             end) with false.
    + rewrite IH, put_put; [by rewrite <- !app_assoc|].
      destruct limit as [limit|]; [|done].
      simpl length in Hlimit. lia.
    + destruct limit as [limit|]; [|done].
      symmetry. apply Z.eqb_neq. simpl length in Hlimit. lia.
Qed.

(** What [limit] does not do in [_import_single_source].  Let the
    feature blob iterator yield [items] and then end or raise, having
    written the deletes [last_deleted] of the keys it took after the last
    item.  When the limit is absent, zero or negative, or more than the
    number of items, the loop comes to the end of the iterator: if it
    ends, every item is written, then the last deletes, then the meta
    blobs (a limit of zero imports everything); if it raises, the call
    raises the same exception with the blobs of [items] and the last
    deletes in the stream and no meta blob written.  When the limit is
    the number of items, the loop stops at the last item: the iterator is
    not asked again, its last deletes are not written, and an exception
    it would have raised is not seen. *)
Theorem import_single_source_limit_not_reached
    (source : Source) (replace_existing : ReplaceExisting)
    (from_commit : option oid) (replace_ids : option (list string))
    (limit : option Z) (mode : blob_mode)
    (items : list (list string * (string * string))) (last_deleted : list string)
    (s : ImportState) :
  choose_blob_mode diff_type_counts repo_walk repo_datasets source
    (replacing_dataset_of repo_datasets replace_existing from_commit source)
    from_commit = Ok mode ->
  (feature_blob_iter source mode replace_ids = (gen_app items GenEnd, last_deleted) ->
   limit_beyond limit (S (length items)) ->
   _import_single_source diff_type_counts repo_walk repo_datasets
     feature_blob_iter meta_blobs source replace_existing from_commit
     replace_ids limit s
   = (Ok tt,
      put (source_commands repo_datasets meta_blobs replace_existing from_commit
             replace_ids source items last_deleted) s))
  /\ (forall e,
        feature_blob_iter source mode replace_ids
        = (gen_app items (GenRaise e), last_deleted) ->
        limit_beyond limit (S (length items)) ->
        _import_single_source diff_type_counts repo_walk repo_datasets
          feature_blob_iter meta_blobs source replace_existing from_commit
          replace_ids limit s
        = (Raise e,
           put (clear_tree_commands replace_ids
                  (replacing_dataset_of repo_datasets replace_existing
                     from_commit source) source
                ++ feature_commands (feature_blobs_already_written source) items
                ++ map D last_deleted)
               s))
  /\ (forall rest,
        feature_blob_iter source mode replace_ids = (gen_app items rest, last_deleted) ->
        items <> [] ->
        limit = Some (Z.of_nat (length items)) ->
        _import_single_source diff_type_counts repo_walk repo_datasets
          feature_blob_iter meta_blobs source replace_existing from_commit
          replace_ids limit s
        = (Ok tt,
           put (source_commands repo_datasets meta_blobs replace_existing from_commit
                  replace_ids source items []) s)).
Proof.
  intros Hmode. split; [|split].
  - intros Hiter Hlimit.
    rewrite (import_single_source_loop source replace_existing from_commit replace_ids
               limit mode
               (feature_commands (feature_blobs_already_written source) items
                ++ map D last_deleted)
               (Ok tt) s Hmode).
    + unfold source_commands. by rewrite <- !app_assoc.
    + intros s0. rewrite Hiter. apply import_feature_blobs_to_the_end.
      destruct limit as [limit|]; [|done]. simpl in Hlimit. lia.
  - intros e Hiter Hlimit.
    rewrite (import_single_source_loop source replace_existing from_commit replace_ids
               limit mode
               (feature_commands (feature_blobs_already_written source) items
                ++ map D last_deleted)
               (Raise e) s Hmode).
    + by rewrite app_nil_r.
    + intros s0. rewrite Hiter. apply import_feature_blobs_raises.
      destruct limit as [limit|]; [|done]. simpl in Hlimit. lia.
  - intros rest Hiter Hne ->.
    rewrite (import_single_source_loop source replace_existing from_commit replace_ids
               (Some (Z.of_nat (length items))) mode
               (feature_commands (feature_blobs_already_written source) items)
               (Ok tt) s Hmode); [done|].
    intros s0. rewrite Hiter. apply import_feature_blobs_limit; [done|lia].
Qed.

(** *** The temporary import ref of [fast_import_tables] *)

Lemma appends_ret {A} (a : A) : appends (ret a).
Proof. intros s. exists []. by rewrite put_nil. Qed.

Lemma appends_raise {A} e : appends (raise (A := A) e).
Proof. intros s. exists []. by rewrite put_nil. Qed.

Lemma appends_call {A} (f : ImportState -> result A) : appends (call f).
Proof. intros s. exists []. by rewrite put_nil. Qed.

Lemma appends_write c : appends (write c).
Proof. intros s. by exists [c]. Qed.

Lemma appends_bind {A B} (m : StateErr ImportState A) (k : A -> StateErr ImportState B) :
  appends m -> (forall a, appends (k a)) -> appends (bind m k).
Proof.
  intros Hm Hk s. unfold bind.
  destruct (Hm s) as [c1 H1]. destruct (m s) as [[a|e] s1]; simpl in H1; subst s1.
  - destruct (Hk a (put c1 s)) as [c2 H2]. exists (c1 ++ c2). by rewrite H2, put_put.
  - by exists c1.
Qed.

Lemma appends_for_each {A} (xs : list A) (f : A -> StateErr ImportState unit) :
  (forall x, appends (f x)) -> appends (for_each xs f).
Proof.
  intros Hf. induction xs as [|x xs IH].
  - apply appends_ret.
  - change (for_each (x :: xs) f) with (bind (f x) (fun _ => for_each xs f)).
    by apply appends_bind.
Qed.

Lemma appends_import_feature_blobs already_written limit it last_deleted :
  forall i, appends (import_feature_blobs already_written limit i it last_deleted).
Proof.
  induction it as [|e|[deleted [p d]] rest IH]; intros i.
  - apply appends_for_each. intros x. apply appends_write.
  - apply appends_bind; [|intros; apply appends_raise].
    apply appends_for_each. intros x. apply appends_write.
  - simpl. apply appends_bind.
    { apply appends_for_each. intros x. apply appends_write. }
    intros _. apply appends_bind.
    { destruct already_written; apply appends_write. }
    intros _. destruct limit as [l|].
    + destruct (i =? l - 1)%Z; [apply appends_ret|apply IH].
    + apply IH.
Qed.

Lemma appends_write_blobs_to_stream blobs (check : string -> StateErr ImportState unit) :
  (forall p, appends (check p)) -> appends (write_blobs_to_stream blobs check).
Proof.
  intros Hc. apply appends_for_each. intros b.
  apply appends_bind; [apply appends_write|]. intros _. apply Hc.
Qed.

Lemma appends_import_single_source source replace_existing from_commit replace_ids limit :
  appends (_import_single_source diff_type_counts repo_walk repo_datasets
             feature_blob_iter meta_blobs source replace_existing from_commit
             replace_ids limit).
Proof.
  unfold _import_single_source. apply appends_bind.
  - destruct (decide (replace_existing = GIVEN)); [|apply appends_ret].
    apply appends_bind; [|intros; apply appends_ret].
    intros s. rewrite fast_import_clear_tree_put. by eexists.
  - intros rd. apply appends_bind; [apply appends_call|]. intros mode.
    apply appends_bind; [apply appends_import_feature_blobs|]. intros _.
    apply appends_write_blobs_to_stream. intros; apply appends_ret.
Qed.

Lemma agree_except_refl names refs : agree_except names refs refs.
Proof. by intros name _. Qed.

Lemma agree_except_trans n1 n2 a b c :
  agree_except n1 a b -> agree_except n2 b c -> agree_except (n1 ++ n2) a c.
Proof.
  intros H1 H2 name Hn. rewrite H2, H1; [done| |];
    intros Hin; apply Hn, elem_of_app; auto.
Qed.

Lemma agree_except_mono n1 n2 a b :
  n1 ⊆ n2 -> agree_except n1 a b -> agree_except n2 a b.
Proof. intros Hs H1 name Hn. apply H1. intros Hin. apply Hn, Hs, Hin. Qed.

Lemma agree_except_insert name c refs :
  agree_except [name] refs (<[name := c]> refs).
Proof.
  intros n Hn. apply lookup_insert_ne. intros ->. apply Hn. by left.
Qed.

Lemma agree_except_delete name refs :
  agree_except [name] refs (base.delete name refs).
Proof.
  intros n Hn. apply lookup_delete_ne. intros ->. apply Hn. by left.
Qed.

Section Process.
Context (git_exit : list command -> Z) (git_commit : list command -> oid)
        (wait_interrupted : bool).

Lemma process_exit_refs s ref :
  header_ref (stdin s) = Some ref ->
  agree_except [ref] (references s)
    (references (process_exit git_exit git_commit s)).
Proof.
  intros Hh. unfold process_exit. rewrite Hh.
  destruct (_ && _); simpl; [apply agree_except_insert|apply agree_except_refl].
Qed.

Lemma wait_and_check_refs s ref :
  header_ref (stdin s) = Some ref ->
  agree_except [ref] (references s)
    (references (snd (wait_and_check git_exit git_commit wait_interrupted s))).
Proof.
  intros Hh. unfold wait_and_check.
  destruct wait_interrupted; [by apply process_exit_refs|].
  destruct (_ =? _)%Z; by apply process_exit_refs.
Qed.

(** A body that first writes the header and then only writes: the
    refs after [git_fast_import] are those before, but for the ref the
    header names. *)
Lemma git_fast_import_refs ref msg from (rest : StateErr ImportState unit) s :
  appends rest ->
  agree_except [ref] (references s)
    (references (snd (git_fast_import git_exit git_commit wait_interrupted
                        (bind (write (Header ref msg from)) (fun _ => rest)) s))).
Proof.
  intros Hrest. unfold git_fast_import.
  set (p := {| references := references s; stdin := [] |}).
  unfold bind at 1. rewrite write_put.
  destruct (Hrest (put [Header ref msg from] p)) as [cmds Hc].
  destruct (rest (put [Header ref msg from] p)) as [[[]|e] s1]; simpl in Hc; subst s1.
  - unfold bind. rewrite write_put, !put_put.
    apply (wait_and_check_refs (put _ p)). done.
  - destruct e; try (simpl; apply agree_except_refl).
    rewrite put_put. apply (wait_and_check_refs (put _ p)). done.
Qed.
End Process.

Lemma bind_pure {A B} (m : StateErr ImportState A) (k : A -> StateErr ImportState B) s :
  pure m ->
  bind m k s = match fst (m s) with
               | Ok a => k a s
               | Raise e => (Raise e, s)
               end.
Proof.
  intros Hm. unfold bind. specialize (Hm s).
  destruct (m s) as [[a|e] s1]; simpl in *; by subst.
Qed.

Lemma pure_ret {A} (a : A) : pure (ret a).
Proof. done. Qed.

Lemma pure_raise {A} e : pure (raise (A := A) e).
Proof. done. Qed.

Lemma pure_call {A} (f : ImportState -> result A) : pure (call f).
Proof. done. Qed.

Lemma pure_bind {A B} (m : StateErr ImportState A) (k : A -> StateErr ImportState B) :
  pure m -> (forall a, pure (k a)) -> pure (bind m k).
Proof.
  intros Hm Hk s. rewrite bind_pure by done.
  destruct (m s).1; [apply Hk|done].
Qed.

Lemma pure_for_each {A} (xs : list A) (f : A -> StateErr ImportState unit) :
  (forall x, pure (f x)) -> pure (for_each xs f).
Proof.
  intros Hf. induction xs as [|x xs IH]; [done|].
  change (for_each (x :: xs) f) with (bind (f x) (fun _ => for_each xs f)).
  by apply pure_bind.
Qed.

Ltac solve_pure :=
  first [ apply pure_ret | apply pure_raise | apply pure_call
        | intros ?; reflexivity ].

Lemma pure_revparse_single ref : pure (revparse_single ref).
Proof. intros s. unfold revparse_single. by destruct (references s !! ref). Qed.

Section ImportRef.
Context (git_exit : list command -> Z) (git_commit : list command -> oid)
        (wait_interrupted : bool) (uuid4 : string)
        (peel_tree : oid -> oid) (empty_tree : oid)
        (tree_contains : oid -> string -> bool)
        (extra_blobs_for_version : list (string * string))
        (head_branch : option string)
        (check_valid : list (Source (Schema := Schema)) -> result unit)
        (wrap_sources_if_needed :
           list (Source (Schema := Schema)) -> list (Source (Schema := Schema)))
        (aggregate_import_source_desc : list (Source (Schema := Schema)) -> string)
        (commit_with_tree : oid -> oid -> oid).

Abbreviation import_tables :=
  (fast_import_tables diff_type_counts repo_walk repo_datasets feature_blob_iter
     meta_blobs git_exit git_commit wait_interrupted uuid4 peel_tree empty_tree
     tree_contains extra_blobs_for_version head_branch check_valid
     wrap_sources_if_needed aggregate_import_source_desc commit_with_tree).

(** After the [finally] the import ref is gone, the outcome of the
    body stands, and no other ref has changed. *)
Lemma try_finally_remove_import_ref {A} (body : StateErr ImportState A) ref s :
  let out := try_finally body (remove_import_ref (Some ref)) s in
  fst out = fst (body s)
  /\ references (snd out) !! ref = None
  /\ agree_except [ref] (references (snd (body s))) (references (snd out)).
Proof.
  unfold try_finally, remove_import_ref.
  destruct (body s) as [r s1]. simpl.
  destruct (bool_decide (is_Some (references s1 !! ref))) eqn:Hin; simpl.
  - split; [done|]. split; [apply lookup_delete_eq|apply agree_except_delete].
  - split; [done|]. split; [|apply agree_except_refl].
    apply bool_decide_eq_false in Hin. by apply eq_None_not_Some.
Qed.

(** The temporary ref of [fast_import_tables]: when no header is
    handed in, the import writes to [refs/kart-import/<uuid4>]; if that
    name is not in use before, it is not a ref after, on any exit; an
    import that raises has changed no other ref, and one that returns
    has changed, of the other refs, at most the head branch (or HEAD). *)
Theorem fast_import_tables_removes_import_ref
    sources message replace_existing from_commit replace_ids allow_empty limit s :
  let import_ref := "refs/kart-import/" +:+ uuid4 in
  let out := import_tables sources message replace_existing from_commit
               replace_ids allow_empty limit None s in
  references s !! import_ref = None ->
  references (snd out) !! import_ref = None
  /\ (is_ok (fst out) = false ->
      agree_except [import_ref] (references s) (references (snd out)))
  /\ (is_ok (fst out) = true ->
      agree_except [import_ref; default "HEAD" head_branch]
        (references s) (references (snd out))).
Proof.
  intros import_ref out Hfresh. subst out. unfold fast_import_tables.
  (* what comes before the [try] leaves the state alone *)
  rewrite bind_pure
    by (destruct replace_existing, from_commit; solve_pure).
  destruct (fst (_ s)) as [fc|e] eqn:Hfc; simpl;
    [|split; [exact Hfresh|]; split; [intros _; apply agree_except_refl|intros [=]]].
  clear Hfc.
  rewrite bind_pure by apply pure_call.
  unfold call at 1. simpl.
  destruct (check_valid sources) as [[]|e]; simpl;
    [|split; [exact Hfresh|]; split; [intros _; apply agree_except_refl|intros [=]]].
  rewrite bind_pure.
  2:{ destruct (decide (replace_existing = DONT_REPLACE)); [|solve_pure].
      apply pure_bind.
      - apply pure_for_each. intros x. destruct (tree_contains _ _); solve_pure.
      - intros _. destruct replace_ids; solve_pure. }
  destruct (fst (_ s)) as [[]|e] eqn:Hpre; simpl;
    [|split; [exact Hfresh|]; split; [intros _; apply agree_except_refl|intros [=]]].
  clear Hpre.
  (* the [try ... finally] *)
  match goal with
  | |- context [try_finally ?b _ s] => set (body := b)
  end.
  destruct (try_finally_remove_import_ref body import_ref s) as (Hr & Hnone & Hag).
  fold import_ref. rewrite Hr. split; [exact Hnone|].
  assert (Hbody : forall r sb, body s = (r, sb) ->
    (is_ok r = false -> agree_except [import_ref] (references s) (references sb))
    /\ (is_ok r = true ->
       agree_except [import_ref; default "HEAD" head_branch]
         (references s) (references sb))).
  { intros r sb Hb. subst body. rewrite bind_pure in Hb by apply pure_call.
    unfold call at 1 in Hb. simpl in Hb.
    destruct (generate_header _ _ _ _ _) as [h|e] eqn:Hh; simpl in Hb;
      [|injection Hb as <- <-; split; [intros _; apply agree_except_refl|intros [=]]].
    assert (Hhd : exists msg, h = Header import_ref msg fc).
    { unfold generate_header in Hh.
      destruct (match message with None => _ | Some m => _ end); simpl in Hh;
        [|done]. injection Hh as <-. by eexists. }
    destruct Hhd as [msg ->].
    unfold bind at 1 in Hb.
    match type of Hb with
    | context [git_fast_import _ _ _ (bind (write _) (fun _ => ?rest)) s] =>
        pose proof (git_fast_import_refs git_exit git_commit wait_interrupted
                      import_ref msg fc rest s) as Hgit
    end.
    match type of Hgit with
    | ?P -> _ => assert (Happ : P)
    end.
    { apply appends_bind.
      - apply appends_write_blobs_to_stream. intros p.
        destruct (_ && _); [apply appends_raise|apply appends_ret].
      - intros _. apply appends_for_each. intros x.
        apply appends_import_single_source. }
    specialize (Hgit Happ). clear Happ.
    destruct (git_fast_import _ _ _ _ s) as [[[]|e] s1]; simpl in Hgit, Hb;
      [|injection Hb as <- <-; split; [intros _; exact Hgit|intros [=]]].
    rewrite bind_pure in Hb by apply pure_revparse_single.
    destruct (fst (revparse_single _ s1)) as [c|e]; simpl in Hb;
      [|injection Hb as <- <-; split; [intros _; exact Hgit|intros [=]]].
    rewrite bind_pure in Hb by (destruct (_ && _); solve_pure).
    destruct (_ && _); simpl in Hb;
      [injection Hb as <- <-; split; [intros _; exact Hgit|intros [=]]|].
    injection Hb as <- <-.
    split; [intros [=]|]. intros _.
    apply (agree_except_trans [import_ref] [default "HEAD" head_branch] _ _ _ Hgit).
    apply agree_except_insert. }
  destruct (body s) as [r sb] eqn:Hb.
  destruct (Hbody r sb eq_refl) as [Hraise Hok]. simpl in Hag |- *. split.
  - intros Hf. specialize (Hraise Hf).
    apply (agree_except_mono ([import_ref] ++ [import_ref]));
      [intros x; rewrite elem_of_app, !elem_of_cons; tauto|].
    by apply (agree_except_trans _ _ _ _ _ Hraise).
  - intros Ht. specialize (Hok Ht).
    apply (agree_except_mono ([import_ref; default "HEAD" head_branch] ++ [import_ref]));
      [intros x; rewrite elem_of_app, !elem_of_cons; tauto|].
    by apply (agree_except_trans _ _ _ _ _ Hok).
Qed.

(** *** The checks before the import, and an import without a limit *)

Lemma for_each_raises_at {A} (pre post : list A) (x : A)
    (body : A -> StateErr ImportState unit) e s :
  (forall y, y ∈ pre -> body y s = (Ok tt, s)) ->
  body x s = (Raise e, s) ->
  for_each (pre ++ x :: post) body s = (Raise e, s).
Proof.
  intros Hpre Hx. induction pre as [|y pre IH]; simpl.
  - change (for_each (x :: post) body) with (bind (body x) (fun _ => for_each post body)).
    unfold bind. by rewrite Hx.
  - change (for_each (y :: pre ++ x :: post) body)
      with (bind (body y) (fun _ => for_each (pre ++ x :: post) body)).
    unfold bind. rewrite (Hpre y) by (apply elem_of_cons; by left).
    apply IH. intros z Hz. apply Hpre, elem_of_cons. by right.
Qed.

(** What [fast_import_tables] checks before it starts git-fast-import.
    An import that does not replace everything and is given no
    [from_commit] raises [RuntimeError]; an error of [check_valid] is
    passed on; and with [DONT_REPLACE], the first source whose destination
    is already in the tree of [from_commit] makes the import raise
    [InvalidOperation].  In each case nothing has been written: the refs
    and the stream are as before. *)
Theorem fast_import_tables_checks_first
    sources message replace_existing from_commit replace_ids allow_empty limit header s :
  let out := fast_import_tables diff_type_counts repo_walk repo_datasets
               feature_blob_iter meta_blobs git_exit git_commit wait_interrupted
               uuid4 peel_tree empty_tree tree_contains extra_blobs_for_version
               head_branch check_valid wrap_sources_if_needed
               aggregate_import_source_desc commit_with_tree
               sources message replace_existing from_commit
               replace_ids allow_empty limit header s in
  (replace_existing <> ALL -> from_commit = UNSPECIFIED ->
   out = (Raise (OtherError
            "Caller should specify from_commit when requesting an import that doesn't start from scratch"),
          s))
  /\ (forall e, replace_existing = ALL \/ from_commit <> UNSPECIFIED ->
                check_valid sources = Raise e -> out = (Raise e, s))
  /\ (forall c pre source post,
        replace_existing = DONT_REPLACE -> from_commit = FromCommit c ->
        check_valid sources = Ok tt ->
        sources = pre ++ source :: post ->
        let from_tree := match c with
                         | Some c => peel_tree c
                         | None => empty_tree
                         end in
        (forall x, x ∈ pre -> tree_contains from_tree (dest_path x) = false) ->
        tree_contains from_tree (dest_path source) = true ->
        out = (Raise (InvalidOperation
                 ("Cannot import to " +:+ dest_path source
                  +:+ "/ - already exists in repository")), s)).
Proof.
  intros out. subst out. unfold fast_import_tables. split; [|split].
  - intros Hall ->. unfold bind at 1. by destruct replace_existing.
  - intros e Hfc Hcv. unfold bind at 1.
    assert (Hpre : exists c,
              match replace_existing with
              | ALL => ret None
              | _ => match from_commit with
                     | UNSPECIFIED =>
                         raise (OtherError
                           "Caller should specify from_commit when requesting an import that doesn't start from scratch")
                     | FromCommit c => ret c
                     end
              end s = (Ok c, s)).
    { destruct replace_existing, from_commit as [|c];
        try (by eexists); destruct Hfc as [?|?]; done. }
    destruct Hpre as [c ->]. unfold bind at 1. unfold call at 1. by rewrite Hcv.
  - intros c pre source post -> -> Hcv -> Hpre Hsource.
    unfold bind at 1. unfold ret at 1. unfold bind at 1. unfold call at 1.
    rewrite Hcv. unfold bind at 1. rewrite decide_True by done.
    unfold bind at 1.
    rewrite (for_each_raises_at pre post source _
               (InvalidOperation ("Cannot import to " +:+ dest_path source
                                  +:+ "/ - already exists in repository"))).
    + done.
    + intros x Hx. cbv beta. by rewrite (Hpre x Hx).
    + cbv beta. by rewrite Hsource.
Qed.

(** *** An import with a limit *)

Lemma bind_returns {A B} (m : StateErr ImportState A)
    (k : A -> StateErr ImportState B) s a s' :
  m s = (Ok a, s') -> bind m k s = k a s'.
Proof. intros Hm. unfold bind. by rewrite Hm. Qed.

Lemma for_each_passes {A} (xs : list A) (body : A -> StateErr ImportState unit) s :
  (forall x, x ∈ xs -> body x s = (Ok tt, s)) -> for_each xs body s = (Ok tt, s).
Proof.
  intros Hbody. induction xs as [|x xs IH]; [done|].
  change (for_each (x :: xs) body) with (bind (body x) (fun _ => for_each xs body)).
  rewrite (bind_returns _ _ s tt s) by (apply Hbody; by left).
  apply IH. intros y Hy. apply Hbody. by right.
Qed.

Lemma write_blobs_to_stream_checked (blobs : list (string * string))
    (check : string -> StateErr ImportState unit) s :
  (forall blob s0, blob ∈ blobs -> check blob.1 s0 = (Ok tt, s0)) ->
  write_blobs_to_stream blobs check s
  = (Ok tt, put (map (fun b => M_inline b.1 b.2) blobs) s).
Proof.
  unfold write_blobs_to_stream.
  revert s. induction blobs as [|b blobs IH]; intros s Hcheck.
  - unfold for_each, ret. by rewrite put_nil.
  - change (for_each (b :: blobs) ?f s) with (bind (f b) (fun _ => for_each blobs f) s).
    unfold bind at 1. unfold bind at 1. unfold write_blob_to_stream.
    rewrite write_put, Hcheck by (by left).
    rewrite IH by (intros blob s0 Hblob; apply Hcheck; by right).
    by rewrite put_put.
Qed.

Lemma keeps_stdin_pure {A} (m : StateErr ImportState A) : pure m -> keeps_stdin m.
Proof. intros Hm s. by rewrite Hm. Qed.

Lemma keeps_stdin_bind {A B} (m : StateErr ImportState A)
    (k : A -> StateErr ImportState B) :
  keeps_stdin m -> (forall a, keeps_stdin (k a)) -> keeps_stdin (bind m k).
Proof.
  intros Hm Hk s. unfold bind. specialize (Hm s).
  destruct (m s) as [[a|e] s1]; simpl in *; [|done]. by rewrite Hk.
Qed.

Lemma stdin_bind {A B} (m : StateErr ImportState A)
    (k : A -> StateErr ImportState B) s :
  (forall a, keeps_stdin (k a)) -> stdin (snd (bind m k s)) = stdin (snd (m s)).
Proof.
  intros Hk. unfold bind. destruct (m s) as [[a|e] s1]; simpl; [apply Hk|done].
Qed.

Lemma keeps_stdin_remove_import_ref import_ref :
  keeps_stdin (remove_import_ref import_ref).
Proof.
  intros s. destruct import_ref as [ref|]; [|done]. unfold remove_import_ref.
  by destruct (bool_decide _).
Qed.

Lemma stdin_try_finally {A} (body : StateErr ImportState A) import_ref s :
  stdin (snd (try_finally body (remove_import_ref import_ref) s))
  = stdin (snd (body s)).
Proof.
  unfold try_finally. destruct (body s) as [r s1].
  pose proof (keeps_stdin_remove_import_ref import_ref s1) as Hkeeps.
  by destruct (remove_import_ref import_ref s1) as [[[]|e] s2].
Qed.

Lemma keeps_stdin_wait_and_check :
  keeps_stdin (wait_and_check git_exit git_commit wait_interrupted).
Proof.
  intros s. unfold wait_and_check.
  assert (Hexit : stdin (process_exit git_exit git_commit s) = stdin s).
  { unfold process_exit. destruct (_ && _); [|done]. by destruct (header_ref _). }
  destruct wait_interrupted; [done|]. by destruct (_ =? _)%Z.
Qed.

(** The stream of a [git_fast_import] whose body writes [cmds] and
    returns. *)
Lemma git_fast_import_stream (body : StateErr ImportState unit) cmds s :
  (forall p, body p = (Ok tt, put cmds p)) ->
  stdin (snd (git_fast_import git_exit git_commit wait_interrupted body s))
  = cmds ++ [Done].
Proof.
  intros Hbody. unfold git_fast_import. rewrite Hbody.
  unfold bind. rewrite write_put, put_put.
  by rewrite keeps_stdin_wait_and_check.
Qed.

(** C8. [fast_import_tables] with [limit = N > 0], when its checks
    pass (the commit to start from is given, or everything is replaced;
    [check_valid] accepts the sources; with [DONT_REPLACE], no
    destination is in the tree yet and no keys are to be replaced; the
    header is there or can be generated; no blob of the repository
    version is in the tree) and the feature blob iterator of every source
    yields [N] items or more.  Then whatever becomes of git-fast-import,
    the stream that was written is: the header, the blobs of the
    repository version, then source after source the commands that clear
    its tree, the blobs of its first [N] items, the iterator not being
    asked for more, and its meta blobs, and then [done].  So for every
    source exactly [N] feature blobs are written, the count starting
    afresh with each. *)
Theorem fast_import_tables_stops_at_limit
    (sources : list Source) (message : option string)
    (replace_existing : ReplaceExisting) (from_commit : from_commit_arg)
    (replace_ids : option (list string)) (allow_empty : bool) (N : Z)
    (header : option command) (s : ImportState)
    (c : option oid) (first : command)
    (items_of : Source -> list (list string * (string * string))) :
  let from_tree := match c with
                   | Some c => peel_tree c
                   | None => empty_tree
                   end in
  let extra_blobs := match c with
                     | Some _ => []
                     | None => extra_blobs_for_version
                     end in
  let wrapped := wrap_sources_if_needed sources in
  (0 < N)%Z ->
  (replace_existing = ALL /\ c = None)
  \/ (replace_existing <> ALL /\ from_commit = FromCommit c) ->
  check_valid sources = Ok tt ->
  (replace_existing = DONT_REPLACE ->
   replace_ids = None
   /\ forall source, source ∈ sources ->
                     tree_contains from_tree (dest_path source) = false) ->
  match header with
  | Some h => Ok h
  | None => generate_header aggregate_import_source_desc wrapped message
              ("refs/kart-import/" +:+ uuid4) c
  end = Ok first ->
  (replace_existing <> ALL ->
   forall blob, blob ∈ extra_blobs -> tree_contains from_tree blob.1 = false) ->
  (forall source, source ∈ wrapped ->
     yields_first diff_type_counts repo_walk repo_datasets feature_blob_iter
       replace_existing c replace_ids source (items_of source)
     /\ (N <= Z.of_nat (length (items_of source)))%Z) ->
  stdin (snd (fast_import_tables diff_type_counts repo_walk repo_datasets
                feature_blob_iter meta_blobs git_exit git_commit wait_interrupted
                uuid4 peel_tree empty_tree tree_contains extra_blobs_for_version
                head_branch check_valid wrap_sources_if_needed
                aggregate_import_source_desc commit_with_tree
                sources message replace_existing from_commit
                replace_ids allow_empty (Some N) header s))
  = first
    :: map (fun b => M_inline b.1 b.2) extra_blobs
    ++ flat_map (fun source =>
                   source_commands repo_datasets meta_blobs replace_existing c
                     replace_ids source (take (Z.to_nat N) (items_of source)) [])
                wrapped
    ++ [Done]
  /\ forall source, source ∈ wrapped ->
       Z.of_nat (length (filter (fun cmd => is_blob cmd = true)
                           (feature_commands (feature_blobs_already_written source)
                              (take (Z.to_nat N) (items_of source)))))
       = N.
Proof.
  intros from_tree extra_blobs wrapped HN Hfrom Hvalid Hdont Hheader Hextra Hitems.
  split.
  2:{ intros source Hsource. rewrite count_feature_blobs, length_take.
      destruct (Hitems source Hsource) as [_ Hlen]. lia. }
  unfold fast_import_tables.
  rewrite (bind_returns _ _ s c s)
    by (destruct Hfrom as [[-> ->]|[Hne ->]]; [done|by destruct replace_existing]).
  rewrite (bind_returns _ _ s tt s) by (unfold call; by rewrite Hvalid).
  rewrite (bind_returns _ _ s tt s).
  2:{ destruct (decide (replace_existing = DONT_REPLACE)) as [Hd|Hd]; [|done].
      destruct (Hdont Hd) as [-> Hfree].
      rewrite (bind_returns _ _ s tt s); [done|].
      apply for_each_passes. intros source Hsource. cbv beta.
      fold from_tree. by rewrite (Hfree source Hsource). }
  rewrite stdin_try_finally. fold wrapped from_tree extra_blobs.
  rewrite (bind_returns _ _ s first s).
  2:{ destruct header as [h|]; [by injection Hheader as ->|].
      unfold call. by rewrite Hheader. }
  rewrite stdin_bind.
  2:{ intros _. destruct header as [h|]; [done|].
      apply keeps_stdin_bind; [apply keeps_stdin_pure, pure_revparse_single|].
      intros existing. apply keeps_stdin_bind; [|done].
      apply keeps_stdin_pure. destruct (_ && _); solve_pure. }
  rewrite (git_fast_import_stream _
             (first :: map (fun b => M_inline b.1 b.2) extra_blobs
              ++ flat_map (fun source =>
                             source_commands repo_datasets meta_blobs replace_existing
                               c replace_ids source
                               (take (Z.to_nat N) (items_of source)) [])
                          wrapped));
    [simpl; by rewrite <- app_assoc|].
  intros p. unfold bind at 1. rewrite write_put.
  unfold bind at 1. rewrite write_blobs_to_stream_checked.
  2:{ intros blob s0 Hblob. destruct (bool_decide (replace_existing = ALL)) eqn:Hall;
        [done|]. apply bool_decide_eq_false in Hall. simpl.
      by rewrite (Hextra Hall blob Hblob). }
  rewrite (import_sources_limit wrapped items_of replace_existing c replace_ids N _ HN
             Hitems).
  by rewrite !put_put.
Qed.

End ImportRef.

End ImportStreamFacts.

(** ** The temporary ref of [import_tiles] (kart/tile/importer.py) *)

Section ImportTilesFacts.
Import Repo FastImport.
Local Open Scope staterr_scope.
Local Open Scope list_scope.
Context (git_exit : list command -> Z) (git_commit : list command -> oid)
        (uuid4 : string) (head_commit : option oid) (head_commit_message : string)
        (head_tree : option oid) (head_branch : string) (peel_tree : oid -> oid)
        (default_message : string) (extra_blobs : list (string * string))
        (tilename_to_blob_path : string -> string)
        (tree_contains : option oid -> string -> bool)
        (tile_pointer_blobs : gen (string * string))
        (check_for_non_homogenous_metadata : result unit)
        (meta_blobs : list (string * string)) (amended_commit : oid -> oid)
        (unlink_local_copies configure_do_checkout_datasets reset_to_head :
           result unit).





End ImportTilesFacts.

(** ** Key filters (kart/key_filters.py) *)

Section KeyFilterFacts.
Import KeyFilters.

Lemma frozen_refl h : frozen h h.
Proof. by intros r o. Qed.

Lemma frozen_trans h1 h2 h3 : frozen h1 h2 -> frozen h2 h3 -> frozen h1 h3.
Proof. intros H12 H23 r o Hr Hm. apply H23; [by apply H12|done]. Qed.

(** Writing to an object that does not match all, or to a new address. *)
Lemma frozen_insert h self o' :
  (forall o, h !! self = Some o -> match_all_of o = false) ->
  frozen h (<[self := o']> h).
Proof.
  intros Hself r o Hr Hm.
  destruct (decide (self = r)) as [->|Hne].
  - rewrite (Hself o Hr) in Hm. discriminate.
  - by rewrite lookup_insert_ne.
Qed.

Lemma new_object_frozen o h : frozen h (snd (new_object o h)).
Proof.
  unfold new_object. simpl. apply frozen_insert. intros o' Ho'.
  exfalso. apply (is_fresh (dom h)). apply elem_of_dom. by eexists.
Qed.

Lemma ensure_child_type_heap o v h : snd (ensure_child_type o v h) = h.
Proof.
  unfold ensure_child_type, bind, deref.
  destruct (h !! v) as [c|]; [|done]. by destruct o, c.
Qed.

Lemma UserStringKeyFilter_add_frozen self key h :
  frozen h (snd (UserStringKeyFilter_add self key h)).
Proof.
  unfold UserStringKeyFilter_add, bind, deref.
  destruct (h !! self) as [[elems [] | data m | data m globs]|] eqn:Hs; simpl;
    try apply frozen_refl.
  apply frozen_insert. intros o. rewrite Hs. by intros [= <-].
Qed.

Lemma KeyFilterDict_setitem_frozen self key value h :
  frozen h (snd (KeyFilterDict_setitem self key value h)).
Proof.
  unfold KeyFilterDict_setitem, bind, deref.
  destruct (h !! self) as [[elems m | data [] | data [] globs]|] eqn:Hs; simpl;
    try apply frozen_refl.
  - (* a DatasetKeyFilter that does not match all *)
    pose proof (ensure_child_type_heap (DatasetKeyFilter data false) value h) as He.
    destruct (ensure_child_type _ value h) as [[[]|e] h1]; simpl in He; subst h1;
      [|apply frozen_refl].
    apply frozen_insert. intros o. rewrite Hs. by intros [= <-].
  - (* a RepoKeyFilter that does not match all *)
    set (key' := if str_contains "*" key then escape_glob key else key).
    set (globs' := if str_contains "*" key then _ else globs).
    set (h1 := <[self := RepoKeyFilter data false globs']> h).
    assert (H1 : frozen h h1).
    { apply frozen_insert. intros o. rewrite Hs. by intros [= <-]. }
    pose proof (ensure_child_type_heap (RepoKeyFilter data false globs') value h1) as He.
    destruct (ensure_child_type _ value h1) as [[[]|e] h2]; simpl in He; subst h2;
      [|exact H1].
    apply (frozen_trans _ _ _ H1).
    apply frozen_insert. intros o. unfold h1. rewrite lookup_insert_eq.
    by intros [= <-].
Qed.

Lemma KeyFilterDict_getitem_heap self key h :
  snd (KeyFilterDict_getitem self key h) = h.
Proof.
  unfold KeyFilterDict_getitem, bind, deref.
  destruct (h !! self) as [[elems m | data [] | data [] globs]|]; simpl; try done.
  - by destruct (data !! key).
  - destruct (data !! key); [done|].
    by destruct (_dataset_glob_pattern_matching_key globs key) as [[? ?]|].
Qed.

Lemma ignore_heap {A} (m : StateErr heap A) h : snd (ignore m h) = snd (m h).
Proof. unfold ignore, bind. by destruct (m h) as [[a|e] h1]. Qed.

Lemma UserStringKeyFilter_contains_heap self key h :
  snd (UserStringKeyFilter_contains self key h) = h.
Proof.
  unfold UserStringKeyFilter_contains, bind, deref.
  by destruct (h !! self) as [[elems [] | data m | data m globs]|].
Qed.

Lemma KeyFilterDict_contains_heap self key h :
  snd (KeyFilterDict_contains self key h) = h.
Proof.
  unfold KeyFilterDict_contains, bind, deref.
  by destruct (h !! self) as [[elems m | data m | data m globs]|].
Qed.

Lemma KeyFilterDict_get_heap self key d h :
  snd (KeyFilterDict_get self key d h) = h.
Proof.
  unfold KeyFilterDict_get.
  pose proof (KeyFilterDict_getitem_heap self key h) as Hg.
  destruct (KeyFilterDict_getitem self key h) as [[r|e] h1]; simpl in *; subst;
    [done|]. by destruct e.
Qed.

Lemma run_op_frozen o h : frozen h (snd (run_op o h)).
Proof.
  destruct o; unfold run_op; rewrite ?ignore_heap.
  - apply new_object_frozen.
  - apply new_object_frozen.
  - apply new_object_frozen.
  - rewrite UserStringKeyFilter_contains_heap. apply frozen_refl.
  - apply UserStringKeyFilter_add_frozen.
  - rewrite KeyFilterDict_contains_heap. apply frozen_refl.
  - rewrite KeyFilterDict_getitem_heap. apply frozen_refl.
  - rewrite KeyFilterDict_get_heap. apply frozen_refl.
  - apply KeyFilterDict_setitem_frozen.
Qed.

Lemma run_ops_frozen ops h : frozen h (run_ops ops h).
Proof.
  unfold run_ops. revert h. induction ops as [|o ops IH]; intros h.
  - apply frozen_refl.
  - simpl. eapply frozen_trans; [apply run_op_frozen|apply IH].
Qed.

Lemma initial_heap_match_all r o :
  initial_heap !! r = Some o -> match_all_of o = true.
Proof.
  unfold initial_heap. intros Hr.
  repeat (apply lookup_insert_Some in Hr as [[_ <-]|[_ Hr]]; [done|]).
  by rewrite lookup_empty in Hr.
Qed.

(** *** Globs of plain characters and one final star *)

Lemma string_app_cons c s t : String c s +:+ t = String c (s +:+ t).
Proof. reflexivity. Qed.

Lemma string_app_assoc a b c : a +:+ b +:+ c = (a +:+ b) +:+ c.
Proof.
  induction a as [|x a IH]; [done|]. rewrite !string_app_cons. by rewrite IH.
Qed.


Lemma str_replace_app char new s t :
  str_replace char new (s +:+ t) = str_replace char new s +:+ str_replace char new t.
Proof.
  induction s as [|c s IH]; [done|].
  rewrite string_app_cons. cbn [str_replace].
  destruct (Ascii.eqb c char); rewrite IH.
  - apply string_app_assoc.
  - by rewrite string_app_cons.
Qed.







(** C10. An object that matches all is never changed by any sequence of
    operations on any objects: it keeps [match_all] and its (no) entries.
    It answers [True] to every containment test, every lookup in it gives
    the match-all child of its class, which itself still matches all, and
    an item assignment or an [add] on it returns without changing
    anything. *)
Theorem match_all_filter_never_changes (h : heap) (ops : list op) (r : ref) (o : obj) :
  initial_heap ⊆ h ->
  h !! r = Some o ->
  match_all_of o = true ->
  let h' := run_ops ops h in
  h' !! r = Some o
  /\ initial_heap ⊆ h'
  /\ match o with
     | UserStringKeyFilter _ _ =>
         (forall key, UserStringKeyFilter_contains r key h' = (Ok true, h'))
         /\ (forall key, UserStringKeyFilter_add r key h' = (Ok tt, h'))
     | DatasetKeyFilter _ _ =>
         (forall key, KeyFilterDict_contains r key h' = (Ok true, h'))
         /\ (forall key,
               KeyFilterDict_getitem r key h'
               = (Ok DatasetKeyFilter_child_that_matches_all, h'))
         /\ (forall key d,
               KeyFilterDict_get r key d h'
               = (Ok (Some DatasetKeyFilter_child_that_matches_all), h'))
         /\ h' !! DatasetKeyFilter_child_that_matches_all
            = Some (UserStringKeyFilter ∅ true)
         /\ (forall key value, KeyFilterDict_setitem r key value h' = (Ok tt, h'))
     | RepoKeyFilter _ _ _ =>
         (forall key, KeyFilterDict_contains r key h' = (Ok true, h'))
         /\ (forall key,
               KeyFilterDict_getitem r key h'
               = (Ok RepoKeyFilter_child_that_matches_all, h'))
         /\ (forall key d,
               KeyFilterDict_get r key d h'
               = (Ok (Some RepoKeyFilter_child_that_matches_all), h'))
         /\ h' !! RepoKeyFilter_child_that_matches_all
            = Some (DatasetKeyFilter ∅ true)
         /\ (forall key value, KeyFilterDict_setitem r key value h' = (Ok tt, h'))
     end.
Proof.
  intros Hinit Hr Hm h'.
  pose proof (run_ops_frozen ops h) as Hf. fold h' in Hf.
  assert (Hr' : h' !! r = Some o) by by apply Hf.
  assert (Hinit' : initial_heap ⊆ h').
  { apply map_subseteq_spec. intros i x Hi. apply Hf.
    - by apply (proj1 (map_subseteq_spec _ _) Hinit).
    - by apply (initial_heap_match_all i). }
  split; [done|]. split; [done|].
  destruct o as [elems m | data m | data m globs]; simpl in Hm; subst m.
  - split; intros key.
    + unfold UserStringKeyFilter_contains, bind, deref. by rewrite Hr'.
    + unfold UserStringKeyFilter_add, bind, deref. by rewrite Hr'.
  - assert (Hg : forall key, KeyFilterDict_getitem r key h'
                             = (Ok DatasetKeyFilter_child_that_matches_all, h')).
    { intros key. unfold KeyFilterDict_getitem, bind, deref. by rewrite Hr'. }
    repeat split.
    + intros key. unfold KeyFilterDict_contains, bind, deref. by rewrite Hr'.
    + exact Hg.
    + intros key d. unfold KeyFilterDict_get. by rewrite Hg.
    + by apply (proj1 (map_subseteq_spec _ _) Hinit').
    + intros key value. unfold KeyFilterDict_setitem, bind, deref. by rewrite Hr'.
  - assert (Hg : forall key, KeyFilterDict_getitem r key h'
                             = (Ok RepoKeyFilter_child_that_matches_all, h')).
    { intros key. unfold KeyFilterDict_getitem, bind, deref. by rewrite Hr'. }
    repeat split.
    + intros key. unfold KeyFilterDict_contains, bind, deref. by rewrite Hr'.
    + exact Hg.
    + intros key d. unfold KeyFilterDict_get. by rewrite Hg.
    + by apply (proj1 (map_subseteq_spec _ _) Hinit').
    + intros key value. unfold KeyFilterDict_setitem, bind, deref. by rewrite Hr'.
Qed.

End KeyFilterFacts.

(** ** User patterns of key filters (kart/key_filters.py) *)

Section UserPatternFacts.
Import KeyFilters.
Variable repr : string -> string.

Lemma string_app_nil s : EmptyString +:+ s = s.
Proof. reflexivity. Qed.

Lemma span_app p d s :
  all_chars p d = true ->
  match s with
  | EmptyString => True
  | String c _ => p c = false
  end ->
  span p (d +:+ s) = (d, s).
Proof.
  intros Hd Hs. induction d as [|c d IH].
  - rewrite string_app_nil. destruct s as [|c s]; [done|]. simpl. by rewrite Hs.
  - rewrite string_app_cons. simpl in *. apply andb_true_iff in Hd as [Hc Hd].
    by rewrite Hc, (IH Hd).
Qed.

Lemma span_all p d : all_chars p d = true -> span p d = (d, EmptyString).
Proof.
  intros Hd. induction d as [|c d IH]; [done|].
  simpl in *. apply andb_true_iff in Hd as [Hc Hd]. by rewrite Hc, (IH Hd).
Qed.

Lemma strip_prefix_app prefix s : strip_prefix prefix (prefix +:+ s) = Some s.
Proof.
  induction prefix as [|c prefix IH]; [done|].
  rewrite string_app_cons. simpl. by rewrite Ascii.eqb_refl.
Qed.

Lemma strip_prefix_colon prefix s :
  strip_prefix (String ":" prefix) (String ":" s) = strip_prefix prefix s.
Proof. reflexivity. Qed.

Lemma strip_prefix_startswith prefix s :
  startswith s prefix = false -> strip_prefix prefix s = None.
Proof. unfold startswith. by destruct (strip_prefix prefix s). Qed.

(** What [FILTER_PATTERN] gives for a pattern that is a run of dataset
    characters, a colon and more. *)
Lemma FILTER_PATTERN_match_colon d s :
  d <> EmptyString -> all_chars dataset_glob_char d = true ->
  FILTER_PATTERN_match (d +:+ String ":" s)
  = let '(subdataset, after_sub) :=
      match strip_prefix "feature" s with
      | Some s => (Some "feature", s)
      | None =>
          match strip_prefix "meta" s with
          | Some s => (Some "meta", s)
          | None =>
              match strip_prefix "tile" s with
              | Some s => (Some "tile", s)
              | None => (None, String ":" s)
              end
          end
      end in
    Some (d, subdataset,
          match after_sub with
          | String ":" s => Some (fst (span dot_char s))
          | _ => None
          end).
Proof.
  intros Hne Hd. unfold FILTER_PATTERN_match.
  rewrite (span_app dataset_glob_char d (String ":" s) Hd eq_refl).
  destruct d as [|c d]; [done|].
  rewrite !strip_prefix_colon.
  destruct (strip_prefix "feature" s); [done|].
  destruct (strip_prefix "meta" s); [done|].
  by destruct (strip_prefix "tile" s).
Qed.

Lemma truthy_Some s : s <> EmptyString -> Merge.truthy (Some s) = true.
Proof. by destruct s. Qed.

Lemma strip_prefix_sub sub junk :
  sub ∈ ["feature"; "meta"; "tile"] ->
  match strip_prefix "feature" (sub +:+ junk) with
  | Some s => (Some "feature", s)
  | None =>
      match strip_prefix "meta" (sub +:+ junk) with
      | Some s => (Some "meta", s)
      | None =>
          match strip_prefix "tile" (sub +:+ junk) with
          | Some s => (Some "tile", s)
          | None => (None, String ":" (sub +:+ junk))
          end
      end
  end = (Some sub, junk).
Proof.
  rewrite !elem_of_cons, elem_of_nil. intros [->|[->|[->|[]]]]; reflexivity.
Qed.

Lemma parse_dataset (d : string) :
  d <> EmptyString -> all_chars dataset_glob_char d = true ->
  bad_dataset_glob d = false ->
  _parse_user_pattern repr d = Ok (d, None, None).
Proof.
  intros Hne Hd Hbad. unfold _parse_user_pattern, FILTER_PATTERN_match.
  rewrite (span_all _ _ Hd). destruct d; [done|]. simpl. by rewrite Hbad.
Qed.

Lemma parse_sub_rest (d sub rest : string) :
  d <> EmptyString -> all_chars dataset_glob_char d = true ->
  bad_dataset_glob d = false ->
  sub ∈ ["feature"; "meta"; "tile"] ->
  rest <> EmptyString -> all_chars dot_char rest = true ->
  _parse_user_pattern repr (d ++ ":" ++ sub ++ ":" ++ rest) = Ok (d, Some sub, Some rest).
Proof.
  intros Hne Hd Hbad Hsub Hrest Hdot. unfold _parse_user_pattern.
  change (d ++ ":" ++ sub ++ ":" ++ rest)
    with (d +:+ String ":" (sub +:+ String ":" rest)).
  rewrite (FILTER_PATTERN_match_colon _ _ Hne Hd).
  rewrite (strip_prefix_sub sub _ Hsub), (span_all _ _ Hdot). simpl.
  rewrite Hbad. destruct rest as [|r0 rest']; [done|].
  apply elem_of_cons in Hsub as [->|Hsub]; [done|].
  apply elem_of_cons in Hsub as [->|Hsub]; [done|].
  apply elem_of_cons in Hsub as [->|Hsub]; [done|]. by apply elem_of_nil in Hsub.
Qed.

(** [_parse_user_pattern] on the forms a user writes.  For a dataset part
    [d] made of dataset characters that is not turned down: [d] alone, or
    [d:], is the whole dataset; [d:sub:rest] with [sub] one of [feature],
    [meta], [tile] is that part and key; [d:rest] is the feature [rest] when
    [rest] does not start with one of the three names; and after [d:sub],
    anything that does not start with a colon is ignored.  A pattern that is
    empty or starts with a character outside the dataset characters, with
    [/] or with [.] is turned down with a usage error. *)
Theorem parse_user_pattern_forms (d sub rest junk : string) :
  d <> EmptyString -> all_chars dataset_glob_char d = true ->
  bad_dataset_glob d = false ->
  sub ∈ ["feature"; "meta"; "tile"] ->
  rest <> EmptyString -> all_chars dot_char rest = true ->
  startswith junk ":" = false ->
  _parse_user_pattern repr d = Ok (d, None, None)
  /\ _parse_user_pattern repr (d ++ ":") = Ok (d, None, None)
  /\ _parse_user_pattern repr (d ++ ":" ++ sub ++ ":" ++ rest) = Ok (d, Some sub, Some rest)
  /\ _parse_user_pattern repr (d ++ ":" ++ sub ++ junk) = Ok (d, Some sub, None)
  /\ (startswith rest "feature" = false -> startswith rest "meta" = false ->
      startswith rest "tile" = false ->
      _parse_user_pattern repr (d ++ ":" ++ rest) = Ok (d, Some "feature", Some rest))
  /\ _parse_user_pattern repr EmptyString = Raise (_bad_pattern repr EmptyString)
  /\ forall c s, dataset_glob_char c = false \/ c = "/"%char \/ c = "."%char ->
                 _parse_user_pattern repr (String c s)
                 = Raise (_bad_pattern repr (String c s)).
Proof.
  intros Hne Hd Hbad Hsub Hrest Hdot Hjunk.
  repeat split; try (unfold _parse_user_pattern).
  - by apply parse_dataset.
  - change (d ++ ":") with (d +:+ String ":" EmptyString).
    rewrite (FILTER_PATTERN_match_colon _ _ Hne Hd). simpl. by rewrite Hbad.
  - by apply parse_sub_rest.
  - change (d ++ ":" ++ sub ++ junk) with (d +:+ String ":" (sub +:+ junk)).
    rewrite (FILTER_PATTERN_match_colon _ _ Hne Hd).
    rewrite (strip_prefix_sub sub _ Hsub).
    assert (Hnone : match junk with
                    | String ":" s => Some (fst (span dot_char s))
                    | _ => None
                    end = None).
    { destruct junk as [|c junk]; [done|]. unfold startswith in Hjunk. simpl in Hjunk.
      destruct (Ascii.eqb_spec ":" c) as [<-|Hc]; [done|].
      destruct c as [[] [] [] [] [] [] [] []]; try done. }
    rewrite Hnone, Hbad. simpl.
    apply elem_of_cons in Hsub as [->|Hsub]; [done|].
    apply elem_of_cons in Hsub as [->|Hsub]; [done|].
    apply elem_of_cons in Hsub as [->|Hsub]; [done|]. by apply elem_of_nil in Hsub.
  - intros Hf Hm Ht.
    change (d ++ ":" ++ rest) with (d +:+ String ":" rest).
    rewrite (FILTER_PATTERN_match_colon _ _ Hne Hd).
    rewrite (strip_prefix_startswith _ _ Hf), (strip_prefix_startswith _ _ Hm),
      (strip_prefix_startswith _ _ Ht), (span_all _ _ Hdot). simpl.
    rewrite Hbad. by destruct rest.
  - intros c s [Hc|[->| ->]].
    + unfold FILTER_PATTERN_match. simpl. by rewrite Hc.
    + unfold FILTER_PATTERN_match. cbn [span].
      change (dataset_glob_char "/") with true. cbv iota.
      destruct (span dataset_glob_char s) as [taken after].
      match goal with
      | |- context [let '(_, _) := ?m in _] => destruct m as [subdataset after_sub]
      end.
      reflexivity.
    + unfold FILTER_PATTERN_match. cbn [span].
      change (dataset_glob_char ".") with true. cbv iota.
      destruct (span dataset_glob_char s) as [taken after].
      match goal with
      | |- context [let '(_, _) := ?m in _] => destruct m as [subdataset after_sub]
      end.
      reflexivity.
Qed.

(** *** Filters built from user patterns *)

Local Open Scope staterr_scope.

Lemma for_each_cons {S A} (x : A) (xs : list A) (body : A -> StateErr S unit) :
  for_each (x :: xs) body = bind (body x) (fun _ => for_each xs body).
Proof. reflexivity. Qed.

Lemma fresh_lookup (h : heap) : h !! fresh (dom h) = None.
Proof. apply not_elem_of_dom, is_fresh. Qed.

Lemma new_object_eq o (h : heap) :
  new_object o h = (Ok (fresh (dom h)), <[fresh (dom h) := o]> h).
Proof. reflexivity. Qed.

Lemma bind_eq {S A B} (m : StateErr S A) (k : A -> StateErr S B) s r s' :
  m s = (r, s') ->
  bind m k s = match r with
               | Ok a => k a s'
               | Raise e => (Raise e, s')
               end.
Proof. intros Hm. unfold bind. by rewrite Hm. Qed.

Lemma deref_eq (h : heap) self o : h !! self = Some o -> deref self h = (Ok o, h).
Proof. intros Hs. unfold deref. by rewrite Hs. Qed.

(** [self[key] = value] on a repo filter that does not match all, for a
    key without a star. *)
Lemma RepoKeyFilter_setitem_plain (h : heap) self data globs key value child :
  h !! self = Some (RepoKeyFilter data false globs) ->
  str_contains "*" key = false ->
  value <> self ->
  h !! value = Some child ->
  (exists d m, child = DatasetKeyFilter d m) ->
  KeyFilterDict_setitem self key value h
  = (Ok tt, <[self := RepoKeyFilter (<[key := value]> data) false globs]> h).
Proof.
  intros Hs Hk Hne Hv (d & m & ->). unfold KeyFilterDict_setitem.
  rewrite (bind_eq _ _ _ _ _ (deref_eq _ _ _ Hs)). simpl. rewrite Hk.
  unfold modify, ensure_child_type, deref, ret, bind. simpl.
  rewrite lookup_insert_ne by done. rewrite Hv. simpl.
  by rewrite insert_insert_eq.
Qed.

(** [self[key] = value] on a dataset filter that does not match all. *)
Lemma DatasetKeyFilter_setitem (h : heap) self data key value elems m :
  h !! self = Some (DatasetKeyFilter data false) ->
  h !! value = Some (UserStringKeyFilter elems m) ->
  KeyFilterDict_setitem self key value h
  = (Ok tt, <[self := DatasetKeyFilter (<[key := value]> data) false]> h).
Proof.
  intros Hs Hv. unfold KeyFilterDict_setitem.
  rewrite (bind_eq _ _ _ _ _ (deref_eq _ _ _ Hs)). simpl.
  unfold modify, ensure_child_type, deref, ret, bind. by rewrite Hv.
Qed.

Lemma KeyFilterDict_get_missing (h : heap) self data key :
  h !! self = Some (RepoKeyFilter data false []) -> data !! key = None ->
  KeyFilterDict_get self key None h = (Ok None, h).
Proof.
  intros Hs Hk. unfold KeyFilterDict_get, KeyFilterDict_getitem.
  rewrite (bind_eq _ _ _ _ _ (deref_eq _ _ _ Hs)). simpl. by rewrite Hk.
Qed.

Lemma KeyFilterDict_get_there (h : heap) self data globs key child :
  h !! self = Some (RepoKeyFilter data false globs) -> data !! key = Some child ->
  KeyFilterDict_get self key None h = (Ok (Some child), h).
Proof.
  intros Hs Hk. unfold KeyFilterDict_get, KeyFilterDict_getitem.
  rewrite (bind_eq _ _ _ _ _ (deref_eq _ _ _ Hs)). simpl. by rewrite Hk.
Qed.

Lemma DatasetKeyFilter_getitem (h : heap) self data key :
  h !! self = Some (DatasetKeyFilter data false) ->
  KeyFilterDict_getitem self key h
  = (match data !! key with
     | Some child => Ok child
     | None => Raise (KeyError key)
     end, h).
Proof.
  intros Hs. unfold KeyFilterDict_getitem.
  rewrite (bind_eq _ _ _ _ _ (deref_eq _ _ _ Hs)). simpl. by destruct (data !! key).
Qed.

Lemma DatasetKeyFilter_bool (h : heap) self data :
  h !! self = Some (DatasetKeyFilter data false) ->
  KeyFilterDict_bool self h = (Ok (negb (size data =? 0)%nat), h).
Proof.
  intros Hs. unfold KeyFilterDict_bool.
  by rewrite (bind_eq _ _ _ _ _ (deref_eq _ _ _ Hs)).
Qed.

Lemma UserStringKeyFilter_add_eq (h : heap) self elems key :
  h !! self = Some (UserStringKeyFilter elems false) ->
  UserStringKeyFilter_add self key h
  = (Ok tt, <[self := UserStringKeyFilter ({[key]} ∪ elems) false]> h).
Proof.
  intros Hs. unfold UserStringKeyFilter_add.
  by rewrite (bind_eq _ _ _ _ _ (deref_eq _ _ _ Hs)).
Qed.

Lemma add_user_pattern_new (h : heap) self data p d sub rest :
  _parse_user_pattern repr p = Ok (d, Some sub, Some rest) ->
  rest <> EmptyString ->
  h !! self = Some (RepoKeyFilter data false []) -> data !! d = None ->
  str_contains "*" d = false ->
  add_user_pattern repr self p h = (Ok tt, with_new_part h self data d sub rest).
Proof.
  intros Hp Hrest Hs Hd Hstar. unfold add_user_pattern, with_new_part.
  set (f := fresh (dom h)).
  set (h1 := <[f := DatasetKeyFilter ∅ false]> h).
  set (c := fresh (dom h1)).
  assert (Hf : h !! f = None) by apply fresh_lookup.
  assert (Hc : h1 !! c = None) by apply fresh_lookup.
  assert (Hfs : f <> self) by (intros ->; by rewrite Hs in Hf).
  assert (Hcf : c <> f) by (intros Heq; rewrite Heq in Hc; subst h1;
                            by rewrite lookup_insert_eq in Hc).
  assert (Hcs : c <> self).
  { intros Heq. rewrite Heq in Hc. subst h1.
    rewrite lookup_insert_ne in Hc by done. by rewrite Hs in Hc. }
  unfold bind, call, ret, new_object. rewrite Hp. cbv beta iota.
  rewrite (KeyFilterDict_get_missing _ _ _ _ Hs Hd). cbv beta iota.
  rewrite (truthy_Some _ Hrest). fold f. fold h1. fold c.
  set (h2 := <[c := UserStringKeyFilter ∅ false]> h1).
  rewrite (DatasetKeyFilter_setitem h2 f ∅ sub c ∅ false);
    [|subst h2 h1; by rewrite lookup_insert_ne, lookup_insert_eq
     |subst h2; by rewrite lookup_insert_eq].
  cbv beta iota.
  set (h3 := <[f := DatasetKeyFilter (<[sub := c]> ∅) false]> h2).
  rewrite (RepoKeyFilter_setitem_plain h3 self data [] d f
             (DatasetKeyFilter (<[sub := c]> ∅) false)); [|..|by eexists _, _];
    [|subst h3 h2 h1; by rewrite !lookup_insert_ne by done|done|done
     |subst h3; by rewrite lookup_insert_eq].
  cbv beta iota.
  set (h4 := <[self := RepoKeyFilter (<[d := f]> data) false []]> h3).
  rewrite (DatasetKeyFilter_getitem h4 f (<[sub := c]> ∅) sub);
    [|subst h4 h3; by rewrite lookup_insert_ne, lookup_insert_eq by done].
  rewrite lookup_insert_eq. cbv beta iota. unfold UserStringKeyFilter_add_rest.
  rewrite (UserStringKeyFilter_add_eq h4 c ∅ rest);
    [|subst h4 h3 h2; by rewrite !lookup_insert_ne, lookup_insert_eq by done].
  by rewrite (right_id_L ∅ (∪)).
Qed.

Lemma add_user_pattern_other_part (h : heap) self data globs p d sub rest f fd :
  _parse_user_pattern repr p = Ok (d, Some sub, rest) ->
  h !! self = Some (RepoKeyFilter data false globs) -> data !! d = Some f ->
  h !! f = Some (DatasetKeyFilter fd false) ->
  (size fd =? 0)%nat = false -> fd !! sub = None ->
  add_user_pattern repr self p h = (Raise (KeyError sub), h).
Proof.
  intros Hp Hs Hd Hf Hsize Hsub. unfold add_user_pattern.
  unfold bind, call, ret. rewrite Hp. cbv beta iota.
  rewrite (KeyFilterDict_get_there _ _ _ _ _ _ Hs Hd). cbv beta iota.
  rewrite (DatasetKeyFilter_bool _ _ _ Hf), Hsize. cbn [negb]. cbv beta iota.
  by rewrite (DatasetKeyFilter_getitem _ _ _ sub Hf), Hsub.
Qed.

Lemma add_user_pattern_same_part (h : heap) self data globs p d sub rest f fd c elems :
  _parse_user_pattern repr p = Ok (d, Some sub, Some rest) ->
  h !! self = Some (RepoKeyFilter data false globs) -> data !! d = Some f ->
  h !! f = Some (DatasetKeyFilter fd false) ->
  (size fd =? 0)%nat = false -> fd !! sub = Some c ->
  h !! c = Some (UserStringKeyFilter elems false) ->
  add_user_pattern repr self p h
  = (Ok tt, <[c := UserStringKeyFilter ({[rest]} ∪ elems) false]> h).
Proof.
  intros Hp Hs Hd Hf Hsize Hsub Hc. unfold add_user_pattern.
  unfold bind, call, ret. rewrite Hp. cbv beta iota.
  rewrite (KeyFilterDict_get_there _ _ _ _ _ _ Hs Hd). cbv beta iota.
  rewrite (DatasetKeyFilter_bool _ _ _ Hf), Hsize. cbn [negb]. cbv beta iota.
  rewrite (DatasetKeyFilter_getitem _ _ _ sub Hf), Hsub. cbv beta iota.
  unfold UserStringKeyFilter_add_rest. by rewrite (UserStringKeyFilter_add_eq _ _ _ _ Hc).
Qed.

Lemma RepoKeyFilter_bool (h : heap) self data globs :
  h !! self = Some (RepoKeyFilter data false globs) ->
  KeyFilterDict_bool self h = (Ok (negb (size data =? 0)%nat), h).
Proof.
  intros Hs. unfold KeyFilterDict_bool.
  by rewrite (bind_eq _ _ _ _ _ (deref_eq _ _ _ Hs)).
Qed.

Lemma RepoKeyFilter_getitem_there (h : heap) self data globs key child :
  h !! self = Some (RepoKeyFilter data false globs) -> data !! key = Some child ->
  KeyFilterDict_getitem self key h = (Ok child, h).
Proof.
  intros Hs Hk. unfold KeyFilterDict_getitem.
  rewrite (bind_eq _ _ _ _ _ (deref_eq _ _ _ Hs)). simpl. by rewrite Hk.
Qed.

Lemma UserStringKeyFilter_contains_eq (h : heap) self elems key :
  h !! self = Some (UserStringKeyFilter elems false) ->
  UserStringKeyFilter_contains self key h
  = (Ok (bool_decide (key_string key ∈ elems)), h).
Proof.
  intros Hs. unfold UserStringKeyFilter_contains.
  by rewrite (bind_eq _ _ _ _ _ (deref_eq _ _ _ Hs)).
Qed.

Lemma size_singleton_nonzero (k : string) (v : ref) :
  (size (<[k := v]> (∅ : gmap string ref)) =? 0)%nat = false.
Proof. by rewrite map_size_insert_None, map_size_empty by apply lookup_empty. Qed.

(** The objects of [with_new_part]. *)
Lemma with_new_part_lookup (h : heap) self data d sub rest :
  h !! self = Some (RepoKeyFilter data false []) ->
  let f := fresh (dom h) in
  let c := fresh (dom (<[f := DatasetKeyFilter ∅ false]> h)) in
  let h' := with_new_part h self data d sub rest in
  h' !! self = Some (RepoKeyFilter (<[d := f]> data) false [])
  /\ h' !! f = Some (DatasetKeyFilter (<[sub := c]> ∅) false)
  /\ h' !! c = Some (UserStringKeyFilter {[rest]} false).
Proof.
  intros Hs f c h'. subst h'. unfold with_new_part. fold f. fold c.
  set (h1 := <[f := DatasetKeyFilter ∅ false]> h).
  assert (Hf : h !! f = None) by apply fresh_lookup.
  assert (Hc : h1 !! c = None) by apply fresh_lookup.
  assert (Hfs : f <> self) by (intros ->; by rewrite Hs in Hf).
  assert (Hcf : c <> f) by (intros Heq; rewrite Heq in Hc; subst h1;
                            by rewrite lookup_insert_eq in Hc).
  assert (Hcs : c <> self).
  { intros Heq. rewrite Heq in Hc. subst h1.
    rewrite lookup_insert_ne in Hc by done. by rewrite Hs in Hc. }
  repeat split.
  - by rewrite lookup_insert_ne, lookup_insert_eq by done.
  - by rewrite !lookup_insert_ne, lookup_insert_eq by done.
  - by rewrite lookup_insert_eq.
Qed.

(** Two patterns for one dataset [d] (without a star), each naming a part
    and a key.  When both name the same part, the filter built holds both
    keys under that part of [d].  When they name two parts, the second
    pattern finds the dataset filter made for the first, which has no
    entry for the second part: [build_from_user_patterns] raises
    [KeyError] for it. *)
Theorem build_from_user_patterns_two_parts (d sub1 sub2 r1 r2 : string) (h : heap) :
  d <> EmptyString -> all_chars dataset_glob_char d = true ->
  bad_dataset_glob d = false -> str_contains "*" d = false ->
  sub1 ∈ ["feature"; "meta"; "tile"] -> sub2 ∈ ["feature"; "meta"; "tile"] ->
  r1 <> EmptyString -> all_chars dot_char r1 = true ->
  r2 <> EmptyString -> all_chars dot_char r2 = true ->
  let out := build_from_user_patterns repr
               [d ++ ":" ++ sub1 ++ ":" ++ r1; d ++ ":" ++ sub2 ++ ":" ++ r2] h in
  (sub1 <> sub2 -> fst out = Raise (KeyError sub2))
  /\ (sub1 = sub2 ->
      exists self f c,
        fst out = Ok self
        /\ KeyFilterDict_getitem self d (snd out) = (Ok f, snd out)
        /\ KeyFilterDict_getitem f sub1 (snd out) = (Ok c, snd out)
        /\ forall key,
             UserStringKeyFilter_contains c (KeyOther key) (snd out)
             = (Ok (bool_decide (key = r1 \/ key = r2)), snd out)).
Proof.
  intros Hne Hd Hbad Hstar Hs1 Hs2 Hr1 Hd1 Hr2 Hd2 out.
  set (self := fresh (dom h)).
  set (h0 := <[self := RepoKeyFilter ∅ false []]> h).
  assert (Hself : h0 !! self = Some (RepoKeyFilter ∅ false []))
    by (subst h0; by rewrite lookup_insert_eq).
  destruct (with_new_part_lookup h0 self ∅ d sub1 r1 Hself) as (Hs' & Hf' & Hc').
  set (f := fresh (dom h0)) in *.
  set (c := fresh (dom (<[f := DatasetKeyFilter ∅ false]> h0))) in *.
  set (h1 := with_new_part h0 self ∅ d sub1 r1) in *.
  assert (Hfirst : forall rest : StateErr heap ref,
    (filter <-- new_object (RepoKeyFilter ∅ false []) ;;
     for_each [d ++ ":" ++ sub1 ++ ":" ++ r1; d ++ ":" ++ sub2 ++ ":" ++ r2]
       (add_user_pattern repr filter) ;;;
     is_there <-- KeyFilterDict_bool filter ;;
     ret (if is_there : bool then filter else RepoKeyFilter_MATCH_ALL)) h
    = match add_user_pattern repr self (d ++ ":" ++ sub2 ++ ":" ++ r2) h1 with
      | (Ok _, s) =>
          (is_there <-- KeyFilterDict_bool self ;;
           ret (if is_there : bool then self else RepoKeyFilter_MATCH_ALL)) s
      | (Raise e, s) => (Raise e, s)
      end).
  { intros _. unfold bind at 1. rewrite new_object_eq. fold self. fold h0.
    rewrite !for_each_cons. unfold bind at 1. unfold bind at 1.
    rewrite (add_user_pattern_new h0 self ∅ _ d sub1 r1
               (parse_sub_rest d sub1 r1 Hne Hd Hbad Hs1 Hr1 Hd1) Hr1 Hself
               (lookup_empty _) Hstar).
    fold h1. unfold bind at 1.
    destruct (add_user_pattern repr self _ h1) as [[[]|e] s]; [|done].
    unfold for_each at 1. unfold ret at 1. done. }
  specialize (Hfirst (ret self)). fold (build_from_user_patterns repr
    [d ++ ":" ++ sub1 ++ ":" ++ r1; d ++ ":" ++ sub2 ++ ":" ++ r2]) in Hfirst.
  fold out in Hfirst.
  split.
  - intros Hsub.
    rewrite (add_user_pattern_other_part h1 self _ _ _ d sub2 (Some r2) f _
               (parse_sub_rest d sub2 r2 Hne Hd Hbad Hs2 Hr2 Hd2) Hs'
               (lookup_insert_eq _ _ _) Hf' (size_singleton_nonzero _ _)) in Hfirst.
    + by rewrite Hfirst.
    + rewrite lookup_insert_ne by done. apply lookup_empty.
  - intros Heq. subst sub2.
    rewrite (add_user_pattern_same_part h1 self _ _ _ d sub1 r2 f _ c _
               (parse_sub_rest d sub1 r2 Hne Hd Hbad Hs1 Hr2 Hd2) Hs'
               (lookup_insert_eq _ _ _) Hf' (size_singleton_nonzero _ _)
               (lookup_insert_eq _ _ _) Hc') in Hfirst.
    set (h2 := <[c := UserStringKeyFilter ({[r2]} ∪ {[r1]}) false]> h1) in *.
    assert (Hcf : c <> f).
    { intros Heq. rewrite Heq, Hf' in Hc'. done. }
    assert (Hcs : c <> self).
    { intros Heq. rewrite Heq, Hs' in Hc'. done. }
    assert (Hs2' : h2 !! self = Some (RepoKeyFilter (<[d := f]> ∅) false []))
      by (subst h2; by rewrite lookup_insert_ne).
    assert (Hf2 : h2 !! f = Some (DatasetKeyFilter (<[sub1 := c]> ∅) false))
      by (subst h2; by rewrite lookup_insert_ne).
    assert (Hc2 : h2 !! c = Some (UserStringKeyFilter ({[r2]} ∪ {[r1]}) false))
      by (subst h2; by rewrite lookup_insert_eq).
    unfold bind at 1 in Hfirst.
    rewrite (RepoKeyFilter_bool h2 self _ _ Hs2'), size_singleton_nonzero in Hfirst.
    simpl in Hfirst. unfold ret in Hfirst. rewrite Hfirst. simpl.
    exists self, f, c. split; [done|]. split; [|split].
    + apply (RepoKeyFilter_getitem_there _ _ _ _ _ _ Hs2'), lookup_insert_eq.
    + by rewrite (DatasetKeyFilter_getitem _ _ _ sub1 Hf2), lookup_insert_eq.
    + intros key. rewrite (UserStringKeyFilter_contains_eq _ _ _ _ Hc2). simpl.
      do 2 f_equal. apply bool_decide_ext.
      rewrite elem_of_union, !elem_of_singleton. tauto.
Qed.

(** *** Filtering a set of keys, and the negated filter *)

(** [filter_keys] against [in].  On every repo filter, the keys that
    [filter_keys] keeps are exactly the given keys that are [in] the
    filter, by its data or by one of its globs.  On
    [RepoKeyFilter.MATCH_ALL], after any sequence of operations on
    filters, it keeps every key it is given. *)
Theorem filter_keys_against_contains (h : heap) self data match_all globs
    (keys : gset string) (ops : list op) :
  h !! self = Some (RepoKeyFilter data match_all globs) ->
  (exists matched,
     filter_keys self keys h = (Ok matched, h)
     /\ forall k, k ∈ matched
                  <-> k ∈ keys /\ KeyFilterDict_contains self k h = (Ok true, h))
  /\ let h' := run_ops ops initial_heap in
     filter_keys RepoKeyFilter_MATCH_ALL keys h' = (Ok keys, h').
Proof.
  assert (Hkeeps : forall (h0 : heap) r d m g,
            h0 !! r = Some (RepoKeyFilter d m g) ->
            exists matched,
              filter_keys r keys h0 = (Ok matched, h0)
              /\ forall k, k ∈ matched
                           <-> k ∈ keys /\ KeyFilterDict_contains r k h0 = (Ok true, h0)).
  { intros h0 r d m g Hr. unfold filter_keys. rewrite Hr.
    eexists. split; [reflexivity|]. intros k.
    assert (Hin : KeyFilterDict_contains r k h0
                  = (Ok ((m || bool_decide (is_Some (d !! k)))
                         || bool_decide
                              (is_Some (_dataset_glob_pattern_matching_key g k))), h0)).
    { unfold KeyFilterDict_contains. by rewrite (bind_eq _ _ _ _ _ (deref_eq _ _ _ Hr)). }
    rewrite elem_of_union, !elem_of_filter, elem_of_difference, elem_of_filter.
    rewrite Hin. simpl.
    destruct ((m || bool_decide (is_Some (d !! k)))
              || bool_decide (is_Some (_dataset_glob_pattern_matching_key g k)))
      eqn:Hc.
    - split; [|intros [Hk _]; by left]. intros [[_ Hk]|[_ [Hk _]]]; by split.
    - split; [|by intros [_ [=]]].
      intros [[[=] _]|[Hg _]]. exfalso.
      apply orb_false_iff in Hc as [_ Hnone]. apply bool_decide_eq_false in Hnone.
      apply Hnone. unfold glob_matches_key in Hg.
      by destruct (_dataset_glob_pattern_matching_key g k). }
  intros Hs. split; [by apply (Hkeeps h self data match_all globs)|].
  intros h'.
  assert (Hm : h' !! RepoKeyFilter_MATCH_ALL = Some (RepoKeyFilter ∅ true [])).
  { by apply (run_ops_frozen ops initial_heap). }
  destruct (Hkeeps h' _ _ _ _ Hm) as (matched & -> & Hmatched).
  do 2 f_equal. apply set_eq. intros k. rewrite Hmatched.
  unfold KeyFilterDict_contains. rewrite (bind_eq _ _ _ _ _ (deref_eq _ _ _ Hm)).
  by split; [intros [? _]|].
Qed.

Lemma datasets_loop (paths : list string) (h : heap) self data dm mm :
  h !! self = Some (RepoKeyFilter data false []) ->
  h !! DatasetKeyFilter_MATCH_ALL = Some (DatasetKeyFilter dm mm) ->
  self <> DatasetKeyFilter_MATCH_ALL ->
  (forall p, p ∈ paths -> str_contains "*" p = false) ->
  for_each paths (fun dataset_path =>
    KeyFilterDict_setitem self dataset_path DatasetKeyFilter_MATCH_ALL) h
  = (Ok tt,
     <[self := RepoKeyFilter
                 (foldl (fun data p => <[p := DatasetKeyFilter_MATCH_ALL]> data) data paths)
                 false []]> h).
Proof.
  revert h data. induction paths as [|p paths IH]; intros h data Hs Hm Hne Hstar.
  - unfold for_each, ret. simpl. by rewrite insert_id.
  - rewrite for_each_cons. unfold bind.
    rewrite (RepoKeyFilter_setitem_plain h self data [] p DatasetKeyFilter_MATCH_ALL
               (DatasetKeyFilter dm mm) Hs); [|apply Hstar, elem_of_cons; by left
                                            |done|done|by eexists _, _].
    rewrite (IH _ (<[p := DatasetKeyFilter_MATCH_ALL]> data)).
    + simpl. by rewrite insert_insert_eq.
    + by rewrite lookup_insert_eq.
    + by rewrite lookup_insert_ne.
    + done.
    + intros q Hq. apply Hstar, elem_of_cons. by right.
Qed.

Lemma datasets_lookup (paths : list string) (data : gmap string ref) k :
  foldl (fun data p => <[p := DatasetKeyFilter_MATCH_ALL]> data) data paths !! k
  = if decide (k ∈ paths) then Some DatasetKeyFilter_MATCH_ALL else data !! k.
Proof.
  revert data. induction paths as [|p paths IH]; intros data; simpl.
  - done.
  - rewrite IH. destruct (decide (k ∈ paths)) as [Hin|Hout].
    + by rewrite decide_True by (apply elem_of_cons; by right).
    + destruct (decide (k = p)) as [->|Hkp].
      * rewrite lookup_insert_eq. by rewrite decide_True by (apply elem_of_cons; by left).
      * rewrite lookup_insert_ne by done.
        by rewrite decide_False by (apply not_elem_of_cons; done).
Qed.

(** The filter that the loop of [datasets] makes of a new, empty repo
    filter. *)
Lemma filter_of_paths (h : heap) (paths : list string) :
  initial_heap ⊆ h ->
  (forall p, p ∈ paths -> str_contains "*" p = false) ->
  let self := fresh (dom h) in
  let data := foldl (fun data p => <[p := DatasetKeyFilter_MATCH_ALL]> data) ∅ paths in
  let h' := <[self := RepoKeyFilter data false []]> h in
  h !! self = None
  /\ h' !! self = Some (RepoKeyFilter data false [])
  /\ for_each paths (fun dataset_path =>
       KeyFilterDict_setitem self dataset_path DatasetKeyFilter_MATCH_ALL)
       (<[self := RepoKeyFilter ∅ false []]> h) = (Ok tt, h')
  /\ forall key,
       KeyFilterDict_contains self key h' = (Ok (bool_decide (key ∈ paths)), h')
       /\ (key ∈ paths ->
           KeyFilterDict_getitem self key h' = (Ok DatasetKeyFilter_MATCH_ALL, h')).
Proof.
  intros Hsub Hstar self data h'.
  assert (Hm : h !! DatasetKeyFilter_MATCH_ALL = Some (DatasetKeyFilter ∅ true)).
  { by apply (lookup_weaken initial_heap h). }
  assert (Hfresh : h !! self = None) by apply fresh_lookup.
  assert (Hne : self <> DatasetKeyFilter_MATCH_ALL)
    by (intros Heq; by rewrite Heq, Hm in Hfresh).
  assert (Hs' : h' !! self = Some (RepoKeyFilter data false []))
    by (subst h'; by rewrite lookup_insert_eq).
  split; [done|]. split; [done|]. split.
  - rewrite (datasets_loop paths _ self ∅ ∅ true).
    + by rewrite insert_insert_eq.
    + by rewrite lookup_insert_eq.
    + by rewrite lookup_insert_ne.
    + done.
    + done.
  - intros key. split.
    + unfold KeyFilterDict_contains.
      rewrite (bind_eq _ _ _ _ _ (deref_eq _ _ _ Hs')). unfold ret. simpl.
      do 2 f_equal. subst data. rewrite datasets_lookup, lookup_empty.
      destruct (decide (key ∈ paths)).
      * by rewrite !bool_decide_eq_true_2.
      * rewrite (bool_decide_eq_false_2 (is_Some None)) by (by intros [? [=]]).
        by rewrite bool_decide_eq_false_2.
    + intros Hin. apply (RepoKeyFilter_getitem_there _ _ _ _ _ _ Hs').
      subst data. by rewrite datasets_lookup, decide_True.
Qed.

(** [RepoKeyFilter.datasets] and [RepoKeyFilter.exclude_datasets] on
    dataset paths without a star, from a heap that has the objects made
    when the module is loaded: a key is [in] the filter of [datasets]
    exactly when it is one of the paths, what the filter holds for it is
    [DatasetKeyFilter.MATCH_ALL], and the filter of [exclude_datasets]
    answers the opposite. *)
Theorem exclude_datasets_negates_datasets (h : heap) (paths : list string) :
  initial_heap ⊆ h ->
  (forall p, p ∈ paths -> str_contains "*" p = false) ->
  exists self h',
    RepoKeyFilter_datasets paths h = (Ok self, h')
    /\ exclude_datasets paths h = (Ok {| delegate := self |}, h')
    /\ forall key,
         KeyFilterDict_contains self key h' = (Ok (bool_decide (key ∈ paths)), h')
         /\ NegateKeyFilter_contains {| delegate := self |} key h'
            = (Ok (negb (bool_decide (key ∈ paths))), h')
         /\ (key ∈ paths ->
             KeyFilterDict_getitem self key h' = (Ok DatasetKeyFilter_MATCH_ALL, h')).
Proof.
  intros Hsub Hstar.
  destruct (filter_of_paths h paths Hsub Hstar) as (Hfresh & Hs' & Hloop & Hc).
  set (self := fresh (dom h)) in *.
  set (h' := <[self := RepoKeyFilter _ false []]> h) in *.
  assert (Hd : RepoKeyFilter_datasets paths h = (Ok self, h')).
  { unfold RepoKeyFilter_datasets. unfold bind at 1. rewrite new_object_eq.
    fold self. unfold bind at 1. by rewrite Hloop. }
  exists self, h'. split; [exact Hd|]. split.
  - unfold exclude_datasets. by rewrite (bind_eq _ _ _ _ _ Hd).
  - intros key. destruct (Hc key) as [Hck Hget]. split; [done|]. split; [|done].
    unfold NegateKeyFilter_contains. simpl. by rewrite (bind_eq _ _ _ _ _ Hck).
Qed.

Lemma add_user_pattern_whole self p (s : heap) :
  _parse_user_pattern repr p = Ok (p, None, None) ->
  add_user_pattern repr self p s
  = KeyFilterDict_setitem self p DatasetKeyFilter_MATCH_ALL s.
Proof.
  intros Hp. unfold add_user_pattern. unfold bind at 1. unfold call. by rewrite Hp.
Qed.

Lemma for_each_ext {S A} (xs : list A) (f g : A -> StateErr S unit) s :
  (forall x s, x ∈ xs -> f x s = g x s) ->
  for_each xs f s = for_each xs g s.
Proof.
  revert s. induction xs as [|x xs IH]; intros s Hfg; [done|].
  rewrite !for_each_cons. unfold bind.
  rewrite Hfg by (apply elem_of_cons; by left).
  destruct (g x s) as [[[]|e] s']; [|done].
  apply IH. intros y s'' Hy. apply Hfg, elem_of_cons. by right.
Qed.

(** [build_from_user_patterns] with no pattern gives
    [RepoKeyFilter.MATCH_ALL]; with patterns that each name a whole
    dataset (without a star), it gives a new filter that has exactly those
    datasets and holds [DatasetKeyFilter.MATCH_ALL] for each. *)
Theorem build_from_user_patterns_whole_datasets (h : heap) (paths : list string) :
  initial_heap ⊆ h ->
  (forall p, p ∈ paths ->
     p <> EmptyString /\ all_chars dataset_glob_char p = true
     /\ bad_dataset_glob p = false /\ str_contains "*" p = false) ->
  fst (build_from_user_patterns repr [] h) = Ok RepoKeyFilter_MATCH_ALL
  /\ (paths <> [] ->
      exists self h',
        build_from_user_patterns repr paths h = (Ok self, h')
        /\ h !! self = None
        /\ forall key,
             KeyFilterDict_contains self key h' = (Ok (bool_decide (key ∈ paths)), h')
             /\ (key ∈ paths ->
                 KeyFilterDict_getitem self key h'
                 = (Ok DatasetKeyFilter_MATCH_ALL, h'))).
Proof.
  intros Hsub Hpaths. split.
  - unfold build_from_user_patterns. unfold bind at 1. rewrite new_object_eq.
    unfold for_each, ret. unfold bind at 1. unfold bind at 1.
    by rewrite (RepoKeyFilter_bool _ (fresh (dom h)) ∅ [] (lookup_insert_eq _ _ _)).
  - intros Hnil.
    destruct (filter_of_paths h paths Hsub) as (Hfresh & Hs' & Hloop & Hc).
    { intros p Hp. by apply Hpaths. }
    set (self := fresh (dom h)) in *.
    set (data := foldl _ ∅ paths) in *.
    set (h' := <[self := RepoKeyFilter data false []]> h) in *.
    exists self, h'. split; [|by split].
    unfold build_from_user_patterns. unfold bind at 1. rewrite new_object_eq.
    fold self. unfold bind at 1.
    rewrite (for_each_ext paths _
               (fun p => KeyFilterDict_setitem self p DatasetKeyFilter_MATCH_ALL)).
    2:{ intros p s Hp. apply add_user_pattern_whole.
        destruct (Hpaths p Hp) as (H1 & H2 & H3 & _). by apply parse_dataset. }
    rewrite Hloop. unfold bind at 1.
    rewrite (RepoKeyFilter_bool h' self _ _ Hs').
    assert (Hsize : (size data =? 0)%nat = false).
    { apply Nat.eqb_neq. intros Hz. apply map_size_empty_inv in Hz.
      destruct paths as [|p paths]; [done|].
      destruct (Hc p) as [_ Hget].
      pose proof (datasets_lookup (p :: paths) ∅ p) as Hl. fold data in Hl.
      rewrite decide_True in Hl by (apply elem_of_cons; by left).
      by rewrite Hz, lookup_empty in Hl. }
    by rewrite Hsize.
Qed.

End UserPatternFacts.

(** ** The paths of tiles (kart/point_cloud/v1.py) *)

Section TilePathFacts.
Import KeyFilters PointCloudV1.
Context (hexhash ensure_full_path ensure_rel_path : string -> string)
        {Decoded : Type} (super_decode_path : string -> Decoded).

Lemma str_contains_app char (pre rest : string) :
  str_contains char (pre ++ String char rest) = true.
Proof.
  induction pre as [|c pre IH]; simpl.
  - by rewrite Ascii.eqb_refl.
  - rewrite IH. apply orb_true_r.
Qed.

Lemma rsplit_last_app sep (pre name : string) :
  str_contains sep name = false ->
  rsplit_last (pre ++ String sep name) sep = name.
Proof.
  intros Hname. induction pre as [|c pre IH]; simpl.
  - by rewrite Hname, Ascii.eqb_refl.
  - by rewrite str_contains_app.
Qed.

Lemma rsplit_last_no_sep sep (s : string) :
  str_contains sep (rsplit_last s sep) = false.
Proof.
  induction s as [|c s IH]; [done|]. simpl.
  destruct (str_contains sep s) eqn:Hs; [done|].
  destruct (Ascii.eqb c sep) eqn:Hc; [done|]. simpl. by rewrite Hc, Hs.
Qed.

Lemma encode_tile_path_relative tilename :
  encode_tile_path hexhash ensure_full_path tilename true
  = ("tile/" ++ first_two (hexhash tilename)) ++ String "/" tilename.
Proof.
  unfold encode_tile_path. cbv zeta.
  change ("/" ++ tilename) with (String "/" tilename).
  apply (string_app_assoc "tile/").
Qed.

(** The name of a tile is read back from the path its pointer is written
    to exactly when the name has no slash; and then from every path that
    ends with a slash and the name, and by [decode_path], as the pair
    of [tile] and the name, from every path whose relative path is the
    encoded one. *)
Theorem decode_tile_path_of_encode_tile_path (tilename : string) :
  (decode_tile_path (encode_tile_path hexhash ensure_full_path tilename true) = tilename
   <-> str_contains "/" tilename = false)
  /\ (forall pre, str_contains "/" tilename = false ->
                  decode_tile_path (pre ++ "/" ++ tilename) = tilename)
  /\ (forall path,
        str_contains "/" tilename = false ->
        ensure_rel_path path = encode_tile_path hexhash ensure_full_path tilename true ->
        decode_path ensure_rel_path super_decode_path path = inl ("tile", tilename)).
Proof.
  unfold decode_tile_path. split; [split|split].
  - intros Hback. rewrite <- Hback. apply rsplit_last_no_sep.
  - intros Hname. rewrite encode_tile_path_relative. by apply rsplit_last_app.
  - intros pre Hname. change ("/" ++ tilename) with (String "/" tilename).
    by apply rsplit_last_app.
  - intros path Hname Hrel. unfold decode_path, decode_tile_path. rewrite Hrel.
    rewrite encode_tile_path_relative at 2. rewrite rsplit_last_app by done.
    unfold encode_tile_path. done.
Qed.

End TilePathFacts.

(** ** The types of columns in PostGIS (kart/sqlalchemy/adapter/postgis.py) *)

Section PostgisFacts.
Import KeyFilters Postgis.
Context (upper strip : string -> string)
        (get_identifier_int_from_dataset : pyval -> result pyval)
        (get_identifier_str : string -> string).

(** Replace the lookup of a given name in [SQL_TYPE_TO_V2_TYPE] by its
    value. *)
Ltac lookup_sql_type :=
  match goal with
  | |- context [SQL_TYPE_TO_V2_TYPE !! String ?a ?k] =>
      let r := eval vm_compute in (SQL_TYPE_TO_V2_TYPE !! String a k) in
      change (SQL_TYPE_TO_V2_TYPE !! String a k) with r
  end.

(** A column type that [v2_type_to_pg_type] writes as a bare type name
    comes back from the column of that type: [_pg_type_to_v2_type] gives
    the same data type; for a type with sizes it gives the size back,
    but for 8, which comes back as [APPROXIMATED_TYPES] says, and for the
    size 0 of a column without size, which comes back as 32; for the
    other types it gives no size. *)
Theorem pg_type_to_v2_type_of_v2_type_to_pg_type
    (column_schema : ColumnSchema) (sql : string)
    (pg_col_info : PgCol.pg_col_info) (pg_spatial_ref_sys : list crs_info) :
  v2_type_to_pg_type get_identifier_int_from_dataset column_schema = Ok (Some sql) ->
  data_type column_schema <> "geometry" ->
  (forall key, key ∈ ["length"; "precision"; "scale"] ->
               dict_get (extra_type_info column_schema) key PNone = PNone) ->
  upper (PgCol.data_type pg_col_info) = sql ->
  exists extra,
    _pg_type_to_v2_type upper strip get_identifier_str pg_col_info pg_spatial_ref_sys
    = Ok (Some (data_type column_schema), extra)
    /\ extra !! "size"
       = match V2_TYPE_TO_SQL_TYPE !! data_type column_schema,
               dict_get (extra_type_info column_schema) "size" (PInt 0) with
         | Some (SqlTypeBySize _), PInt size =>
             Some (PInt (size_read_back (data_type column_schema) size))
         | _, _ => None
         end.
Proof.
  destruct column_schema as [v2_type extra_type_info]. simpl.
  intros Hsql Hgeometry Hbare Hupper.
  assert (Hlength : dict_get extra_type_info "length" PNone = PNone)
    by (apply Hbare; rewrite !elem_of_cons; tauto).
  assert (Hprecision : dict_get extra_type_info "precision" PNone = PNone)
    by (apply Hbare; rewrite !elem_of_cons; tauto).
  clear Hbare.
  unfold v2_type_to_pg_type in Hsql. simpl in Hsql.
  destruct (V2_TYPE_TO_SQL_TYPE !! v2_type) as [info|] eqn:Hv2; [|done].
  pose proof Hv2 as Hcases. unfold V2_TYPE_TO_SQL_TYPE in Hcases.
  apply elem_of_list_to_map_2 in Hcases.
  repeat (apply elem_of_cons in Hcases as [Hcases|Hcases]);
    try (by apply elem_of_nil in Hcases);
    injection Hcases as -> ->; clear Hv2; try done.
  all: unfold _pg_type_to_v2_type; rewrite Hupper.
  all: try (rewrite ?Hlength, ?Hprecision in Hsql;
            repeat (rewrite decide_False in Hsql by done);
            repeat (rewrite decide_True in Hsql by done);
            simpl in Hsql; injection Hsql as <-;
            lookup_sql_type; cbv beta iota zeta;
            repeat (rewrite decide_False by done);
            repeat (rewrite decide_True by done);
            eexists; (split; [reflexivity|]);
            try destruct (or_None _);
            by rewrite ?lookup_insert_ne, ?lookup_empty by done).
  all: destruct (dict_get extra_type_info "size" (PInt 0)) as [|size|]; try done.
  all: injection Hsql as Hsize.
  all: repeat (apply lookup_insert_Some in Hsize as [[<- <-]|[_ Hsize]]);
         try (by rewrite lookup_empty in Hsize).
  all: lookup_sql_type; cbv beta iota zeta.
  all: repeat (rewrite decide_False by done).
  all: eexists; (split; [reflexivity|]); vm_compute; reflexivity.
Qed.

(** *** Geometry types and their dimensions *)

Lemma string_app_empty (s : string) : s ++ EmptyString = s.
Proof. induction s as [|c s IH]; [done|]. by rewrite string_app_cons, IH. Qed.

Lemma str_endswith_snoc (s : string) (c d : ascii) :
  str_endswith (s ++ String c EmptyString) (String d EmptyString) = Ascii.eqb c d.
Proof.
  induction s as [|x s IH].
  - simpl. destruct (Ascii.eqb c d); by simpl.
  - rewrite string_app_cons. cbn [str_endswith]. rewrite IH.
    replace (String.eqb (String x (s ++ String c EmptyString)) (String d EmptyString))
      with false; [done|].
    symmetry. apply String.eqb_neq. intros [= _ Hs]. by destruct s.
Qed.

Lemma drop_last_snoc (s : string) (c : ascii) :
  drop_last (s ++ String c EmptyString) = s.
Proof.
  induction s as [|x s IH]; [done|].
  rewrite string_app_cons. cbn [drop_last]. rewrite IH.
  by destruct s.
Qed.

Lemma str_replace_absent char new (s : string) :
  str_contains char s = false -> str_replace char new s = s.
Proof.
  induction s as [|c s IH]; [done|]. simpl.
  intros [Hc Hs]%orb_false_iff. by rewrite Hc, IH.
Qed.

(** [_pop_suffix] twice, for M and then for Z, on a name with one of
    the four suffixes. *)
Lemma pop_suffixes (base suffix : string) :
  suffix ∈ [EmptyString; "Z"; "M"; "ZM"] ->
  str_endswith base "Z" = false ->
  str_endswith base "M" = false ->
  exists z m,
    suffix = z ++ m
    /\ _pop_suffix (base ++ suffix) "M" = (base ++ z, m)
    /\ _pop_suffix (base ++ z) "Z" = (base, z).
Proof.
  intros Hsuffix HZ HM. unfold _pop_suffix.
  repeat (apply elem_of_cons in Hsuffix as [->|Hsuffix]);
    [| | | |by apply elem_of_nil in Hsuffix].
  - exists EmptyString, EmptyString. by rewrite !string_app_empty, HZ, HM.
  - exists "Z", EmptyString. rewrite !str_endswith_snoc, drop_last_snoc. done.
  - exists EmptyString, "M".
    rewrite !string_app_empty, str_endswith_snoc, drop_last_snoc, HZ. done.
  - exists "Z", "M".
    replace (base ++ "ZM") with ((base ++ "Z") ++ "M")
      by (symmetry; apply (string_app_assoc base "Z" "M")).
    rewrite !str_endswith_snoc, !drop_last_snoc. done.
Qed.

(** The geometry type of a PostGIS column with one of the dimension
    suffixes (none, Z, M, ZM) goes to the dataset and back unchanged.
    For a name [base] without spaces, that does not itself end in Z or
    M and that [strip] leaves alone: the type [base ++ suffix] is read
    as [base], a space and the suffix (as [base] alone when there is no
    suffix); that is written back as [GEOMETRY(base ++ suffix)], with
    the id of the CRS if there is one; and the type counts two
    dimensions and one more for each letter of the suffix. *)
Theorem geometry_type_round_trip
    (base suffix geometry_type : string) (crs_id : pyval)
    (pg_col_info : PgCol.pg_col_info) (pg_spatial_ref_sys : list crs_info) :
  suffix ∈ [EmptyString; "Z"; "M"; "ZM"] ->
  str_endswith base "Z" = false ->
  str_endswith base "M" = false ->
  str_contains " " base = false ->
  strip (base ++ " ") = base ->
  (forall sfx, sfx ∈ ["Z"; "M"; "ZM"] -> strip (base ++ " " ++ sfx) = base ++ " " ++ sfx) ->
  PgCol.geometry_type pg_col_info = Some geometry_type ->
  upper geometry_type = base ++ suffix ->
  let v2_geometry_type :=
    if decide (suffix = EmptyString) then base else base ++ " " ++ suffix in
  (exists extra,
     _pg_type_to_v2_geometry_type upper strip get_identifier_str
       pg_col_info pg_spatial_ref_sys
     = Ok (Some "geometry", extra)
     /\ extra !! "geometryType" = Some (PStr v2_geometry_type))
  /\ _v2_geometry_type_to_pg_type (PStr v2_geometry_type) crs_id
     = Ok ("GEOMETRY(" ++ base ++ suffix
           ++ (if decide (crs_id = PNone) then EmptyString else "," ++ format crs_id)
           ++ ")")
  /\ _dimension_count (base ++ suffix) = 2 + String.length suffix.
Proof.
  clear get_identifier_int_from_dataset.
  intros Hsuffix HZ HM Hspace Hstrip0 Hstrip Hgeometry Hupper v2_geometry_type.
  destruct (pop_suffixes base suffix Hsuffix HZ HM) as (z & m & Hzm & Hpop_m & Hpop_z).
  assert (Hstripped : strip (base ++ " " ++ z ++ m) = v2_geometry_type).
  { subst v2_geometry_type. rewrite <- Hzm.
    destruct (decide (suffix = EmptyString)) as [->|Hne].
    - exact Hstrip0.
    - apply Hstrip.
      repeat (apply elem_of_cons in Hsuffix as [->|Hsuffix]); try done;
        rewrite !elem_of_cons; tauto. }
  split; [|split].
  - unfold _pg_type_to_v2_geometry_type.
    rewrite Hgeometry, Hupper, Hpop_m, Hpop_z, Hstripped.
    eexists. split; [reflexivity|].
    apply lookup_insert_eq.
  - unfold _v2_geometry_type_to_pg_type. cbn [mbind result_bind].
    assert (Hreplaced : str_replace " " EmptyString v2_geometry_type = base ++ suffix).
    { subst v2_geometry_type. destruct (decide (suffix = EmptyString)) as [->|Hne].
      - rewrite string_app_empty. by apply str_replace_absent.
      - rewrite !str_replace_app, (str_replace_absent _ _ base) by done.
        repeat (apply elem_of_cons in Hsuffix as [->|Hsuffix]); try done.
        by apply elem_of_nil in Hsuffix. }
    rewrite Hreplaced. cbn [format].
    rewrite bool_decide_eq_false_2 by done. cbn [negb andb].
    destruct (decide (crs_id = PNone)) as [->|Hcrs].
    + rewrite bool_decide_eq_true_2 by done. cbn [negb]. f_equal.
      by rewrite <- !string_app_assoc.
    + rewrite bool_decide_eq_false_2 by done. cbn [negb]. f_equal.
      by rewrite <- !string_app_assoc.
  - unfold _dimension_count. rewrite Hpop_m, Hpop_z, Hzm.
    repeat (apply elem_of_cons in Hsuffix as [Hs|Hsuffix]);
      [| | | |by apply elem_of_nil in Hsuffix].
    all: cbn [String.length]; rewrite <- Hzm, Hs; reflexivity.
Qed.

End PostgisFacts.

(** ** Resolving a conflict (kart/resolve.py) *)

Section ResolveFacts.
Import Repo Merge KeyFilters Resolve.
Local Open Scope staterr_scope.
Context (label : conflict3_t -> MergeContext -> string)
        (load_file_resolve :
           conflict3_t -> MergeContext -> string -> KartRepo -> result (list oid))
        (load_workingcopy_resolve :
           conflict3_t -> MergeContext -> KartRepo -> result (list oid)).

(** The loop stops at the first conflict that has the label. *)
Lemma resolve_loop_first items merge_index merge_context with_version file_path
    conflict_label :
  resolve_loop label load_file_resolve load_workingcopy_resolve items merge_index
    merge_context with_version file_path conflict_label
  = match List.find (fun kc => String.eqb (label kc.2 merge_context) conflict_label)
            items with
    | None => raise (NotFound ("No conflict found at " ++ conflict_label))
    | Some (key, conflict3) =>
        resolve_loop label load_file_resolve load_workingcopy_resolve
          [(key, conflict3)] merge_index merge_context with_version file_path
          conflict_label
    end.
Proof.
  induction items as [|[key conflict3] items IH]; [done|].
  cbn [resolve_loop List.find snd].
  destruct (String.eqb (label conflict3 merge_context) conflict_label) eqn:Hlabel;
    [|exact IH].
  cbn [resolve_loop]. by rewrite Hlabel.
Qed.

Lemma unresolved_conflicts_add_resolve key res (m : MergedIndex) :
  unresolved_conflicts (add_resolve key res m) = base.delete key (unresolved_conflicts m).
Proof.
  unfold unresolved_conflicts, add_resolve. simpl.
  apply map_eq. intros k. apply option_eq. intros c.
  rewrite map_lookup_filter_Some. simpl.
  destruct (decide (k = key)) as [->|Hne].
  - rewrite lookup_insert_eq, lookup_delete_eq. split; [by intros [_ ?]|done].
  - rewrite lookup_insert_ne, lookup_delete_ne by done.
    by rewrite map_lookup_filter_Some.
Qed.

Lemma MergeContext_read_from_repo_other_file (f : string) (content : file_content)
    (repo : KartRepo) (ctx : MergeContext) :
  f <> KartRepoFiles.MERGE_HEAD -> f <> KartRepoFiles.MERGE_BRANCH ->
  MergeContext_read_from_repo repo = (Ok ctx, repo) ->
  MergeContext_read_from_repo (set_gitdir (<[f := content]>) repo)
  = (Ok ctx, set_gitdir (<[f := content]>) repo).
Proof.
  intros Hhead Hbranch. unfold MergeContext_read_from_repo, head_commit_id. simpl.
  rewrite !lookup_insert_ne by done.
  destruct (references repo !! head_name repo);
    destruct (text_of (gitdir repo !! KartRepoFiles.MERGE_HEAD)); congruence.
Qed.

(** [kart resolve --with=ancestor|ours|theirs|delete] settles the first
    conflict of the merge index that carries the label, and nothing else.
    With no such conflict it raises [NotFound], and with one that is
    resolved already [InvalidOperation], the repository staying as it is.
    Otherwise it returns, having stored the resolution (the entry of the
    chosen version, or no entry if that version is missing or for
    [delete]) in MERGED_INDEX: the conflicts are the same, one fewer is
    unresolved, and the same command run again finds the conflict
    resolved and raises. *)
Theorem resolve_settles_one_conflict
    (items : list (string * conflict3_t)) (with_version : with_version_t)
    (conflict_label : string) (repo : KartRepo) (m : MergedIndex)
    (merge_context : MergeContext) :
  with_version <> with_workingcopy ->
  gitdir repo !! KartRepoFiles.MERGED_INDEX = Some (Index m) ->
  MergeContext_read_from_repo repo = (Ok merge_context, repo) ->
  conflicts_items items m ->
  let wanted := if endswith conflict_label ":" then Postgis.drop_last conflict_label
                else conflict_label in
  let run := resolve label load_file_resolve load_workingcopy_resolve items
               (Some with_version) None conflict_label in
  match List.find (fun kc => String.eqb (label kc.2 merge_context) wanted) items with
  | None => run repo = (Raise (NotFound ("No conflict found at " ++ wanted)), repo)
  | Some (key, conflict3) =>
      conflicts m !! key = Some conflict3
      /\ match resolves m !! key with
         | Some _ =>
             run repo
             = (Raise (InvalidOperation
                         ("Conflict at " ++ wanted ++ " is already resolved")), repo)
         | None =>
             let res := match version_of with_version conflict3 with
                        | Some entry => [entry]
                        | None => []
                        end in
             let m' := add_resolve key res m in
             let repo' := set_gitdir (<[KartRepoFiles.MERGED_INDEX := Index m']>) repo in
             run repo = (Ok tt, repo')
             /\ conflicts m' = conflicts m
             /\ size (unresolved_conflicts m') + 1 = size (unresolved_conflicts m)
             /\ run repo'
                = (Raise (InvalidOperation
                            ("Conflict at " ++ wanted ++ " is already resolved")), repo')
         end
  end.
Proof.
  intros Hversion Hindex Hcontext [Hnodup Hitems] wanted run.
  assert (Hrun : forall (r : KartRepo) (mi : MergedIndex),
            gitdir r !! KartRepoFiles.MERGED_INDEX = Some (Index mi) ->
            MergeContext_read_from_repo r = (Ok merge_context, r) ->
            run r = resolve_loop label load_file_resolve load_workingcopy_resolve
                      items mi merge_context (Some with_version) None wanted r).
  { intros r mi Hr Hc. subst run. unfold resolve. cbn [negb bool_decide orb].
    rewrite bool_decide_eq_true_2 by by eexists. cbn [negb orb].
    unfold bind at 1. unfold MergedIndex_read_from_repo at 1. rewrite Hr.
    unfold bind at 1. by rewrite Hc. }
  rewrite (Hrun repo m Hindex Hcontext), resolve_loop_first.
  destruct (List.find _ items) as [[key conflict3]|] eqn:Hfind; [|done].
  destruct (List.find_some _ _ Hfind) as [Hin Hlabel]. simpl in Hlabel.
  assert (Hconflict : conflicts m !! key = Some conflict3).
  { rewrite <- Hitems. apply elem_of_list_to_map_1; [done|].
    by apply list_elem_of_In. }
  split; [done|].
  cbn [resolve_loop]. rewrite Hlabel.
  destruct (resolves m !! key) as [r|] eqn:Hresolved.
  - rewrite bool_decide_eq_true_2 by by eexists. done.
  - rewrite bool_decide_eq_false_2 by (by intros [? ?]).
    set (res := match version_of with_version conflict3 with
                | Some entry => [entry]
                | None => []
                end).
    cbv zeta. split; [|split; [done|split]].
    + subst res. by destruct with_version.
    + rewrite unresolved_conflicts_add_resolve.
      assert (Hopen : unresolved_conflicts m !! key = Some conflict3)
        by (by apply map_lookup_filter_Some).
      rewrite map_size_delete, Hopen.
      assert (size (unresolved_conflicts m) <> 0).
      { intros Hzero. apply map_size_empty_inv in Hzero.
        by rewrite Hzero, lookup_empty in Hopen. }
      simpl. lia.
    + rewrite (Hrun _ (add_resolve key res m)).
      * rewrite resolve_loop_first, Hfind. cbn [resolve_loop]. rewrite Hlabel.
        rewrite bool_decide_eq_true_2; [done|].
        simpl. rewrite lookup_insert_eq. by eexists.
      * simpl. apply lookup_insert_eq.
      * by apply MergeContext_read_from_repo_other_file.
Qed.

End ResolveFacts.

(** ** A name for the dataset (kart/tile/importer.py) *)

Section DatasetPathFacts.
Import DatasetPath.
Context (tile_name parent_name : list N -> list N)
        (list_of : gset (list N) -> list (list N)).

Lemma str_le_cons c a d b :
  str_le (c :: a) (d :: b) <-> (c < d)%N \/ (c = d /\ str_le a b).
Proof.
  unfold str_le. simpl. destruct (N.compare_spec c d) as [->|Hlt|Hgt].
  - split; [by right|]. by intros [Hlt|[_ ?]]; [lia|].
  - split; [by left|done].
  - split; [done|]. intros [?|[-> _]]; lia.
Qed.

Lemma str_le_nil_l b : str_le [] b.
Proof. by destruct b. Qed.

Lemma str_le_nil_r a : str_le a [] -> a = [].
Proof. by destruct a. Qed.

Lemma str_le_refl a : str_le a a.
Proof.
  induction a as [|c a IH]; [done|]. apply str_le_cons. by right.
Qed.

Lemma str_le_trans a b c : str_le a b -> str_le b c -> str_le a c.
Proof.
  revert b c. induction a as [|x a IH]; intros b c; [intros; apply str_le_nil_l|].
  destruct b as [|y b]; [by intros ?%str_le_nil_r|].
  destruct c as [|z c]; [by intros _ ?%str_le_nil_r|].
  rewrite !str_le_cons. intros [Hxy|[-> Hab]] [Hyz|[-> Hbc]].
  - left. lia.
  - by left.
  - by left.
  - right. split; [done|]. by apply (IH b).
Qed.

Lemma str_le_antisym a b : str_le a b -> str_le b a -> a = b.
Proof.
  revert b. induction a as [|x a IH]; intros b.
  - by intros _ ->%str_le_nil_r.
  - destruct b as [|y b]; [by intros ?%str_le_nil_r|].
    rewrite !str_le_cons. intros [Hxy|[-> Hab]] [Hyx|[Heq Hba]]; try lia.
    f_equal. by apply IH.
Qed.

Lemma str_compare_antisym a b : str_compare b a = CompOpp (str_compare a b).
Proof.
  revert b. induction a as [|x a IH]; intros [|y b]; try done. simpl.
  rewrite (N.compare_antisym x y). destruct (x ?= y)%N; simpl; [apply IH|done..].
Qed.

Lemma str_lt_false a b : str_lt a b = false -> str_le b a.
Proof.
  unfold str_lt, str_le. rewrite (str_compare_antisym a b).
  by destruct (str_compare a b).
Qed.

Lemma str_lt_le a b : str_lt a b = true -> str_le a b.
Proof. unfold str_lt, str_le. by destruct (str_compare a b). Qed.

(** [py_min] is an element, and the least. *)
Lemma py_min_spec first rest :
  py_min first rest ∈ first :: rest
  /\ forall x, x ∈ first :: rest -> str_le (py_min first rest) x.
Proof.
  unfold py_min. revert first. induction rest as [|y rest IH]; intros first; simpl.
  - split; [apply elem_of_cons; by left|].
    intros x [->|Hx%elem_of_nil]%elem_of_cons; [apply str_le_refl|done].
  - destruct (IH (if str_lt y first then y else first)) as [Hin Hle]. split.
    + apply elem_of_cons in Hin as [Hin|Hin].
      * rewrite Hin. destruct (str_lt y first); rewrite !elem_of_cons; tauto.
      * rewrite !elem_of_cons; tauto.
    + intros x Hx.
      assert (Hstep : str_le (if str_lt y first then y else first) first
                      /\ str_le (if str_lt y first then y else first) y).
      { destruct (str_lt y first) eqn:Hlt.
        - split; [by apply str_lt_le|apply str_le_refl].
        - split; [apply str_le_refl|by apply str_lt_false]. }
      destruct Hstep as [Hf Hy].
      apply elem_of_cons in Hx as [->|Hx].
      * eapply str_le_trans; [|exact Hf]. apply Hle, elem_of_cons. by left.
      * apply elem_of_cons in Hx as [->|Hx].
        -- eapply str_le_trans; [|exact Hy]. apply Hle, elem_of_cons. by left.
        -- apply Hle, elem_of_cons. by right.
Qed.

Lemma py_max_spec first rest :
  py_max first rest ∈ first :: rest
  /\ forall x, x ∈ first :: rest -> str_le x (py_max first rest).
Proof.
  unfold py_max. revert first. induction rest as [|y rest IH]; intros first; simpl.
  - split; [apply elem_of_cons; by left|].
    intros x [->|Hx%elem_of_nil]%elem_of_cons; [apply str_le_refl|done].
  - destruct (IH (if str_lt first y then y else first)) as [Hin Hle]. split.
    + apply elem_of_cons in Hin as [Hin|Hin].
      * rewrite Hin. destruct (str_lt first y); rewrite !elem_of_cons; tauto.
      * rewrite !elem_of_cons; tauto.
    + intros x Hx.
      assert (Hstep : str_le first (if str_lt first y then y else first)
                      /\ str_le y (if str_lt first y then y else first)).
      { destruct (str_lt first y) eqn:Hlt.
        - split; [by apply str_lt_le|apply str_le_refl].
        - split; [apply str_le_refl|by apply str_lt_false]. }
      destruct Hstep as [Hf Hy].
      apply elem_of_cons in Hx as [->|Hx].
      * eapply str_le_trans; [exact Hf|]. apply Hle, elem_of_cons. by left.
      * apply elem_of_cons in Hx as [->|Hx].
        -- eapply str_le_trans; [exact Hy|]. apply Hle, elem_of_cons. by left.
        -- apply Hle, elem_of_cons. by right.
Qed.

(** Between the least and the greatest string the loop does not run out
    of [s2], and what it returns starts every string between them. *)
Lemma commonprefix_loop_between s1 s2 :
  str_le s1 s2 ->
  exists common, commonprefix_loop s1 s2 = Ok common
                 /\ forall x, str_le s1 x -> str_le x s2 -> common `prefix_of` x.
Proof.
  revert s2. induction s1 as [|c s1 IH]; intros s2 Hle.
  - exists []. split; [done|]. intros x _ _. apply prefix_nil.
  - destruct s2 as [|d s2]; [by apply str_le_nil_r in Hle|]. simpl.
    destruct (N.eqb_spec c d) as [->|Hcd].
    + apply str_le_cons in Hle as [Hlt|[_ Hle]]; [lia|].
      destruct (IH s2 Hle) as (common & Hloop & Hstarts).
      exists (d :: common). rewrite Hloop. split; [done|].
      intros [|e x] Hlow Hhigh; [by apply str_le_nil_r in Hlow|].
      apply str_le_cons in Hlow, Hhigh.
      assert (e = d) as -> by (destruct Hlow as [|[]], Hhigh as [|[]]; lia).
      destruct Hlow as [Hlow|[_ Hlow]]; [lia|].
      destruct Hhigh as [Hhigh|[_ Hhigh]]; [lia|].
      apply prefix_cons. by apply Hstarts.
    + exists []. split; [done|]. intros x _ _. apply prefix_nil.
Qed.

Lemma commonprefix_common m :
  exists common, commonprefix m = Ok common
                 /\ forall x, x ∈ m -> common `prefix_of` x.
Proof.
  destruct m as [|first rest].
  - exists []. split; [done|]. by intros x Hx%elem_of_nil.
  - destruct (py_min_spec first rest) as [Hmin_in Hmin].
    destruct (py_max_spec first rest) as [Hmax_in Hmax].
    destruct (commonprefix_loop_between (py_min first rest) (py_max first rest))
      as (common & Hloop & Hstarts); [by apply Hmin|].
    exists common. split; [done|]. intros x Hx. by apply Hstarts; [apply Hmin|apply Hmax].
Qed.

(** Two lists with the same elements have the same common prefix. *)
Lemma commonprefix_set m m' :
  (forall x, x ∈ m <-> x ∈ m') -> commonprefix m' = commonprefix m.
Proof.
  intros Hsame. destruct m as [|first rest], m' as [|first' rest']; [done| | |].
  - exfalso. apply (not_elem_of_nil first'), Hsame, elem_of_cons. by left.
  - exfalso. apply (not_elem_of_nil first), Hsame, elem_of_cons. by left.
  - unfold commonprefix.
    destruct (py_min_spec first rest) as [Hmin_in Hmin].
    destruct (py_max_spec first rest) as [Hmax_in Hmax].
    destruct (py_min_spec first' rest') as [Hmin_in' Hmin'].
    destruct (py_max_spec first' rest') as [Hmax_in' Hmax'].
    f_equal; apply str_le_antisym.
    + by apply Hmin', Hsame.
    + by apply Hmin, Hsame.
    + by apply Hmax, Hsame.
    + by apply Hmax', Hsame.
Qed.

Lemma before_char_prefix char s : before_char char s `prefix_of` s.
Proof.
  induction s as [|c s IH]; [done|]. simpl.
  destruct (c =? char)%N; [apply prefix_nil|by apply prefix_cons].
Qed.

Lemma before_char_absent char s : char ∉ before_char char s.
Proof.
  induction s as [|c s IH]; simpl; [apply not_elem_of_nil|].
  destruct (N.eqb_spec c char) as [->|Hc]; [apply not_elem_of_nil|].
  rewrite elem_of_cons. by intros [->|?].
Qed.

Lemma rstrip_chars_prefix chars s : rstrip_chars chars s `prefix_of` s.
Proof.
  induction s as [|c s IH]; [done|]. simpl.
  destruct (rstrip_chars chars s) as [|d stripped].
  - destruct (bool_decide (c ∈ chars)); [apply prefix_nil|].
    apply prefix_cons, prefix_nil.
  - by apply prefix_cons.
Qed.

Lemma rstrip_chars_end chars s char :
  char ∈ chars -> last (rstrip_chars chars s) <> Some char.
Proof.
  intros Hchar. induction s as [|c s IH]; [done|]. simpl.
  destruct (rstrip_chars chars s) as [|d stripped] eqn:Hs.
  - destruct (bool_decide (c ∈ chars)) eqn:Hc; [done|]. simpl.
    intros [= ->]. by apply bool_decide_eq_false in Hc.
  - exact IH.
Qed.

(** [TileImporter._common_prefix] never raises, and a prefix it returns
    has at least [min_length] characters, starts every string of the
    collection, has no star, and does not end in one of the stripped
    characters. *)
Lemma common_prefix_is_common (collection : gset (list N)) (min_length : nat) :
  exists r, _common_prefix list_of collection min_length = Ok r
            /\ forall path, r = Some path ->
                 min_length <= length path
                 /\ (forall name, name ∈ list_of collection -> path `prefix_of` name)
                 /\ (STAR ∉ path)
                 /\ forall char, char ∈ STRIPPED -> last path <> Some char.
Proof.
  unfold _common_prefix.
  destruct (commonprefix_common (list_of collection)) as (common & -> & Hcommon). simpl.
  destruct (length _ <? min_length)%nat eqn:Hlen; eexists; (split; [done|]);
    intros path [= <-].
  apply Nat.ltb_ge in Hlen. split; [done|]. split; [|split].
  - intros name Hname.
    etrans; [apply rstrip_chars_prefix|].
    etrans; [apply before_char_prefix|]. by apply Hcommon.
  - intros Hstar. apply (before_char_absent STAR common).
    destruct (rstrip_chars_prefix STRIPPED (before_char STAR common)) as [k Hk].
    rewrite Hk. apply elem_of_app. by left.
  - intros char Hchar. by apply rstrip_chars_end.
Qed.

(** The order in which the set is taken does not matter. *)
Lemma common_prefix_any_order (list_of' : gset (list N) -> list (list N))
    (collection : gset (list N)) (min_length : nat) :
  list_to_set (list_of collection) = collection ->
  list_to_set (list_of' collection) = collection ->
  _common_prefix list_of' collection min_length
  = _common_prefix list_of collection min_length.
Proof.
  intros Hlist Hlist'. unfold _common_prefix.
  rewrite (commonprefix_set (list_of collection) (list_of' collection)); [done|].
  intros name.
  rewrite <- (elem_of_list_to_set (C := gset (list N)) name (list_of collection)).
  rewrite <- (elem_of_list_to_set (C := gset (list N)) name (list_of' collection)).
  by rewrite Hlist, Hlist'.
Qed.

(** The dataset path that [infer_dataset_path] chooses, with every name
    taken as the sequence of its code points, as Python has it.  The
    call never raises; a path it returns has at least four characters,
    no star and none of the stripped characters at its end, and it
    starts the tile name of every source, or else the name of the
    parent of every source; and the result is the same in whatever
    order Python takes the two sets of names. *)
Theorem infer_dataset_path_is_a_common_prefix
    (sources : list (list N)) (list_of' : gset (list N) -> list (list N)) :
  let names : gset (list N) := list_to_set (tile_name <$> sources) in
  let parent_names : gset (list N) := list_to_set (parent_name <$> sources) in
  list_to_set (list_of names) = names ->
  list_to_set (list_of parent_names) = parent_names ->
  list_to_set (list_of' names) = names ->
  list_to_set (list_of' parent_names) = parent_names ->
  exists r,
    infer_dataset_path tile_name parent_name list_of sources = Ok r
    /\ infer_dataset_path tile_name parent_name list_of' sources = Ok r
    /\ forall path, r = Some path ->
         4 <= length path
         /\ (STAR ∉ path)
         /\ (forall char, char ∈ STRIPPED -> last path <> Some char)
         /\ ((forall source, source ∈ sources -> path `prefix_of` tile_name source)
             \/ (forall source, source ∈ sources ->
                                path `prefix_of` parent_name source)).
Proof.
  intros names parent_names Hnames Hparents Hnames' Hparents'.
  unfold infer_dataset_path. fold names parent_names.
  rewrite (common_prefix_any_order list_of' names 4 Hnames Hnames').
  rewrite (common_prefix_any_order list_of' parent_names 4 Hparents Hparents').
  destruct (common_prefix_is_common names 4) as (r1 & -> & Hr1). simpl.
  destruct r1 as [path|].
  - exists (Some path). split; [done|]. split; [done|].
    intros ? [= <-]. destruct (Hr1 path eq_refl) as (Hlen & Hstarts & Hstar & Hend).
    repeat (split; [done|]). left. intros source Hsource. apply Hstarts.
    apply (elem_of_list_to_set (C := gset (list N))). rewrite Hnames.
    apply elem_of_list_to_set, list_elem_of_fmap. by exists source.
  - destruct (common_prefix_is_common parent_names 4) as (r2 & -> & Hr2).
    exists r2. split; [done|]. split; [done|].
    intros path ->. destruct (Hr2 path eq_refl) as (Hlen & Hstarts & Hstar & Hend).
    repeat (split; [done|]). right. intros source Hsource. apply Hstarts.
    apply (elem_of_list_to_set (C := gset (list N))). rewrite Hparents.
    apply elem_of_list_to_set, list_elem_of_fmap. by exists source.
Qed.

End DatasetPathFacts.

(** ** Dicts of deltas (kart/diff_structs.py) *)

Section DiffFacts.
Import DiffStructs KeyFilters Diffs.
Context {K V : Type} `{Countable K} `{EqDecision V}.
Implicit Types (a b d delta : Delta K V) (self other sum : DeltaDiff K V)
               (key : option K).

Lemma foldl_Raise {A B} (f : A -> B -> result A) e (l : list B) :
  foldl (fun acc x => acc ← acc; f acc x) (Raise e) l = Raise e.
Proof. induction l as [|x l IH]; [done|]. simpl. exact IH. Qed.

Lemma Diff_add_key_cell self other sum key :
  is_Some (self !! key) \/ is_Some (other !! key) ->
  Diff_add_key self other sum key
  = match Diff_add_cell self other key with
    | Ok (Some both) => Ok (<[key := both]> sum)
    | Ok None => Ok (base.delete key sum)
    | Raise e => Raise e
    end.
Proof.
  intros Hin. unfold Diff_add_key, Diff_add_cell, DeltaDiff_setitem.
  destruct (self !! key) as [lhs|], (other !! key) as [rhs|];
    try (by destruct Hin as [[? [=]]|[? [=]]]).
  - destruct (Delta_add lhs rhs) as [[both|]|e]; simpl; [|done..].
    by destruct (decide _).
  - by destruct (decide _).
  - by destruct (decide _).
Qed.

(** The loop of [Diff.__add__], from a result so far that has none of
    the keys still to come. *)
Lemma Diff_add_loop self other keys sum r :
  NoDup keys ->
  (forall key, key ∈ keys -> is_Some (self !! key) \/ is_Some (other !! key)) ->
  (forall key, key ∈ keys -> sum !! key = None) ->
  foldl (fun acc k => acc ← acc; Diff_add_key self other acc k) (Ok sum) keys = Ok r
  <-> (forall key, key ∈ keys -> Diff_add_cell self other key = Ok (r !! key))
      /\ (forall key, key ∉ keys -> r !! key = sum !! key).
Proof.
  revert sum. induction keys as [|k keys IH]; intros sum Hnd Hin Hsum; simpl.
  - split.
    + intros [= <-]. split; [intros key Hk; by apply elem_of_nil in Hk|done].
    + intros [_ Hr]. f_equal. apply map_eq. intros key. symmetry. apply Hr.
      apply not_elem_of_nil.
  - apply NoDup_cons in Hnd as [Hk Hnd].
    rewrite Diff_add_key_cell by (apply Hin; left).
    assert (Hin' : forall key, key ∈ keys ->
                     is_Some (self !! key) \/ is_Some (other !! key))
      by (intros key Hkey; apply Hin; by right).
    destruct (Diff_add_cell self other k) as [[both|]|e] eqn:Hcell.
    + rewrite IH; [|done|done|].
      2:{ intros key Hkey. rewrite lookup_insert_ne by (intros ->; done).
          apply Hsum. by right. }
      split.
      * intros [Hc Hr]. split.
        -- intros key [->|Hkey]%elem_of_cons; [|by apply Hc].
           by rewrite Hcell, (Hr k Hk), lookup_insert_eq.
        -- intros key Hkey. apply not_elem_of_cons in Hkey as [Hne Hkey].
           by rewrite (Hr key Hkey), lookup_insert_ne.
      * intros [Hc Hr]. split.
        -- intros key Hkey. apply Hc. by right.
        -- intros key Hkey. destruct (decide (key = k)) as [->|Hne].
           ++ rewrite lookup_insert_eq.
              specialize (Hc k (proj2 (elem_of_cons _ _ _) (or_introl eq_refl))).
              rewrite Hcell in Hc. by injection Hc as <-.
           ++ rewrite lookup_insert_ne by done. apply Hr.
              by apply not_elem_of_cons.
    + rewrite IH; [|done|done|].
      2:{ intros key Hkey. rewrite lookup_delete_ne by (intros ->; done).
          apply Hsum. by right. }
      split.
      * intros [Hc Hr]. split.
        -- intros key [->|Hkey]%elem_of_cons; [|by apply Hc].
           by rewrite Hcell, (Hr k Hk), lookup_delete_eq.
        -- intros key Hkey. apply not_elem_of_cons in Hkey as [Hne Hkey].
           by rewrite (Hr key Hkey), lookup_delete_ne.
      * intros [Hc Hr]. split.
        -- intros key Hkey. apply Hc. by right.
        -- intros key Hkey. destruct (decide (key = k)) as [->|Hne].
           ++ rewrite lookup_delete_eq.
              specialize (Hc k (proj2 (elem_of_cons _ _ _) (or_introl eq_refl))).
              rewrite Hcell in Hc. by injection Hc as <-.
           ++ rewrite lookup_delete_ne by done. apply Hr.
              by apply not_elem_of_cons.
    + rewrite foldl_Raise. split; [done|].
      intros [Hc _]. specialize (Hc k (proj2 (elem_of_cons _ _ _) (or_introl eq_refl))).
      by rewrite Hcell in Hc.
Qed.

Lemma Diff_add_cell_outside self other key :
  self !! key = None -> other !! key = None ->
  Diff_add_cell self other key = Ok None.
Proof. intros Hs Ho. unfold Diff_add_cell. by rewrite Hs, Ho. Qed.

Lemma union_keys_elem self other keys :
  union_keys keys self other ->
  NoDup keys
  /\ forall key, key ∈ keys <-> is_Some (self !! key) \/ is_Some (other !! key).
Proof.
  intros [Hnd Hset]. split; [done|]. intros key.
  rewrite <- !elem_of_dom, <- elem_of_union, <- Hset. by rewrite elem_of_list_to_set.
Qed.

Lemma dict_keys_elem self keys :
  dict_keys keys self ->
  NoDup keys /\ forall key, key ∈ keys <-> is_Some (self !! key).
Proof.
  intros [Hnd Hset]. split; [done|]. intros key.
  rewrite <- elem_of_dom, <- Hset. by rewrite elem_of_list_to_set.
Qed.

Lemma dicts_keys_elem (old new : gmap K V) keys k :
  dicts_keys keys old new -> is_Some (old !! k) \/ is_Some (new !! k) -> k ∈ keys.
Proof.
  intros Hsub Hk. apply (elem_of_list_to_set (C := gset K)). apply Hsub.
  by rewrite elem_of_union, !elem_of_dom.
Qed.

Lemma Diff_add_cells self other keys r :
  union_keys keys self other ->
  Diff_add keys self other = Ok r
  <-> (forall key, Diff_add_cell self other key = Ok (r !! key)).
Proof.
  intros [Hnd Hkeys]%union_keys_elem. unfold Diff_add.
  rewrite Diff_add_loop; [|done|by intros key ?%Hkeys|by intros].
  split.
  - intros [Hc Hr] key. destruct (decide (key ∈ keys)) as [Hin|Hout]; [by apply Hc|].
    rewrite (Hr key Hout), lookup_empty. apply Diff_add_cell_outside.
    + apply eq_None_not_Some. intros Hs. apply Hout, Hkeys. by left.
    + apply eq_None_not_Some. intros Hs. apply Hout, Hkeys. by right.
  - intros Hc. split; [by intros|].
    intros key Hout. rewrite lookup_empty.
    specialize (Hc key). rewrite Diff_add_cell_outside in Hc.
    + by injection Hc as <-.
    + apply eq_None_not_Some. intros Hs. apply Hout, Hkeys. by left.
    + apply eq_None_not_Some. intros Hs. apply Hout, Hkeys. by right.
Qed.

Lemma Diff_add_cell_keyed self other key both :
  Diff_add_cell self other key = Ok (Some both) -> Delta_key both = key.
Proof.
  unfold Diff_add_cell.
  destruct (self !! key) as [lhs|], (other !! key) as [rhs|]; [| | |done].
  - destruct (Delta_add lhs rhs) as [[b|]|e]; simpl; [|done..].
    destruct (decide _) as [->|]; [|done]. by intros [= <-].
  - destruct (decide _) as [->|]; [|done]. by intros [= <-].
  - destruct (decide _) as [->|]; [|done]. by intros [= <-].
Qed.

(** [Diff.__add__] key by key.  Whatever the order of the loop, the sum of
    two [DeltaDiff]s is there exactly when every key has its cell: a key
    of both holds the sum of the two deltas, or nothing when they cancel; a
    key of one holds its delta; and what is stored is stored at its own
    key.  An exception at any key is an exception of the whole sum. *)
Theorem Diff_add_is_keywise self other keys :
  union_keys keys self other ->
  (forall r, Diff_add keys self other = Ok r
             <-> forall key, Diff_add_cell self other key = Ok (r !! key))
  /\ (forall r, Diff_add keys self other = Ok r -> keyed r)
  /\ (forall key e, Diff_add_cell self other key = Raise e ->
                    is_ok (Diff_add keys self other) = false).
Proof.
  intros Hkeys. split; [intros r; by apply Diff_add_cells|]. split.
  - intros r Hr key delta Hd.
    pose proof (proj1 (Diff_add_cells _ _ _ _ Hkeys) Hr) as Hc.
    apply (Diff_add_cell_keyed self other). by rewrite Hc, Hd.
  - intros key e Hc. destruct (Diff_add keys self other) as [r|] eqn:Hr; [|done].
    pose proof (proj1 (Diff_add_cells _ _ _ _ Hkeys) Hr) as Hc'.
    by rewrite Hc' in Hc.
Qed.

Lemma diff_dicts_delta_spec (old new : gmap K V) f k :
  diff_dicts_delta old new f k = Ok (dict_delta old new f k).
Proof.
  unfold diff_dicts_delta, dict_delta.
  destruct (old !! k) as [v|], (new !! k) as [w|]; simpl.
  - destruct (decide (Some v = Some w)) as [[= ->]|Hne].
    + by rewrite decide_True.
    + rewrite decide_False by (intros ->; done). done.
  - done.
  - done.
  - done.
Qed.

Lemma dict_delta_key (old new : gmap K V) f k d :
  dict_delta old new f k = Some d -> Delta_key d = Some k.
Proof.
  unfold dict_delta.
  destruct (old !! k) as [v|], (new !! k) as [w|]; [| | |done].
  - destruct (decide (v = w)); [done|]. by intros [= <-].
  - by intros [= <-].
  - by intros [= <-].
Qed.

(** The loop of [diff_dicts], from the diff so far. *)
Lemma diff_dicts_loop (old new : gmap K V) f keys sum :
  exists r,
    add_deltas (diff_dicts_as_deltas keys old new f) sum = Ok r
    /\ r !! None = sum !! None
    /\ forall k, r !! Some k
                 = match (if decide (k ∈ keys) then dict_delta old new f k else None) with
                   | Some d => Some d
                   | None => sum !! Some k
                   end.
Proof.
  revert sum. induction keys as [|k0 keys IH]; intros sum; simpl.
  - exists sum. split; [done|]. split; [done|]. by intros k.
  - rewrite diff_dicts_delta_spec.
    destruct (dict_delta old new f k0) as [d0|] eqn:Hd0; simpl.
    + destruct (IH (add_delta d0 sum)) as (r & Hr & Hnone & Hsome).
      exists r. split; [done|]. unfold add_delta in *.
      rewrite (dict_delta_key _ _ _ _ _ Hd0) in *. split.
      * by rewrite Hnone, lookup_insert_ne.
      * intros k. rewrite Hsome. destruct (decide (k = k0)) as [->|Hne].
        -- rewrite (decide_True (P := k0 ∈ k0 :: keys)) by (apply elem_of_cons; by left).
           rewrite Hd0. destruct (decide (k0 ∈ keys)); [done|].
           by rewrite lookup_insert_eq.
        -- rewrite lookup_insert_ne by congruence.
           destruct (decide (k ∈ keys)) as [Hin|Hout].
           ++ by rewrite decide_True by (apply elem_of_cons; by right).
           ++ by rewrite decide_False by (apply not_elem_of_cons; done).
    + destruct (IH sum) as (r & Hr & Hnone & Hsome).
      exists r. split; [done|]. split; [done|].
      intros k. rewrite Hsome. destruct (decide (k = k0)) as [->|Hne].
      * rewrite (decide_True (P := k0 ∈ k0 :: keys)) by (apply elem_of_cons; by left).
        rewrite Hd0. by destruct (decide (k0 ∈ keys)).
      * destruct (decide (k ∈ keys)) as [Hin|Hout].
        -- by rewrite decide_True by (apply elem_of_cons; by right).
        -- by rewrite decide_False by (apply not_elem_of_cons; done).
Qed.

Lemma dict_delta_outside (old new : gmap K V) f keys k :
  dicts_keys keys old new -> k ∉ keys -> dict_delta old new f k = None.
Proof.
  intros Hkeys Hout. unfold dict_delta.
  destruct (old !! k) as [v|] eqn:Ho.
  { exfalso. apply Hout, (dicts_keys_elem old new _ _ Hkeys). left. by rewrite Ho. }
  destruct (new !! k) as [w|] eqn:Hn; [|done].
  exfalso. apply Hout, (dicts_keys_elem old new _ _ Hkeys). right. by rewrite Hn.
Qed.

Lemma diff_dicts_lookup (old new : gmap K V) f keys :
  dicts_keys keys old new ->
  exists r, diff_dicts keys old new f = Ok r
            /\ r !! None = None
            /\ forall k, r !! Some k = dict_delta old new f k.
Proof.
  intros Hkeys. unfold diff_dicts.
  destruct (diff_dicts_loop old new f keys ∅) as (r & Hr & Hnone & Hsome).
  exists r. split; [done|]. split; [by rewrite Hnone|].
  intros k. rewrite Hsome, lookup_empty.
  destruct (decide (k ∈ keys)) as [Hin|Hout].
  - by destruct (dict_delta old new f k).
  - by rewrite (dict_delta_outside _ _ _ _ _ Hkeys Hout).
Qed.

Lemma dict_delta_same (d : gmap K V) f k : dict_delta d d f k = None.
Proof.
  unfold dict_delta. destruct (d !! k); [|done]. by rewrite decide_True.
Qed.

(** [DeltaDiff.diff_dicts] never raises, whatever the order of its loop.
    For each key, the diff holds nothing where the two dicts have the same
    value (or both none), an insert where only the new dict has one, a
    delete where only the old dict has one, and else the update; each
    delta carries the flags given and is stored at its key.  The diff of
    a dict with itself is empty. *)
Theorem diff_dicts_holds_the_changed_keys (old new : gmap K V) f keys :
  dicts_keys keys old new ->
  (exists r, diff_dicts keys old new f = Ok r
             /\ r !! None = None
             /\ (forall k, r !! Some k = dict_delta old new f k)
             /\ keyed r)
  /\ diff_dicts keys old old f = Ok ∅.
Proof.
  intros Hkeys. split.
  - destruct (diff_dicts_lookup old new f keys Hkeys) as (r & Hr & Hnone & Hsome).
    exists r. split; [done|]. split; [done|]. split; [done|].
    intros [k|] d Hd; [|by rewrite Hnone in Hd].
    rewrite Hsome in Hd. by apply dict_delta_key in Hd.
  - unfold diff_dicts.
    destruct (diff_dicts_loop old old f keys ∅) as (r & Hr & Hnone & Hsome).
    rewrite Hr. f_equal. apply map_eq. intros [k|].
    + rewrite Hsome, lookup_empty, dict_delta_same. by destruct (decide _).
    + by rewrite Hnone.
Qed.

(** The loop of [DeltaDiff.__invert__], from the inverse so far, when
    every inverted delta goes to the key its delta was at. *)
Lemma DeltaDiff_invert_loop (items : list (option K * Delta K V)) sum :
  NoDup items.*1 ->
  (forall key d, (key, d) ∈ items ->
                 exists d', Delta_invert d = Ok d' /\ Delta_key d' = key) ->
  exists r,
    foldl (fun inverse item =>
             inverse ← inverse;
             inverted ← Delta_invert item.2;
             Ok (add_delta inverted inverse))
          (Ok sum) items = Ok r
    /\ forall key, r !! key
                   = match (list_to_map items : gmap (option K) (Delta K V)) !! key with
                     | Some d => match Delta_invert d with
                                 | Ok d' => Some d'
                                 | Raise _ => None
                                 end
                     | None => sum !! key
                     end.
Proof.
  revert sum. induction items as [|[k0 d0] items IH]; intros sum Hnd Hinv; simpl.
  - exists sum. split; [done|]. intros key. by rewrite lookup_empty.
  - apply NoDup_cons in Hnd as [Hk0 Hnd].
    destruct (Hinv k0 d0) as (d0' & Hd0 & Hkey); [apply elem_of_cons; by left|].
    rewrite Hd0. simpl.
    change (add_delta d0' sum) with (<[Delta_key d0' := d0']> sum). rewrite Hkey.
    destruct (IH (<[k0 := d0']> sum) Hnd) as (r & Hr & Hlook).
    { intros key d Hin. apply Hinv. apply elem_of_cons. by right. }
    exists r. split; [exact Hr|]. intros key. rewrite Hlook.
    destruct (decide (key = k0)) as [->|Hne].
    + rewrite (proj1 (not_elem_of_list_to_map _ _) Hk0).
      by rewrite !lookup_insert_eq, Hd0.
    + by rewrite !lookup_insert_ne by done.
Qed.

Lemma items_of_map {A} (self : gmap (option K) A) items :
  items ≡ₚ map_to_list self ->
  NoDup items.*1
  /\ (forall key (x : A), (key, x) ∈ items <-> self !! key = Some x)
  /\ (list_to_map items : gmap (option K) A) = self.
Proof.
  intros Hp. split; [|split].
  - rewrite Hp. apply NoDup_fst_map_to_list.
  - intros key x. rewrite Hp. apply elem_of_map_to_list.
  - transitivity (list_to_map (map_to_list self) : gmap (option K) A);
      [|apply list_to_map_to_list].
    apply list_to_map_proper; [|done].
    rewrite Hp. apply NoDup_fst_map_to_list.
Qed.

(** Inverting the diff of two dicts gives the diff of the dicts taken
    the other way round, whatever the orders of the three loops; the
    flags of the deltas are not kept by the inversion. *)
Theorem DeltaDiff_invert_of_diff_dicts (old new : gmap K V) f keys keys' r items :
  dicts_keys keys old new ->
  dicts_keys keys' new old ->
  diff_dicts keys old new f = Ok r ->
  dict_items items r ->
  DeltaDiff_invert items = diff_dicts keys' new old 0.
Proof.
  intros Hkeys Hkeys' Hr Hitems.
  destruct (diff_dicts_lookup old new f keys Hkeys) as (r0 & Hr0 & Hnone & Hsome).
  rewrite Hr in Hr0. injection Hr0 as <-.
  destruct (diff_dicts_lookup new old 0 keys' Hkeys') as (r' & Hr' & Hnone' & Hsome').
  rewrite Hr'.
  destruct (items_of_map r items Hitems) as (Hnd & Hin & Hmap).
  destruct (DeltaDiff_invert_loop items ∅ Hnd) as (ri & Hri & Hlook).
  { intros [k|] d Hd%Hin; [|by rewrite Hnone in Hd].
    rewrite Hsome in Hd. unfold dict_delta in Hd.
    destruct (old !! k) as [v|], (new !! k) as [w|]; [| | |done].
    - destruct (decide (v = w)); [done|]. injection Hd as <-. by eexists.
    - injection Hd as <-. by eexists.
    - injection Hd as <-. by eexists. }
  unfold DeltaDiff_invert. rewrite Hri. f_equal. apply map_eq. intros [k|].
  - rewrite Hlook, Hmap, Hsome, Hsome', lookup_empty. unfold dict_delta.
    destruct (old !! k) as [v|], (new !! k) as [w|]; [| | |done].
    + destruct (decide (v = w)) as [->|Hne].
      * by rewrite decide_True.
      * by rewrite decide_False by congruence.
    + done.
    + done.
  - by rewrite Hlook, Hmap, Hnone, Hnone', lookup_empty.
Qed.

Lemma dict_delta_add (a b c : gmap K V) f k :
  (both ← match dict_delta a b f k, dict_delta b c f k with
          | Some lhs, Some rhs => Delta_add lhs rhs
          | Some delta, None | None, Some delta => Ok (Some delta)
          | None, None => Ok None
          end;
   Ok both) = Ok (dict_delta a c f k).
Proof.
  unfold dict_delta.
  destruct (a !! k) as [u|], (b !! k) as [v|], (c !! k) as [w|];
    repeat match goal with
           | |- context [decide (?x = ?y)] => destruct (decide (x = y)); subst
           end;
    try done; unfold Delta_add; simpl;
    repeat match goal with
           | |- context [decide (?x = ?y)] => destruct (decide (x = y)); subst
           end;
    try done; simpl; rewrite ?Z.lor_diag; try done.
Qed.

(** Diffs of dicts compose: the diff from [a] to [b] plus the diff from
    [b] to [c] is the diff from [a] to [c], with no conflict, whatever the
    orders of the loops.  (The deltas carry the same flags [f] in each.) *)
Theorem Diff_add_of_diff_dicts (a b c : gmap K V) f ks1 ks2 ks3 keys r1 r2 :
  dicts_keys ks1 a b -> dicts_keys ks2 b c -> dicts_keys ks3 a c ->
  diff_dicts ks1 a b f = Ok r1 ->
  diff_dicts ks2 b c f = Ok r2 ->
  union_keys keys r1 r2 ->
  Diff_add keys r1 r2 = diff_dicts ks3 a c f.
Proof.
  intros H1 H2 H3 Hr1 Hr2 Hkeys.
  destruct (diff_dicts_lookup a b f ks1 H1) as (r1' & Hr1' & Hnone1 & Hsome1).
  rewrite Hr1 in Hr1'. injection Hr1' as <-.
  destruct (diff_dicts_lookup b c f ks2 H2) as (r2' & Hr2' & Hnone2 & Hsome2).
  rewrite Hr2 in Hr2'. injection Hr2' as <-.
  destruct (diff_dicts_lookup a c f ks3 H3) as (r3 & Hr3 & Hnone3 & Hsome3).
  rewrite Hr3. apply (Diff_add_cells _ _ _ _ Hkeys).
  intros [k|]; unfold Diff_add_cell.
  - rewrite Hsome1, Hsome2, Hsome3.
    pose proof (dict_delta_add a b c f k) as Hadd.
    pose proof (dict_delta_key a c f k) as Hkey3.
    destruct (dict_delta a b f k) as [lhs|] eqn:Hl,
             (dict_delta b c f k) as [rhs|] eqn:Hrr; simpl in Hadd.
    + destruct (Delta_add lhs rhs) as [[both|]|e]; simpl in Hadd |- *; [| |done].
      * injection Hadd as Hadd. symmetry in Hadd. rewrite Hadd.
        by rewrite decide_True by (symmetry; by apply Hkey3).
      * by injection Hadd as <-.
    + injection Hadd as Hadd. symmetry in Hadd. rewrite Hadd.
      by rewrite decide_True by (symmetry; by apply Hkey3).
    + injection Hadd as Hadd. symmetry in Hadd. rewrite Hadd.
      by rewrite decide_True by (symmetry; by apply Hkey3).
    + by injection Hadd as <-.
  - by rewrite Hnone1, Hnone2, Hnone3.
Qed.

Lemma Diff_add_cell_ext self self' other key :
  self !! key = self' !! key ->
  Diff_add_cell self other key = Diff_add_cell self' other key.
Proof. intros Heq. unfold Diff_add_cell. by rewrite Heq. Qed.

Lemma Diff_iadd_key_cell other self key :
  is_Some (other !! key) ->
  Diff_iadd_key other key self
  = match Diff_add_cell self other key with
    | Ok (Some both) => (Ok tt, <[key := both]> self)
    | Ok None => (Ok tt, base.delete key self)
    | Raise e => (Raise e, self)
    end.
Proof.
  intros [rhs Hrhs]. unfold Diff_iadd_key, Diff_add_cell, DeltaDiff_setitem.
  rewrite Hrhs. destruct (self !! key) as [lhs|].
  - destruct (Delta_add lhs rhs) as [[both|]|e]; simpl; [|done..].
    by destruct (decide _).
  - by destruct (decide _).
Qed.

(** The loop of [Diff.__iadd__], from the object as it is. *)
Lemma Diff_iadd_loop other keys self r :
  NoDup keys ->
  (forall key, key ∈ keys -> is_Some (other !! key)) ->
  for_each keys (Diff_iadd_key other) self = (Ok tt, r)
  <-> (forall key, key ∈ keys -> Diff_add_cell self other key = Ok (r !! key))
      /\ (forall key, key ∉ keys -> r !! key = self !! key).
Proof.
  revert self. induction keys as [|k keys IH]; intros self Hnd Hin.
  - unfold for_each, ret. split.
    + intros [= <-]. split; [intros key Hk; by apply elem_of_nil in Hk|done].
    + intros [_ Hr]. f_equal. apply map_eq. intros key. symmetry. apply Hr.
      apply not_elem_of_nil.
  - apply NoDup_cons in Hnd as [Hk Hnd].
    assert (Hin' : forall key, key ∈ keys -> is_Some (other !! key))
      by (intros key Hkey; apply Hin; apply elem_of_cons; by right).
    rewrite for_each_cons. unfold bind at 1.
    rewrite Diff_iadd_key_cell by (apply Hin; apply elem_of_cons; by left).
    destruct (Diff_add_cell self other k) as [[both|]|e] eqn:Hcell.
    + rewrite (IH _ Hnd Hin'). split.
      * intros [Hc Hr]. split.
        -- intros key [->|Hkey]%elem_of_cons.
           ++ by rewrite Hcell, (Hr k Hk), lookup_insert_eq.
           ++ rewrite <- (Hc key Hkey). apply Diff_add_cell_ext.
              rewrite lookup_insert_ne; [done|]. by intros ->.
        -- intros key Hkey. apply not_elem_of_cons in Hkey as [Hne Hkey].
           by rewrite (Hr key Hkey), lookup_insert_ne.
      * intros [Hc Hr]. split.
        -- intros key Hkey. rewrite <- (Hc key) by (apply elem_of_cons; by right).
           apply Diff_add_cell_ext. rewrite lookup_insert_ne; [done|]. by intros ->.
        -- intros key Hkey. destruct (decide (key = k)) as [->|Hne].
           ++ rewrite lookup_insert_eq.
              specialize (Hc k (proj2 (elem_of_cons _ _ _) (or_introl eq_refl))).
              rewrite Hcell in Hc. by injection Hc as <-.
           ++ rewrite lookup_insert_ne by done. apply Hr.
              by apply not_elem_of_cons.
    + rewrite (IH _ Hnd Hin'). split.
      * intros [Hc Hr]. split.
        -- intros key [->|Hkey]%elem_of_cons.
           ++ by rewrite Hcell, (Hr k Hk), lookup_delete_eq.
           ++ rewrite <- (Hc key Hkey). apply Diff_add_cell_ext.
              rewrite lookup_delete_ne; [done|]. by intros ->.
        -- intros key Hkey. apply not_elem_of_cons in Hkey as [Hne Hkey].
           by rewrite (Hr key Hkey), lookup_delete_ne.
      * intros [Hc Hr]. split.
        -- intros key Hkey. rewrite <- (Hc key) by (apply elem_of_cons; by right).
           apply Diff_add_cell_ext. rewrite lookup_delete_ne; [done|]. by intros ->.
        -- intros key Hkey. destruct (decide (key = k)) as [->|Hne].
           ++ rewrite lookup_delete_eq.
              specialize (Hc k (proj2 (elem_of_cons _ _ _) (or_introl eq_refl))).
              rewrite Hcell in Hc. by injection Hc as <-.
           ++ rewrite lookup_delete_ne by done. apply Hr.
              by apply not_elem_of_cons.
    + split; [done|].
      intros [Hc _].
      specialize (Hc k (proj2 (elem_of_cons _ _ _) (or_introl eq_refl))).
      by rewrite Hcell in Hc.
Qed.

(** [Diff.__iadd__] agrees with [Diff.__add__]: on a diff that has its
    deltas at their keys, [self += other] leaves in [self] exactly the
    diff that [self + other] returns, and it raises exactly when
    [self + other] raises, whatever the orders of the two loops. *)
Theorem Diff_iadd_agrees_with_Diff_add self other keys keys_other :
  keyed self ->
  dict_keys keys_other other ->
  union_keys keys self other ->
  (forall r, Diff_iadd keys_other other self = (Ok tt, r)
             <-> Diff_add keys self other = Ok r)
  /\ is_ok (fst (Diff_iadd keys_other other self)) = is_ok (Diff_add keys self other).
Proof.
  intros Hkeyed [Hnd Hko]%dict_keys_elem Hkeys.
  assert (Hiff : forall r, Diff_iadd keys_other other self = (Ok tt, r)
                           <-> Diff_add keys self other = Ok r).
  { intros r. unfold Diff_iadd.
    rewrite Diff_iadd_loop; [|done|by intros key ?%Hko].
    rewrite (Diff_add_cells _ _ _ _ Hkeys). split.
    - intros [Hc Hr] key.
      destruct (decide (key ∈ keys_other)) as [Hin|Hout]; [by apply Hc|].
      rewrite (Hr key Hout). unfold Diff_add_cell.
      rewrite (proj2 (eq_None_not_Some _) (fun Hs => Hout (proj2 (Hko key) Hs))).
      destruct (self !! key) as [d|] eqn:Hd; [|done].
      by rewrite decide_True by (symmetry; by apply Hkeyed).
    - intros Hc. split; [by intros|].
      intros key Hout. specialize (Hc key). unfold Diff_add_cell in Hc.
      rewrite (proj2 (eq_None_not_Some _) (fun Hs => Hout (proj2 (Hko key) Hs))) in Hc.
      destruct (self !! key) as [d|] eqn:Hd.
      + rewrite decide_True in Hc by (symmetry; by apply Hkeyed).
        by injection Hc as <-.
      + by injection Hc as <-. }
  split; [exact Hiff|].
  destruct (Diff_iadd keys_other other self) as [[[]|e] r] eqn:Hi; simpl.
  - by rewrite (proj1 (Hiff r) eq_refl).
  - destruct (Diff_add keys self other) as [r'|e'] eqn:Ha; [|done].
    by pose proof (proj2 (Hiff r') eq_refl).
Qed.

(** *** Concatenating the diffs along a chain of dicts *)

(** A diff that holds, key by key, the changes from [old] to [new]. *)
Lemma diff_of_dicts_unique (old new : gmap K V) (f : Z) (r r' : DeltaDiff K V) :
  r !! None = None -> (forall k, r !! Some k = dict_delta old new f k) ->
  r' !! None = None -> (forall k, r' !! Some k = dict_delta old new f k) ->
  r = r'.
Proof.
  intros Hnone Hsome Hnone' Hsome'. apply map_eq. intros [k|].
  - by rewrite Hsome, Hsome'.
  - by rewrite Hnone, Hnone'.
Qed.

Lemma dicts_keys_exist (old new : gmap K V) :
  exists ks, dicts_keys ks old new.
Proof.
  exists (elements (dom old ∪ dom new)). unfold dicts_keys.
  by rewrite list_to_set_elements_L.
Qed.

(** Adding in place the diff from [b] to [c] to the diff from [a] to [b]
    leaves the diff from [a] to [c]. *)
Lemma Diff_iadd_of_diff_dicts (a b c : gmap K V) (f : Z) (keys : list (option K))
    (r1 r2 : DeltaDiff K V) :
  r1 !! None = None -> (forall k, r1 !! Some k = dict_delta a b f k) ->
  r2 !! None = None -> (forall k, r2 !! Some k = dict_delta b c f k) ->
  dict_keys keys r2 ->
  exists r3, Diff_iadd keys r2 r1 = (Ok tt, r3)
             /\ r3 !! None = None
             /\ (forall k, r3 !! Some k = dict_delta a c f k).
Proof.
  intros Hnone1 Hsome1 Hnone2 Hsome2 [Hnd Hkeys]%dict_keys_elem.
  destruct (dicts_keys_exist a c) as [ks Hks].
  destruct (diff_dicts_lookup a c f ks Hks) as (r3 & _ & Hnone3 & Hsome3).
  exists r3. split; [|done].
  unfold Diff_iadd. apply Diff_iadd_loop; [done|by intros key ?%Hkeys|].
  assert (Hcell : forall key, Diff_add_cell r1 r2 key = Ok (r3 !! key)).
  { intros [k|]; unfold Diff_add_cell.
    - rewrite Hsome1, Hsome2, Hsome3.
      pose proof (dict_delta_add a b c f k) as Hadd.
      pose proof (dict_delta_key a c f k) as Hkey3.
      destruct (dict_delta a b f k) as [lhs|] eqn:Hl,
               (dict_delta b c f k) as [rhs|] eqn:Hrr; simpl in Hadd.
      + destruct (Delta_add lhs rhs) as [[both|]|e]; simpl in Hadd |- *; [| |done].
        * injection Hadd as Hadd. symmetry in Hadd. rewrite Hadd.
          by rewrite decide_True by (symmetry; by apply Hkey3).
        * by injection Hadd as <-.
      + injection Hadd as Hadd. symmetry in Hadd. rewrite Hadd.
        by rewrite decide_True by (symmetry; by apply Hkey3).
      + injection Hadd as Hadd. symmetry in Hadd. rewrite Hadd.
        by rewrite decide_True by (symmetry; by apply Hkey3).
      + by injection Hadd as <-.
    - by rewrite Hnone1, Hnone2, Hnone3. }
  split; [by intros|].
  intros key Hout.
  assert (Hnot : r2 !! key = None).
  { apply eq_None_not_Some. intros Hs. by apply Hout, Hkeys. }
  specialize (Hcell key). unfold Diff_add_cell in Hcell. rewrite Hnot in Hcell.
  destruct (r1 !! key) as [d|] eqn:Hd; [|by injection Hcell as <-].
  destruct (decide (key = Delta_key d)); [|done]. by injection Hcell as <-.
Qed.

(** The loop of [Diff.concatenated] along a chain of dicts: what
    [result] names holds the changes from the first dict to the dict
    reached so far. *)
Lemma concatenated_loop_along (f : Z) (first old last : gmap K V)
    (diffs : list (option (list (option K) * DeltaDiff K V)))
    (res : option (DeltaDiff K V)) :
  diffs_along f old diffs last ->
  match res with
  | None => first = old
  | Some r => r !! None = None /\ forall k, r !! Some k = dict_delta first old f k
  end ->
  exists res', for_each diffs concatenated_step res = (Ok tt, res')
               /\ match res' with
                  | None => first = last
                  | Some r =>
                      r !! None = None
                      /\ forall k, r !! Some k = dict_delta first last f k
                  end.
Proof.
  revert old res. induction diffs as [|[[keys diff]|] diffs IH]; intros old res Halong Hres.
  - simpl in Halong. subst last. exists res. by split.
  - destruct Halong as (Hkeys & ks & new & Hks & Hdiff & Halong).
    destruct (diff_dicts_lookup old new f ks Hks) as (d & Hd & Hnone & Hsome).
    rewrite Hdiff in Hd. injection Hd as <-.
    rewrite for_each_cons. unfold bind at 1. destruct res as [r|].
    + destruct Hres as [Hnone1 Hsome1].
      destruct (Diff_iadd_of_diff_dicts first old new f keys r diff
                  Hnone1 Hsome1 Hnone Hsome Hkeys) as (r3 & Hadd & Hnone3 & Hsome3).
      unfold concatenated_step at 1. rewrite Hadd.
      by apply (IH new (Some r3)).
    + subst first. unfold concatenated_step at 1.
      by apply (IH new (Some diff)).
  - rewrite for_each_cons. unfold bind at 1, concatenated_step at 1.
    by apply (IH old res).
Qed.

(** [Diff.concatenated] along a chain of dicts.  Given the diffs from
    each dict of a chain to the next, in that order, with [None]s
    anywhere between them, it returns the diff from the first dict to
    the last, without conflict, whatever the orders of the loops; with
    no diff at all it returns the empty diff. *)
Theorem Diff_concatenated_along_a_chain (f : Z) (old last : gmap K V)
    (diffs : list (option (list (option K) * DeltaDiff K V))) (ks : list K) :
  diffs_along f old diffs last ->
  dicts_keys ks old last ->
  Diff_concatenated diffs = diff_dicts ks old last f
  /\ Diff_concatenated (K := K) (V := V) [] = Ok ∅.
Proof.
  intros Halong Hks. split; [|done].
  destruct (concatenated_loop_along f old old last diffs None Halong eq_refl)
    as (res & Hloop & Hres).
  destruct (diff_dicts_lookup old last f ks Hks) as (r & Hr & Hnone & Hsome).
  unfold Diff_concatenated. rewrite Hloop, Hr.
  destruct res as [r'|]; f_equal.
  - destruct Hres as [Hnone' Hsome']. by apply (diff_of_dicts_unique old last f).
  - subst last. apply (diff_of_dicts_unique old old f); [done| |done..].
    intros k. by rewrite lookup_empty, dict_delta_same.
Qed.

(** *** Conflicts *)

Lemma get_lazy_value_key (kv : KeyValue K V) : key (snd (get_lazy_value kv)) = key kv.
Proof. by destruct kv as [k [v|g] [c|]]. Qed.

(** The sum of two well-formed deltas: [Conflict] for a conflicting pair
    of types, else nothing or a delta whose key is the new key of [b]
    after an insert, and the old key of [a] otherwise. *)
Lemma Delta_add_key a b :
  Delta_wf a = true -> Delta_wf b = true ->
  if conflicting (type a) (type b) then Delta_add a b = Raise Conflict
  else exists s, Delta_add a b = Ok s
                 /\ forall both, s = Some both ->
                      Delta_key both
                      = if decide (type a = insert) then new_key b else old_key a.
Proof.
  intros Ha Hb. unfold Delta_add.
  destruct (Delta_wf_cases a Ha)
    as [(Ta & Oa & na & Na)|[(Ta & (oa & Oa) & na & Na)|(Ta & (oa & Oa) & Na)]];
  destruct (Delta_wf_cases b Hb)
    as [(Tb & Ob & nb & Nb)|[(Tb & (ob & Ob) & nb & Nb)|(Tb & (ob & Ob) & Nb)]];
  rewrite Ta, Tb, ?Oa, ?Na, ?Ob, ?Nb, ?Delta_maybe_update_Some; simpl; try done;
  try (destruct (decide (fst (get_lazy_value oa) = fst (get_lazy_value nb))); simpl);
  eexists; (split; [reflexivity|]); intros both [=]; subst both;
  unfold Delta_key, old_key, new_key; simpl; rewrite ?Oa, ?Nb; simpl;
  by rewrite ?get_lazy_value_key.
Qed.

Lemma Delta_key_cases d :
  Delta_wf d = true ->
  Delta_key d = if decide (type d = insert) then new_key d else old_key d.
Proof.
  intros Hd. unfold Delta_key, old_key, new_key.
  destruct (Delta_wf_cases d Hd)
    as [(T & O & n & N)|[(T & (o & O) & n & N)|(T & (o & O) & N)]];
    by rewrite T, O, ?N.
Qed.

Lemma is_rename_false d :
  Delta_wf d = true -> is_rename d = false -> type d = update ->
  new_key d = old_key d.
Proof.
  intros Hd Hr T. unfold is_rename in Hr. rewrite T in Hr.
  rewrite bool_decide_eq_true_2 in Hr by done. simpl in Hr.
  apply negb_false_iff, bool_decide_eq_true in Hr. done.
Qed.

(** The cell of a key of both diffs, when the deltas are at their keys
    and the second is no rename. *)
Lemma Diff_add_cell_conflict self other key lhs rhs :
  self !! key = Some lhs -> other !! key = Some rhs ->
  Delta_wf lhs = true -> Delta_wf rhs = true ->
  Delta_key lhs = key -> Delta_key rhs = key -> is_rename rhs = false ->
  if conflicting (type lhs) (type rhs)
  then Diff_add_cell self other key = Raise Conflict
  else exists cell, Diff_add_cell self other key = Ok cell.
Proof.
  intros Hl Hr Wl Wr Kl Kr Rr. unfold Diff_add_cell. rewrite Hl, Hr.
  pose proof (Delta_add_key lhs rhs Wl Wr) as Hadd.
  destruct (conflicting (type lhs) (type rhs)) eqn:Hc; [by rewrite Hadd|].
  destruct Hadd as ([both|] & Hs & Hkey); rewrite Hs; simpl; [|by eexists].
  specialize (Hkey both eq_refl).
  rewrite decide_True; [by eexists|].
  rewrite Hkey. rewrite (Delta_key_cases lhs Wl) in Kl.
  destruct (decide (type lhs = insert)) as [Ti|Ti]; [|done].
  rewrite Ti in Hc.
  destruct (type rhs) eqn:Tr; simpl in Hc; [done| |].
  - rewrite (is_rename_false rhs Wr Rr Tr).
    rewrite (Delta_key_cases rhs Wr), Tr in Kr. by rewrite decide_False in Kr.
  - unfold Delta_add in Hs. rewrite Ti, Tr in Hs. by simpl in Hs.
Qed.

Lemma Diff_add_loop_ok self other keys sum :
  (forall key, key ∈ keys ->
     (is_Some (self !! key) \/ is_Some (other !! key))
     /\ exists cell, Diff_add_cell self other key = Ok cell) ->
  exists r,
    foldl (fun acc k => acc ← acc; Diff_add_key self other acc k) (Ok sum) keys = Ok r.
Proof.
  revert sum. induction keys as [|k keys IH]; intros sum Hok; simpl; [by eexists|].
  destruct (Hok k) as [Hin [cell Hcell]]; [apply elem_of_cons; by left|].
  rewrite (Diff_add_key_cell _ _ _ _ Hin), Hcell.
  destruct cell; apply IH; intros key Hkey; apply Hok, elem_of_cons; by right.
Qed.

Lemma Diff_add_loop_raise self other keys sum e :
  (forall key, key ∈ keys ->
     (is_Some (self !! key) \/ is_Some (other !! key))
     /\ ((exists cell, Diff_add_cell self other key = Ok cell)
         \/ Diff_add_cell self other key = Raise e)) ->
  (exists key, key ∈ keys /\ Diff_add_cell self other key = Raise e) ->
  foldl (fun acc k => acc ← acc; Diff_add_key self other acc k) (Ok sum) keys = Raise e.
Proof.
  revert sum. induction keys as [|k keys IH]; intros sum Hall (key & Hkey & Hraise); simpl.
  { by apply elem_of_nil in Hkey. }
  destruct (Hall k) as [Hin Hcell]; [apply elem_of_cons; by left|].
  rewrite (Diff_add_key_cell _ _ _ _ Hin).
  destruct Hcell as [[cell Hcell]|Hcell]; rewrite Hcell; [|apply foldl_Raise].
  assert (Hkey' : key ∈ keys).
  { apply elem_of_cons in Hkey as [->|Hkey]; [|done]. by rewrite Hcell in Hraise. }
  destruct cell; apply IH; eauto;
    intros key' Hkey''; apply Hall, elem_of_cons; by right.
Qed.

(** When two diffs have well-formed deltas at their keys and the second
    has no renames, [self + other] raises exactly when some key holds a
    conflicting pair (insert + insert, update + insert, delete + delete,
    delete + update), and what it raises is [Conflict], whatever the order
    of the loop. *)
Theorem Diff_add_raises_exactly_on_conflicts self other keys :
  union_keys keys self other ->
  keyed self -> keyed other ->
  well_formed self -> well_formed other -> no_renames other ->
  ((forall key lhs rhs, self !! key = Some lhs -> other !! key = Some rhs ->
                        conflicting (type lhs) (type rhs) = false) ->
   exists r, Diff_add keys self other = Ok r)
  /\ (forall key lhs rhs, self !! key = Some lhs -> other !! key = Some rhs ->
                          conflicting (type lhs) (type rhs) = true ->
                          Diff_add keys self other = Raise Conflict).
Proof.
  intros [Hnd Hkeys]%union_keys_elem Ks Ko Ws Wo' Ro.
  assert (Wo : forall key d, other !! key = Some d ->
                 Delta_wf d = true /\ is_rename d = false)
    by (intros key d Hd; split; [by apply (Wo' key)|by apply (Ro key)]).
  assert (Hcell : forall key, key ∈ keys ->
            (is_Some (self !! key) \/ is_Some (other !! key))
            /\ ((exists cell, Diff_add_cell self other key = Ok cell)
                \/ Diff_add_cell self other key = Raise Conflict)).
  { intros key Hkey. split; [by apply Hkeys|].
    destruct (self !! key) as [lhs|] eqn:Hl, (other !! key) as [rhs|] eqn:Hr.
    - destruct (Wo key rhs Hr) as [Wr Rr].
      pose proof (Diff_add_cell_conflict self other key lhs rhs Hl Hr
                    (Ws key lhs Hl) Wr (Ks key lhs Hl) (Ko key rhs Hr) Rr) as Hc.
      destruct (conflicting (type lhs) (type rhs)); [by right|by left].
    - left. unfold Diff_add_cell. rewrite Hl, Hr.
      rewrite decide_True by (symmetry; by apply Ks). by eexists.
    - left. unfold Diff_add_cell. rewrite Hl, Hr.
      rewrite decide_True by (symmetry; by apply Ko). by eexists.
    - left. unfold Diff_add_cell. rewrite Hl, Hr. by eexists. }
  split.
  - intros Hnone. apply Diff_add_loop_ok. intros key Hkey.
    destruct (Hcell key Hkey) as [Hin [Hok|Hraise]]; [done|]. exfalso.
    destruct (self !! key) as [lhs|] eqn:Hl, (other !! key) as [rhs|] eqn:Hr.
    + destruct (Wo key rhs Hr) as [Wr Rr].
      pose proof (Diff_add_cell_conflict self other key lhs rhs Hl Hr
                    (Ws key lhs Hl) Wr (Ks key lhs Hl) (Ko key rhs Hr) Rr) as Hc.
      rewrite (Hnone key lhs rhs Hl Hr) in Hc. destruct Hc as [cell Hc].
      by rewrite Hc in Hraise.
    + unfold Diff_add_cell in Hraise. rewrite Hl, Hr in Hraise.
      by rewrite decide_True in Hraise by (symmetry; by apply Ks).
    + unfold Diff_add_cell in Hraise. rewrite Hl, Hr in Hraise.
      by rewrite decide_True in Hraise by (symmetry; by apply Ko).
    + unfold Diff_add_cell in Hraise. by rewrite Hl, Hr in Hraise.
  - intros key lhs rhs Hl Hr Hc. apply Diff_add_loop_raise; [done|].
    exists key. split; [apply Hkeys; left; by rewrite Hl|].
    destruct (Wo key rhs Hr) as [Wr Rr].
    pose proof (Diff_add_cell_conflict self other key lhs rhs Hl Hr
                  (Ws key lhs Hl) Wr (Ks key lhs Hl) (Ko key rhs Hr) Rr) as Hcc.
    by rewrite Hc in Hcc.
Qed.

(** *** Inversion *)

Lemma Delta_invert_keeps_key d :
  Delta_wf d = true -> is_rename d = false ->
  exists d', Delta_invert d = Ok d'
             /\ Delta_key d' = Delta_key d
             /\ Delta_wf d' = true /\ is_rename d' = false
             /\ old d' = new d /\ new d' = old d.
Proof.
  intros Hd Hr. rewrite (Delta_invert_wf d Hd). eexists. split; [reflexivity|].
  unfold Delta_key, is_rename, Delta_wf, old_key, new_key. simpl.
  destruct (Delta_wf_cases d Hd)
    as [(T & O & n & N)|[(T & (o & O) & n & N)|(T & (o & O) & N)]].
  - by rewrite T, O, N.
  - pose proof (is_rename_false d Hd Hr T) as Hk. unfold old_key, new_key in Hk.
    rewrite T, O, N in *. simpl in *. injection Hk as Hk. rewrite Hk.
    repeat split. by rewrite bool_decide_eq_true_2.
  - by rewrite T, O, N.
Qed.

(** The inverse of a diff whose deltas are well formed, at their keys and
    no renames has the inverted delta at each key, whatever the order of
    the loop; inverting it again gives back a diff with the deltas of the
    first (their flags apart, which an inversion resets to 0). *)
Theorem DeltaDiff_invert_twice self items :
  dict_items items self ->
  keyed self -> well_formed self -> no_renames self ->
  exists r,
    DeltaDiff_invert items = Ok r
    /\ keyed r
    /\ (forall key, match self !! key, r !! key with
                    | Some d, Some d' => Delta_invert d = Ok d'
                    | None, None => True
                    | _, _ => False
                    end)
    /\ forall items', dict_items items' r ->
         exists r2,
           DeltaDiff_invert items' = Ok r2
           /\ forall key, match self !! key, r2 !! key with
                          | Some d, Some d2 =>
                              old d2 = old d /\ new d2 = new d /\ type d2 = type d
                          | None, None => True
                          | _, _ => False
                          end.
Proof.
  intros Hitems Hkeyed Hwf' Hnr.
  assert (Hwf : forall key d, self !! key = Some d ->
                  Delta_wf d = true /\ is_rename d = false)
    by (intros key d Hd; split; [by apply (Hwf' key)|by apply (Hnr key)]).
  destruct (items_of_map self items Hitems) as (Hnd & Hin & Hmap).
  destruct (DeltaDiff_invert_loop items ∅ Hnd) as (r & Hr & Hlook).
  { intros key d Hd%Hin. destruct (Hwf key d Hd) as [W R].
    destruct (Delta_invert_keeps_key d W R) as (d' & Hd' & Hk & _).
    exists d'. split; [done|]. rewrite Hk. by apply Hkeyed. }
  assert (Hr_spec : forall key d', r !! key = Some d' ->
            exists d, self !! key = Some d /\ Delta_invert d = Ok d').
  { intros key d'. rewrite Hlook, Hmap, lookup_empty.
    destruct (self !! key) as [d|]; [|done].
    destruct (Delta_invert d) as [d''|] eqn:Hinv; [|done]. intros [= <-]. by exists d. }
  assert (Hr_wf : forall key d', r !! key = Some d' ->
            Delta_key d' = key /\ Delta_wf d' = true /\ is_rename d' = false).
  { intros key d' (d & Hd & Hinv)%Hr_spec. destruct (Hwf key d Hd) as [W R].
    destruct (Delta_invert_keeps_key d W R) as (d'' & Hd'' & Hk & W' & R' & _).
    rewrite Hinv in Hd''. injection Hd'' as <-.
    split; [|done]. rewrite Hk. by apply Hkeyed. }
  exists r. split; [exact Hr|]. split; [|split].
  - intros key d' Hd'. by apply Hr_wf.
  - intros key. rewrite Hlook, Hmap, lookup_empty.
    destruct (self !! key) as [d|] eqn:Hd; [|done].
    destruct (Hwf key d Hd) as [W R].
    destruct (Delta_invert_keeps_key d W R) as (d' & Hd' & _). by rewrite Hd'.
  - intros items' Hitems'.
    destruct (items_of_map r items' Hitems') as (Hnd' & Hin' & Hmap').
    destruct (DeltaDiff_invert_loop items' ∅ Hnd') as (r2 & Hr2 & Hlook2).
    { intros key d' Hd'%Hin'. destruct (Hr_wf key d' Hd') as (Hk & W & R).
      destruct (Delta_invert_keeps_key d' W R) as (d2 & Hd2 & Hk2 & _).
      exists d2. split; [done|]. by rewrite Hk2. }
    exists r2. split; [exact Hr2|]. intros key.
    rewrite Hlook2, Hmap', Hlook, Hmap, !lookup_empty.
    destruct (self !! key) as [d|] eqn:Hd; [|done].
    destruct (Hwf key d Hd) as [W R].
    destruct (Delta_invert_keeps_key d W R) as (d' & Hd' & _ & W' & R' & Ho & Hn).
    rewrite Hd'.
    rewrite (Delta_invert_wf d' W'). simpl. rewrite Ho, Hn.
    rewrite (Delta_invert_wf d W) in Hd'. injection Hd' as <-. simpl.
    by destruct (type d).
Qed.

(** *** Counting the types *)

Lemma append_s_inj : Inj (=) (=) (fun delta_type : string => delta_type ++ "s").
Proof.
  intros s1. induction s1 as [|c s1 IH]; intros [|c2 s2] Heq.
  - done.
  - rewrite string_app_cons in Heq. injection Heq as _ Heq.
    destruct s2; [done|]. by rewrite string_app_cons in Heq.
  - rewrite string_app_cons in Heq. injection Heq as _ Heq.
    destruct s1; [done|]. by rewrite string_app_cons in Heq.
  - rewrite !string_app_cons in Heq. injection Heq as -> Heq. f_equal. by apply IH.
Qed.

Lemma type_name_inj t1 t2 : type_name t1 = type_name t2 -> t1 = t2.
Proof. by destruct t1, t2. Qed.

(** The loop of [type_counts]: after the values, each type that occurs
    has its count, and there is no other entry. *)
Lemma type_counts_loop (values : list (Delta K V)) :
  let counts :=
    foldl (fun counts delta =>
             let delta_type := type_name (type delta) in
             let counts := match counts !! delta_type with
                           | Some _ => counts
                           | None => <[delta_type := 0]> counts
                           end in
             <[delta_type := S (default 0 (counts !! delta_type))]> counts)
          (∅ : gmap string nat) values in
  (forall t, counts !! type_name t
             = counted (length (filter (fun d => type d = t) values)))
  /\ (forall s, (forall t, s <> type_name t) -> counts !! s = None).
Proof.
  induction values as [|x values IH] using rev_ind; simpl.
  - split; intros; apply lookup_empty.
  - rewrite foldl_app. simpl. destruct IH as [IHt IHs].
    set (counts := foldl _ _ values) in *.
    set (name := type_name (type x)).
    assert (Hstep : forall s,
      <[name := S (default 0 (match counts !! name with
                              | Some _ => counts
                              | None => <[name := 0]> counts
                              end !! name))]>
        (match counts !! name with
         | Some _ => counts
         | None => <[name := 0]> counts
         end) !! s
      = if decide (s = name) then Some (S (default 0 (counts !! name)))
        else counts !! s).
    { intros s. destruct (decide (s = name)) as [->|Hne].
      - rewrite lookup_insert_eq.
        destruct (counts !! name) as [n|] eqn:Hn; [by rewrite Hn|].
        by rewrite lookup_insert_eq.
      - rewrite lookup_insert_ne by done.
        destruct (counts !! name); [done|]. by rewrite lookup_insert_ne. }
    split.
    + intros t. rewrite Hstep, filter_app, length_app.
      rewrite filter_cons, filter_nil.
      destruct (decide (type_name t = name)) as [Heq|Hne].
      * apply type_name_inj in Heq. subst t. rewrite decide_True by done.
        unfold name. rewrite IHt. simpl.
        destruct (length (filter _ values)) as [|n]; simpl; f_equal; lia.
      * rewrite decide_False by (intros Heq; apply Hne; by rewrite <- Heq). simpl.
        by rewrite IHt, Nat.add_0_r.
    + intros s Hs. rewrite Hstep, decide_False by apply Hs. by apply IHs.
Qed.

(** [DeltaDiff.type_counts] gives, under the plural names [inserts],
    [updates] and [deletes], the number of deltas of each type, with no
    entry for a type that does not occur and no other entry, whatever the
    order of the loop over the deltas. *)
Theorem type_counts_counts_each_type (values : list (Delta K V)) :
  let n t := length (filter (fun d => type d = t) values) in
  type_counts values !! "inserts" = counted (n insert)
  /\ type_counts values !! "updates" = counted (n update)
  /\ type_counts values !! "deletes" = counted (n delete)
  /\ (forall s, s ∉ ["inserts"; "updates"; "deletes"] -> type_counts values !! s = None)
  /\ n insert + n update + n delete = length values.
Proof.
  intros n. subst n. cbv beta. unfold type_counts.
  destruct (type_counts_loop values) as [Ht Hs].
  set (counts := foldl _ _ values) in *.
  pose proof append_s_inj as Hinj.
  repeat split.
  - rewrite <- (Ht insert).
    exact (lookup_kmap (fun s : string => s ++ "s") counts "insert").
  - rewrite <- (Ht update).
    exact (lookup_kmap (fun s : string => s ++ "s") counts "update").
  - rewrite <- (Ht delete).
    exact (lookup_kmap (fun s : string => s ++ "s") counts "delete").
  - intros s Hout. apply lookup_kmap_None; [done|].
    intros i ->. apply Hs. intros t ->. apply Hout.
    destruct t; simpl; rewrite !elem_of_cons; auto.
  - clear. induction values as [|x values IH]; [done|].
    rewrite !filter_cons. simpl.
    destruct (type x); simpl;
      repeat (rewrite decide_True by done || rewrite decide_False by done);
      simpl; lia.
Qed.

(** *** The lazy diff *)

(** A [LazyDeltaDiff] is consumed once.  Its truth value says whether the
    iterator has a first delta; the first [resolve()] gives
    the [DeltaDiff] of all the deltas of the iterator, the one looked at by
    the constructor included; after it, [resolve()], [items()] and [+]
    raise [RuntimeError], and the truth value is as before.  It is the
    same after a first [items()]. *)
Theorem LazyDeltaDiff_is_consumed_once contents (self : LazyDeltaDiff K V) keys other :
  LazyDeltaDiff_init contents = Ok self ->
  let consumed := RuntimeError "LazyDeltaDiff has already been consumed" in
  LazyDeltaDiff_bool self
  = match contents with GenYield _ _ => true | _ => false end
  /\ fst (LazyDeltaDiff_resolve self) = DeltaDiff_init contents
  /\ fst (LazyDeltaDiff_items self) = gen_items contents
  /\ forall after : LazyDeltaDiff K V,
       after = snd (LazyDeltaDiff_resolve self) \/ after = snd (LazyDeltaDiff_items self) ->
       LazyDeltaDiff_bool after = LazyDeltaDiff_bool self
       /\ LazyDeltaDiff_resolve after = (Raise consumed, after)
       /\ LazyDeltaDiff_items after = (Raise consumed, after)
       /\ LazyDeltaDiff_add keys other after = (Raise consumed, after).
Proof.
  intros Hinit consumed.
  assert (Hself : self = {| _wrapped_iter := contents;
                            _bool := match contents with
                                     | GenYield _ _ => true
                                     | _ => false
                                     end;
                            _consumed := false |}).
  { destruct contents; simpl in Hinit; try discriminate; by injection Hinit as <-. }
  subst self. clear Hinit. split; [done|]. split; [done|]. split; [done|].
  intros after [->| ->]; by repeat split.
Qed.

(** *** Plus-minus dicts *)

(** A well-formed delta written as a plus-minus dict ([-] for the old
    value, [+] for the new one) and read back at a key is a delta of the
    same type with the same values, both sides at that key.  The minimal
    form of an update, which has the one entry [*], is not read back:
    [from_key_and_plus_minus_dict] raises [ValueError]. *)
Theorem plus_minus_dict_simple_round_trip d (k : K) :
  Delta_wf d = true ->
  (exists d', from_key_and_plus_minus_dict k (to_plus_minus_dict__simple d false) = Ok d'
              /\ type d' = type d
              /\ old_value d' = old_value d /\ new_value d' = new_value d
              /\ old_key d' = (fun _ => k) <$> old d
              /\ new_key d' = (fun _ => k) <$> new d)
  /\ (type d = update ->
      from_key_and_plus_minus_dict k (to_plus_minus_dict__simple d true)
      = Raise (ValueError "Empty Delta")).
Proof.
  intros Hd. unfold from_key_and_plus_minus_dict, to_plus_minus_dict__simple.
  unfold old_value, new_value, old_key, new_key.
  destruct (Delta_wf_cases d Hd)
    as [(T & O & n & N)|[(T & (o & O) & n & N)|(T & (o & O) & N)]];
    rewrite T, O, N; simpl; (split; [|done]); eexists; (split; [reflexivity|done]).
Qed.

(** The advanced plus-minus dict of a well-formed delta, with the filter
    that matches all, is read back as a delta of the same type and values
    when the delta is an insert or an update.  The dict of a delete has
    the one entry [--], and reading it raises [KeyError] for [++]. *)
Theorem plus_minus_dict_advanced_round_trip d (k : K) :
  Delta_wf d = true ->
  let read := from_key_and_plus_minus_dict (V := option V) k
                (to_plus_minus_dict__advanced d None) in
  (type d <> delete ->
   exists r : Delta K (option V),
     read = Ok r
     /\ type r = type d
     /\ old_value r = Some <$> old_value d
     /\ new_value r = Some <$> new_value d)
  /\ (type d = delete -> read = Raise (KeyError "++")).
Proof.
  intros Hd read. subst read.
  unfold from_key_and_plus_minus_dict, to_plus_minus_dict__advanced.
  unfold old_value, new_value.
  destruct (Delta_wf_cases d Hd)
    as [(T & O & n & N)|[(T & (o & O) & n & N)|(T & (o & O) & N)]];
    rewrite T, O, N; simpl; (split; [|done]); intros Hne; [| |done];
    eexists; (split; [reflexivity|done]).
Qed.

End DiffFacts.

(** ** The theorems at concrete inputs *)

Import DiffStructs Repo Merge FastImport KeyFilters.

(** C1 at insert + update: the result is the insert of the new side of
    the update. *)
Lemma Delta_add_composition_table_witness :
  Delta_wf Examples.insert_a1 = true
  /\ Delta_wf Examples.update_a1_a2 = true
  /\ exists d, Delta_add Examples.insert_a1 Examples.update_a1_a2 = Ok (Some d)
               /\ type d = insert /\ old d = None
               /\ new d = new Examples.update_a1_a2.
Proof.
  split; [reflexivity|]. split; [reflexivity|].
  exact (Delta_add_composition_table Examples.insert_a1 Examples.update_a1_a2
           eq_refl eq_refl).
Defined.

(** C2 at the same two deltas. *)
Lemma Delta_invert_swaps_and_antidistributes_witness :
  Delta_wf Examples.insert_a1 = true
  /\ Delta_wf Examples.update_a1_a2 = true
  /\ (exists s, Delta_add Examples.insert_a1 Examples.update_a1_a2 = Ok (Some s)
                /\ exists ia ib si,
                     Delta_invert Examples.insert_a1 = Ok ia
                     /\ Delta_invert Examples.update_a1_a2 = Ok ib
                     /\ Delta_invert s = Ok si
                     /\ Delta_add ib ia = Ok (Some si)).
Proof.
  split; [reflexivity|]. split; [reflexivity|].
  eexists. split; [reflexivity|].
  exact (proj1 (proj2 Delta_invert_swaps_and_antidistributes)
Examples.insert_a1 Examples.update_a1_a2 _ eq_refl eq_refl eq_refl).
Defined.

(** C4 at a repository that has both files, and at one that has
    MERGE_HEAD only. *)
Lemma state_merging_iff_both_files_witness :
  state (Examples.merging_repo Examples.index_with_resolve) = Ok MERGING
  /\ exists msg, state Examples.corrupt_repo = Raise (NotFound msg).
Proof.
  split.
  - apply (proj1 (state_merging_iff_both_files _)). split; reflexivity.
  - eexists.
    apply (proj1 (proj2 (proj2 (state_merging_iff_both_files Examples.corrupt_repo))));
      reflexivity.
Defined.

(** C3 as the specification states it fails: no conflict is left unresolved, the
    user saves an empty commit message, and [complete_merging_state] raises
    [UsageError], creates no commit and leaves the repository MERGING. *)
Lemma complete_merging_state_empty_message_counterexample :
  let repo := Examples.merging_repo Examples.index_with_resolve in
  let out := complete_merging_state Examples.git_user_is_set Examples.hash_commit
Examples.write_resolved_tree Examples.merge_message
Examples.editor_clears_message "user" None true repo in
state repo = Ok MERGING
/\ size (unresolved_conflicts Examples.index_with_resolve) = 0
/\ fst out = Raise (UsageError "Aborting commit due to empty commit message.")
/\ odb (snd out) = odb repo
/\ state (snd out) = Ok MERGING.
Proof. vm_compute. repeat split. Qed.

(** C3 as amended, at the same repository when the user keeps the draft
    message: one commit with parents ours, theirs. *)
Lemma complete_merging_state_gate_witness :
  let repo := Examples.merging_repo Examples.index_with_resolve in
  let out := complete_merging_state Examples.git_user_is_set Examples.hash_commit
Examples.write_resolved_tree Examples.merge_message
Examples.editor_keeps_draft "user" None true repo in
state repo = Ok MERGING
/\ size (unresolved_conflicts Examples.index_with_resolve) = 0
/\ exists id c,
fst out = Ok id
/\ odb (snd out) = (id, c) :: odb repo
/\ parents c = ["commit_ours"; "commit_theirs"]
/\ tree c = "tree_merged"
/\ Repo.references (snd out) !! head_name repo = Some id
/\ snd out = merged_repo repo id c
/\ state (snd out) = Ok NORMAL.
Proof.
  intros repo out.
  assert (Hst : state repo = Ok MERGING) by reflexivity.
  assert (Hz : size (unresolved_conflicts Examples.index_with_resolve) = 0)
    by (vm_compute; reflexivity).
  split; [exact Hst|]. split; [exact Hz|].
  refine (proj2 (complete_merging_state_gate Examples.git_user_is_set
Examples.hash_commit Examples.write_resolved_tree
Examples.merge_message Examples.editor_keeps_draft "user"
None true repo Examples.index_with_resolve
"commit_ours" "commit_theirs" Hst eq_refl eq_refl eq_refl)
Hz eq_refl _ "Merge branch theirs into main" eq_refl _).
vm_compute. reflexivity.
Defined.

(** C6 at a log whose newest two commits have the imported schema and
    whose third commit lacks the column [age]: the most recent schema change
    is the add of a column, and the heuristic answers true. *)
Lemma should_compare_follows_most_recent_schema_change_witness :
  should_compare_imported_features_against_old_features
Examples.diff_type_counts Examples.repo_walk Examples.repo_datasets
Examples.source_v2 (Some (Examples.dataset_with Examples.schema_v2)) (Some "c3")
= Ok true.
Proof.
  refine (proj1 (proj2
            (proj2 (proj2 (should_compare_follows_most_recent_schema_change
Examples.diff_type_counts Examples.repo_walk
Examples.repo_datasets Examples.source_v2
(Examples.dataset_with Examples.schema_v2) "c3"
["c3"; "c2"] GenEnd))
_ _))
"c1" (Examples.dataset_with Examples.schema_v1) eq_refl eq_refl _).
- left. reflexivity.
- repeat constructor;
(exists (Examples.dataset_with Examples.schema_v2); split;
[reflexivity|left; reflexivity]).
- split; [discriminate|]. split; [reflexivity|]. left. vm_compute. discriminate.
Defined.

(** C8 at two sources of three features each and [limit = 2]: the
    stream of the import has, for each source, the blobs of its first two
    features and its meta blobs after them. *)
Lemma fast_import_tables_stops_at_limit_witness :
  stdin (snd (fast_import_tables Examples.diff_type_counts Examples.repo_walk
                Examples.repo_datasets Examples.feature_blob_iter Examples.meta_blobs
                Examples.git_exit Examples.git_commit false "1234"
                (fun c => "tree_of_" +:+ c) "tree_empty" (fun tree path => false) []
                (Some "refs/heads/main") (fun _ => Ok tt) (fun sources => sources)
                (fun _ => "Import points and roads") (fun c tree => c)
                [Examples.source_v2; Examples.source_roads] None DONT_REPLACE
                (FromCommit (Some "c3")) None false (Some 2%Z) None
                Examples.repo_before_import))
  = [ Header "refs/kart-import/1234" "Import points and roads" (Some "c3");
      M_inline "points/feature/1" "a";
      M_inline "points/feature/2" "b";
      M_inline "points/meta/schema.json" "[]";
      M_inline "roads/feature/1" "a";
      M_inline "roads/feature/2" "b";
      M_inline "roads/meta/schema.json" "[]";
      Done ].
Proof.
  etrans.
  - refine (proj1 (fast_import_tables_stops_at_limit
                     Examples.diff_type_counts Examples.repo_walk
                     Examples.repo_datasets Examples.feature_blob_iter
                     Examples.meta_blobs
                     Examples.git_exit Examples.git_commit false "1234"
                     (fun c => "tree_of_" +:+ c) "tree_empty"
                     (fun tree path => false) []
                     (Some "refs/heads/main") (fun _ => Ok tt) (fun sources => sources)
                     (fun _ => "Import points and roads") (fun c tree => c)
                     [Examples.source_v2; Examples.source_roads] None DONT_REPLACE
                     (FromCommit (Some "c3")) None false 2%Z None
                     Examples.repo_before_import (Some "c3")
                     (Header "refs/kart-import/1234" "Import points and roads"
                        (Some "c3"))
                     Examples.three_features _ _ _ _ _ _ _)).
    + reflexivity.
    + right. split; [discriminate|reflexivity].
    + reflexivity.
    + intros _. split; reflexivity.
    + reflexivity.
    + intros _ blob Hblob. by apply elem_of_nil in Hblob.
    + intros source Hin.
      split; [exists Plain, GenEnd; split; [|reflexivity]|];
        (apply elem_of_cons in Hin as [->|Hin];
         [|apply elem_of_cons in Hin as [->|Hin]; [|by apply elem_of_nil in Hin]]);
        vm_compute; first [reflexivity | discriminate].
  - vm_compute. reflexivity.
Defined.

(** C10 at the initial heap and a sequence of assignments and adds on the
    match-all objects: [RepoKeyFilter.MATCH_ALL] is as it was. *)
Lemma match_all_filter_never_changes_witness :
  run_ops Examples.filter_ops initial_heap !! RepoKeyFilter_MATCH_ALL
  = Some (RepoKeyFilter ∅ true [])
  /\ KeyFilterDict_getitem RepoKeyFilter_MATCH_ALL "points"
       (run_ops Examples.filter_ops initial_heap)
     = (Ok RepoKeyFilter_child_that_matches_all,
        run_ops Examples.filter_ops initial_heap).
Proof.
  assert (Hsub : initial_heap ⊆ initial_heap) by reflexivity.
  pose proof (match_all_filter_never_changes initial_heap Examples.filter_ops
                RepoKeyFilter_MATCH_ALL (RepoKeyFilter ∅ true [])
                Hsub eq_refl eq_refl) as (Hsame & _ & _ & Hget & _).
  split; [exact Hsame|apply Hget].
Defined.

(** C7, a run for which the property does not hold: [import_tiles] when
    git-fast-import has ended well and written the temporary ref, and a
    KeyboardInterrupt reaches the wait for it.  The exception leaves the
    [with] statement before the [try ... finally] is entered and the
    temporary ref stays; [fast_import_tables], interrupted at the same
    point, removes its temporary ref. *)
Theorem import_tiles_interrupted_keeps_import_ref :
  let tiles :=
    TileImporter.import_tiles Examples.git_exit Examples.git_commit true "1234"
      (Some "commit_head") "head message" (Some "tree_head") "refs/heads/main"
      (fun c => "tree_of_" +:+ c) "Import a tile" [] (fun name => name)
      (fun tree path => false) Examples.tile_pointer_blobs (Ok tt)
      [("auckland/.point-cloud-dataset.v1/meta/format.json", "{}")]
      (fun tree => "commit_amended") (Ok tt) (Ok tt) (Ok tt)
Examples.tile_importer Examples.repo_before_import in
let tables :=
fast_import_tables Examples.diff_type_counts Examples.repo_walk
Examples.repo_datasets Examples.feature_blob_iter Examples.meta_blobs
Examples.git_exit Examples.git_commit true "1234"
(fun c => "tree_of_" +:+ c) "tree_empty" (fun tree path => false) []
(Some "refs/heads/main") (fun _ => Ok tt) (fun sources => sources)
(fun _ => "Import points") (fun c tree => c)
[Examples.source_v2] None DONT_REPLACE (FromCommit (Some "commit_head"))
None false None None Examples.repo_before_import in
fst tiles = Raise KeyboardInterrupt
/\ FastImport.references (snd tiles) !! "refs/kart-import/1234" = Some "commit_import"
/\ fst tables = Raise KeyboardInterrupt
/\ FastImport.references (snd tables) !! "refs/kart-import/1234" = None.
Proof. vm_compute. repeat split. Qed.

(** C9, an input for which the property does not hold: the dataset glob
    [a[*] is stored as [a[[[]]*], which [fnmatch] reads as [a], one
    character of the set [[[], a literal []] and [*]: the dataset [a[b] is
    not matched and the dataset [a[]b] is.  A [?] is escaped to [[[[]]?[]]]
    and stays a wildcard between brackets. *)
Theorem dataset_glob_bracket_is_not_literal :
  let out := RepoKeyFilter_datasets ["a[*"] initial_heap in
  escape_glob "a[*" = "a[[[]]*"
  /\ escape_glob "a?*" = "a[[[]]?[]]*"
  /\ fnmatch "a[b" (escape_glob "a[*") = false
  /\ fnmatch "a[]b" (escape_glob "a[*") = true
  /\ fnmatch "a?b" (escape_glob "a?*") = false
  /\ fnmatch "a[]X]b" (escape_glob "a?*") = true
  /\ exists self,
       fst out = Ok self
       /\ KeyFilterDict_contains self "a[b" (snd out) = (Ok false, snd out)
       /\ KeyFilterDict_contains self "a[]b" (snd out) = (Ok true, snd out).
Proof.
  cbv zeta. repeat (split; [vm_compute; reflexivity|]).
  exists 5. repeat split; vm_compute; reflexivity.
Qed.

(** *** Dicts of deltas *)

Import Diffs.

(** A decidable hypothesis at a concrete input is settled by evaluating
    its decision procedure. *)
Ltac decide_by_computation :=
  unfold keyed, well_formed, no_renames, dicts_keys;
  apply (bool_decide_unpack _); vm_compute; exact I.

(** The sum of the diff from [dict_v1] to [dict_v2] and the diff from
    [dict_v2] to [dict_v3], key by key. *)
Lemma Diff_add_is_keywise_witness :
  union_keys Examples.some_abc Examples.diff_v1_v2 Examples.diff_v2_v3
  /\ forall r, Diff_add Examples.some_abc Examples.diff_v1_v2 Examples.diff_v2_v3 = Ok r
               -> keyed r.
Proof.
  assert (Hkeys : union_keys Examples.some_abc Examples.diff_v1_v2 Examples.diff_v2_v3).
  { split; [decide_by_computation|vm_compute; reflexivity]. }
  split; [exact Hkeys|].
  exact (proj1 (proj2 (Diff_add_is_keywise Examples.diff_v1_v2 Examples.diff_v2_v3
                         Examples.some_abc Hkeys))).
Defined.

(** The diff from [dict_v1] to [dict_v2]. *)
Lemma diff_dicts_holds_the_changed_keys_witness :
  dicts_keys Examples.abc Examples.dict_v1 Examples.dict_v2
  /\ diff_dicts Examples.abc Examples.dict_v1 Examples.dict_v1 0 = Ok ∅.
Proof.
  assert (Hkeys : dicts_keys Examples.abc Examples.dict_v1 Examples.dict_v2).
  { decide_by_computation. }
  split; [exact Hkeys|].
  exact (proj2 (diff_dicts_holds_the_changed_keys Examples.dict_v1 Examples.dict_v2
                  0 Examples.abc Hkeys)).
Defined.

(** The inverse of the diff from [dict_v1] to [dict_v2] is the diff from
    [dict_v2] to [dict_v1]. *)
Lemma DeltaDiff_invert_of_diff_dicts_witness :
  DeltaDiff_invert (map_to_list Examples.diff_v1_v2)
  = diff_dicts Examples.abc Examples.dict_v2 Examples.dict_v1 0.
Proof.
  apply (DeltaDiff_invert_of_diff_dicts Examples.dict_v1 Examples.dict_v2 0
           Examples.abc Examples.abc Examples.diff_v1_v2).
  - decide_by_computation.
  - decide_by_computation.
  - vm_compute. reflexivity.
  - unfold dict_items. reflexivity.
Defined.

(** The diffs from [dict_v1] to [dict_v2] and on to [dict_v3] add up to
    the diff from [dict_v1] to [dict_v3]. *)
Lemma Diff_add_of_diff_dicts_witness :
  Diff_add Examples.some_abc Examples.diff_v1_v2 Examples.diff_v2_v3
  = diff_dicts Examples.abc Examples.dict_v1 Examples.dict_v3 0.
Proof.
  apply (Diff_add_of_diff_dicts Examples.dict_v1 Examples.dict_v2 Examples.dict_v3 0
           Examples.abc Examples.abc Examples.abc).
  - decide_by_computation.
  - decide_by_computation.
  - decide_by_computation.
  - vm_compute. reflexivity.
  - vm_compute. reflexivity.
  - split; [decide_by_computation|vm_compute; reflexivity].
Defined.

(** [diff_v1_v2 += diff_v2_v3] against [diff_v1_v2 + diff_v2_v3]. *)
Lemma Diff_iadd_agrees_with_Diff_add_witness :
  is_ok (fst (Diff_iadd [Some "a"; Some "c"] Examples.diff_v2_v3 Examples.diff_v1_v2))
  = is_ok (Diff_add Examples.some_abc Examples.diff_v1_v2 Examples.diff_v2_v3).
Proof.
  apply (Diff_iadd_agrees_with_Diff_add Examples.diff_v1_v2 Examples.diff_v2_v3).
  - decide_by_computation.
  - split; [decide_by_computation|vm_compute; reflexivity].
  - split; [decide_by_computation|vm_compute; reflexivity].
Defined.

(** The diff from [dict_v1] to [dict_v2] added to itself: the two inserts
    of [c] conflict. *)
Lemma Diff_add_raises_exactly_on_conflicts_witness :
  Diff_add Examples.some_abc Examples.diff_v1_v2 Examples.diff_v1_v2 = Raise Conflict.
Proof.
  refine (proj2 (Diff_add_raises_exactly_on_conflicts Examples.diff_v1_v2
                   Examples.diff_v1_v2 Examples.some_abc _ _ _ _ _ _)
            (Some "c") _ _ eq_refl eq_refl eq_refl).
  - split; [decide_by_computation|vm_compute; reflexivity].
  - decide_by_computation.
  - decide_by_computation.
  - decide_by_computation.
  - decide_by_computation.
  - decide_by_computation.
Defined.

(** The diff from [dict_v1] to [dict_v2], inverted. *)
Lemma DeltaDiff_invert_twice_witness :
  exists r, DeltaDiff_invert (map_to_list Examples.diff_v1_v2) = Ok r /\ keyed r.
Proof.
  destruct (DeltaDiff_invert_twice Examples.diff_v1_v2
              (map_to_list Examples.diff_v1_v2)) as (r & Hr & Hk & _).
  - unfold dict_items. reflexivity.
  - decide_by_computation.
  - decide_by_computation.
  - decide_by_computation.
  - exists r. by split.
Defined.

(** A lazy diff of one insert. *)
Lemma LazyDeltaDiff_is_consumed_once_witness :
  let self := {| _wrapped_iter := GenYield Examples.insert_a1 GenEnd;
                 _bool := true; _consumed := false |} in
  LazyDeltaDiff_bool self = true
  /\ fst (LazyDeltaDiff_resolve self)
     = DeltaDiff_init (GenYield Examples.insert_a1 GenEnd).
Proof.
  intros self.
  destruct (LazyDeltaDiff_is_consumed_once (GenYield Examples.insert_a1 GenEnd)
              self [] ∅ eq_refl) as (Hb & Hr & _).
  split; [exact Hb|exact Hr].
Defined.

(** The update of [a] from 1 to 2, written and read back at the key [a]. *)
Lemma plus_minus_dict_simple_round_trip_witness :
  from_key_and_plus_minus_dict "a"
    (to_plus_minus_dict__simple Examples.update_a1_a2 true)
  = Raise (ValueError "Empty Delta").
Proof.
  exact (proj2 (plus_minus_dict_simple_round_trip Examples.update_a1_a2 "a" eq_refl)
           eq_refl).
Defined.

(** The delete that is the inverse of the insert of [a]: its advanced
    dict is not read back. *)
Lemma plus_minus_dict_advanced_round_trip_witness :
  from_key_and_plus_minus_dict (V := option Z) "a"
    (to_plus_minus_dict__advanced
       {| old := new Examples.insert_a1; new := None; type := delete; flags := 0 |}
       None)
  = Raise (KeyError "++").
Proof.
  exact (proj2 (plus_minus_dict_advanced_round_trip
                  {| old := new Examples.insert_a1; new := None; type := delete;
                     flags := 0 |} "a" eq_refl) eq_refl).
Defined.

(** *** Key filters *)


(** The patterns [points:feature:1] and [points:featuress]. *)
Lemma parse_user_pattern_forms_witness :
  _parse_user_pattern Examples.quoted "points:feature:1"
  = Ok ("points", Some "feature", Some "1")
  /\ _parse_user_pattern Examples.quoted "points:featuress"
     = Ok ("points", Some "feature", None).
Proof.
  assert (Hsub : "feature" ∈ ["feature"; "meta"; "tile"])
    by (apply elem_of_cons; by left).
  pose proof (parse_user_pattern_forms Examples.quoted "points" "feature" "1" "ss"
                ltac:(discriminate) eq_refl eq_refl Hsub ltac:(discriminate)
                eq_refl eq_refl) as (_ & _ & Hrest & Hjunk & _).
  split; [exact Hrest|exact Hjunk].
Defined.

(** The patterns [points:feature:1] and [points:meta:title]. *)
Lemma build_from_user_patterns_two_parts_witness :
  fst (build_from_user_patterns Examples.quoted
         ["points:feature:1"; "points:meta:title"] initial_heap)
  = Raise (KeyError "meta").
Proof.
  assert (Hf : "feature" ∈ ["feature"; "meta"; "tile"])
    by (apply elem_of_cons; by left).
  assert (Hm : "meta" ∈ ["feature"; "meta"; "tile"])
    by (apply elem_of_cons; right; apply elem_of_cons; by left).
  exact (proj1 (build_from_user_patterns_two_parts Examples.quoted
                  "points" "feature" "meta" "1" "title" initial_heap
                  ltac:(discriminate) eq_refl eq_refl eq_refl Hf Hm
                  ltac:(discriminate) eq_refl ltac:(discriminate) eq_refl)
           ltac:(discriminate)).
Defined.

(** The filter with [points] and [roads*], asked for three datasets. *)
Lemma filter_keys_against_contains_witness :
  exists matched,
    filter_keys 5 {[ "points"; "roads_north"; "rivers" ]} Examples.heap_with_glob
    = (Ok matched, Examples.heap_with_glob)
    /\ forall k, k ∈ matched
                 <-> k ∈ ({[ "points"; "roads_north"; "rivers" ]} : gset string)
                     /\ KeyFilterDict_contains 5 k Examples.heap_with_glob
                        = (Ok true, Examples.heap_with_glob).
Proof.
  exact (proj1 (filter_keys_against_contains Examples.heap_with_glob 5 _ _ _ _ []
                  eq_refl)).
Defined.

(** The datasets [points] and [roads], kept and left out. *)
Lemma exclude_datasets_negates_datasets_witness :
  exists self h',
    RepoKeyFilter_datasets ["points"; "roads"] initial_heap = (Ok self, h')
    /\ NegateKeyFilter_contains {| delegate := self |} "points" h' = (Ok false, h')
    /\ NegateKeyFilter_contains {| delegate := self |} "rivers" h' = (Ok true, h').
Proof.
  assert (Hstar : forall p, p ∈ ["points"; "roads"] -> str_contains "*" p = false).
  { intros p Hp. apply elem_of_cons in Hp as [->|Hp]; [reflexivity|].
    apply elem_of_cons in Hp as [->|Hp]; [reflexivity|]. by apply elem_of_nil in Hp. }
  destruct (exclude_datasets_negates_datasets initial_heap ["points"; "roads"]
              (reflexivity _) Hstar) as (self & h' & Hd & _ & Hc).
  exists self, h'. split; [exact Hd|]. split.
  - exact (proj1 (proj2 (Hc "points"))).
  - exact (proj1 (proj2 (Hc "rivers"))).
Defined.

(** No pattern, and the two patterns [points] and [roads]. *)
Lemma build_from_user_patterns_whole_datasets_witness :
  fst (build_from_user_patterns Examples.quoted [] initial_heap)
  = Ok RepoKeyFilter_MATCH_ALL.
Proof.
  refine (proj1 (build_from_user_patterns_whole_datasets Examples.quoted initial_heap
                   ["points"; "roads"] (reflexivity _) _)).
  intros p Hp. apply elem_of_cons in Hp as [->|Hp]; [by repeat split|].
  apply elem_of_cons in Hp as [->|Hp]; [by repeat split|]. by apply elem_of_nil in Hp.
Defined.

(** *** The temporary ref of an import of tables *)

(** The import of one source into the repository of the examples. *)
Lemma fast_import_tables_removes_import_ref_witness :
  FastImport.references
    (snd (fast_import_tables Examples.diff_type_counts Examples.repo_walk
            Examples.repo_datasets Examples.feature_blob_iter Examples.meta_blobs
            Examples.git_exit Examples.git_commit false "1234"
            (fun c => "tree_of_" +:+ c) "tree_empty" (fun tree path => false) []
            (Some "refs/heads/main") (fun _ => Ok tt) (fun sources => sources)
            (fun _ => "Import points") (fun c tree => c)
            [Examples.source_v2] None DONT_REPLACE (FromCommit (Some "commit_head"))
            None false None None Examples.repo_before_import))
    !! "refs/kart-import/1234" = None.
Proof.
  exact (proj1 (fast_import_tables_removes_import_ref
                  Examples.diff_type_counts Examples.repo_walk
                  Examples.repo_datasets Examples.feature_blob_iter Examples.meta_blobs
                  Examples.git_exit Examples.git_commit false "1234"
                  (fun c => "tree_of_" +:+ c) "tree_empty" (fun tree path => false) []
                  (Some "refs/heads/main") (fun _ => Ok tt) (fun sources => sources)
                  (fun _ => "Import points") (fun c tree => c)
                  [Examples.source_v2] None DONT_REPLACE
                  (FromCommit (Some "commit_head")) None false None
                  Examples.repo_before_import eq_refl)).
Defined.

(** *** The checks before an import of tables *)

(** The import of [points] into a repository that has it already. *)
Lemma fast_import_tables_checks_first_witness :
  fast_import_tables Examples.diff_type_counts Examples.repo_walk
    Examples.repo_datasets Examples.feature_blob_iter Examples.meta_blobs
    Examples.git_exit Examples.git_commit false "1234"
    (fun c => "tree_of_" +:+ c) "tree_empty"
    (fun tree path => bool_decide (path = "points")) []
    (Some "refs/heads/main") (fun _ => Ok tt) (fun sources => sources)
    (fun _ => "Import points") (fun c tree => c)
    [Examples.source_roads; Examples.source_v2; Examples.source_roads]
    None DONT_REPLACE (FromCommit (Some "commit_head"))
    None false None None Examples.repo_before_import
  = (Raise (InvalidOperation "Cannot import to points/ - already exists in repository"),
     Examples.repo_before_import).
Proof.
  refine (proj2 (proj2 (fast_import_tables_checks_first
                  Examples.diff_type_counts Examples.repo_walk
                  Examples.repo_datasets Examples.feature_blob_iter Examples.meta_blobs
                  Examples.git_exit Examples.git_commit false "1234"
                  (fun c => "tree_of_" +:+ c) "tree_empty"
                  (fun tree path => bool_decide (path = "points")) []
                  (Some "refs/heads/main") (fun _ => Ok tt) (fun sources => sources)
                  (fun _ => "Import points") (fun c tree => c)
                  [Examples.source_roads; Examples.source_v2; Examples.source_roads]
                  None DONT_REPLACE (FromCommit (Some "commit_head")) None false None None
                  Examples.repo_before_import))
            (Some "commit_head") [Examples.source_roads] Examples.source_v2
            [Examples.source_roads] eq_refl eq_refl eq_refl eq_refl _ eq_refl).
  intros x Hx. apply elem_of_cons in Hx as [->|Hx]; [reflexivity|].
  by apply elem_of_nil in Hx.
Defined.

(** *** An import with a limit of zero *)

(** The three features of [points] that replace the keys 1, 7, 2, 3 and
    9, with [limit = 0]: every key is deleted and every feature is
    written, the delete of key 9 after the last feature. *)
Lemma import_single_source_limit_not_reached_witness :
  _import_single_source Examples.diff_type_counts Examples.repo_walk
    Examples.repo_datasets Examples.feature_blob_iter_replacing Examples.meta_blobs
    Examples.source_v2 GIVEN (Some "c3") (Some ["1"; "7"; "2"; "3"; "9"]) (Some 0%Z)
    Examples.repo_before_import
  = (Ok tt,
     {| FastImport.references := FastImport.references Examples.repo_before_import;
        stdin := [ D "points/.table-dataset/meta";
                   D "points/feature/1";
                   M_inline "points/feature/1" "a";
                   D "points/feature/7";
                   D "points/feature/2";
                   M_inline "points/feature/2" "b";
                   D "points/feature/3";
                   M_inline "points/feature/3" "c";
                   D "points/feature/9";
                   M_inline "points/meta/schema.json" "[]" ] |}).
Proof.
  etrans.
  - refine (proj1 (import_single_source_limit_not_reached
                     Examples.diff_type_counts Examples.repo_walk Examples.repo_datasets
                     Examples.feature_blob_iter_replacing Examples.meta_blobs
                     Examples.source_v2 GIVEN (Some "c3")
                     (Some ["1"; "7"; "2"; "3"; "9"]) (Some 0%Z)
                     (ComparedWith (Some (Examples.dataset_with Examples.schema_v2)))
                     (Examples.three_features_replaced Examples.source_v2)
                     ["points/feature/9"]
                     Examples.repo_before_import _) _ _).
    + vm_compute. reflexivity.
    + reflexivity.
    + left. reflexivity.
  - vm_compute. reflexivity.
Defined.

(** *** The temporary ref of an import of tiles *)


(** The same import when the reset of the working copy raises: the
    call raises, the temporary ref is gone, and the head branch is at the
    commit of the import. *)
Example import_tiles_raises_after_the_head_branch_moved :
  let out :=
    TileImporter.import_tiles Examples.git_exit Examples.git_commit false "1234"
      (Some "commit_head") "head message" (Some "tree_head") "refs/heads/main"
      (fun c => "tree_of_" +:+ c) "Import a tile" [] (fun name => name)
      (fun tree path => false) Examples.tile_pointer_blobs (Ok tt)
      [("auckland/.point-cloud-dataset.v1/meta/format.json", "{}")]
      (fun tree => "commit_amended") (Ok tt) (Ok tt)
      (Raise (OtherError "NotFound: no working copy"))
      Examples.tile_importer Examples.repo_before_import in
  fst out = Raise (OtherError "NotFound: no working copy")
  /\ FastImport.references (snd out) !! "refs/kart-import/1234" = None
  /\ FastImport.references (snd out) !! "refs/heads/main" = Some "commit_import"
  /\ FastImport.references Examples.repo_before_import !! "refs/heads/main"
     = Some "commit_head".
Proof. vm_compute. repeat split. Qed.

(** *** The path of a tile *)

(** The tile [auckland_0_0.laz], whose hash starts with [5a]. *)
Lemma decode_tile_path_of_encode_tile_path_witness :
  PointCloudV1.decode_path (fun path => path) (fun path => path)
    "tile/5a/auckland_0_0.laz"
  = inl ("tile", "auckland_0_0.laz").
Proof.
  exact (proj2 (proj2 (decode_tile_path_of_encode_tile_path
                         (fun _ => "5a1f") (fun path => path) (fun path => path)
                         (fun path => path) "auckland_0_0.laz"))
           "tile/5a/auckland_0_0.laz" eq_refl eq_refl).
Defined.

(** *** The types of columns in PostGIS *)

(** An integer column of size 8 is written as SMALLINT and read back
    with size 16. *)
Lemma pg_type_to_v2_type_of_v2_type_to_pg_type_witness :
  exists extra,
    Postgis._pg_type_to_v2_type Examples.upper (fun s => s) (fun s => s)
      Examples.pg_column_smallint []
    = Ok (Some "integer", extra)
    /\ extra !! "size" = Some (Postgis.PInt 16).
Proof.
  refine (pg_type_to_v2_type_of_v2_type_to_pg_type Examples.upper (fun s => s)
            (fun _ => Ok Postgis.PNone) (fun s => s)
            Examples.column_int8 "SMALLINT" Examples.pg_column_smallint []
            eq_refl _ _ eq_refl).
  - discriminate.
  - intros key Hkey.
    repeat (apply elem_of_cons in Hkey as [->|Hkey]; [reflexivity|]).
    by apply elem_of_nil in Hkey.
Defined.

(** A column of points with Z and M, in the CRS 4326: the type is read
    as [POINT ZM] and written back as [GEOMETRY(POINTZM,4326)]. *)
Lemma geometry_type_round_trip_witness :
  Postgis._v2_geometry_type_to_pg_type (Postgis.PStr "POINT ZM") (Postgis.PInt 4326)
  = Ok "GEOMETRY(POINTZM,4326)"
  /\ Postgis._dimension_count "POINTZM" = 4.
Proof.
  refine (proj2 (geometry_type_round_trip Examples.upper Examples.strip (fun s => s)
                   "POINT" "ZM" "PointZM" (Postgis.PInt 4326)
                   Examples.pg_column_geom [] _ eq_refl eq_refl eq_refl eq_refl _
                   eq_refl eq_refl)).
  - rewrite !elem_of_cons. tauto.
  - intros sfx Hsfx.
    repeat (apply elem_of_cons in Hsfx as [->|Hsfx]; [reflexivity|]).
    by apply elem_of_nil in Hsfx.
Defined.

(** *** Resolving a conflict *)

(** The one conflict of the examples, resolved with the version of
    theirs; the label is given with a colon at its end. *)
Lemma resolve_settles_one_conflict_witness :
  Resolve.resolve (fun _ _ => Examples.conflict_key) (fun _ _ _ _ => Ok [])
    (fun _ _ _ => Ok [])
    [(Examples.conflict_key, (Some "blob0", Some "blobX", Some "blobY"))]
    (Some Resolve.with_theirs) None "points:feature:1:"
    (Examples.merging_repo Examples.index_without_resolve)
  = (Ok tt, Examples.merging_repo Examples.index_with_resolve).
Proof.
  assert (Hitems : Resolve.conflicts_items
                     [(Examples.conflict_key, (Some "blob0", Some "blobX", Some "blobY"))]
                     Examples.index_without_resolve).
  { split; [|reflexivity]. apply (bool_decide_unpack _). vm_compute. exact I. }
  pose proof (resolve_settles_one_conflict
                (fun _ _ => Examples.conflict_key) (fun _ _ _ _ => Ok [])
                (fun _ _ _ => Ok [])
                [(Examples.conflict_key, (Some "blob0", Some "blobX", Some "blobY"))]
                Resolve.with_theirs "points:feature:1:"
                (Examples.merging_repo Examples.index_without_resolve)
                Examples.index_without_resolve
                {| Merge.ours := "commit_ours"; Merge.theirs := "commit_theirs";
                   Merge.merge_branch := None |}
                ltac:(discriminate) eq_refl eq_refl Hitems) as Hresolve.
  destruct Hresolve as [_ [Hrun _]]. rewrite Hrun. vm_compute. reflexivity.
Defined.

(** *** Concatenated diffs *)

(** The diff from [dict_v1] to [dict_v2], nothing, and the diff from
    [dict_v2] to [dict_v3], concatenated: the diff from [dict_v1] to
    [dict_v3]. *)
Lemma Diff_concatenated_along_a_chain_witness :
  Diff_concatenated [ Some (Examples.some_abc, Examples.diff_v1_v2); None;
                      Some ([Some "a"; Some "c"], Examples.diff_v2_v3) ]
  = diff_dicts Examples.abc Examples.dict_v1 Examples.dict_v3 0.
Proof.
  refine (proj1 (Diff_concatenated_along_a_chain 0 Examples.dict_v1 Examples.dict_v3
                   _ Examples.abc _ _)).
  - split; [split; [decide_by_computation|vm_compute; reflexivity]|].
    exists Examples.abc, Examples.dict_v2.
    split; [decide_by_computation|]. split; [vm_compute; reflexivity|].
    split; [split; [decide_by_computation|vm_compute; reflexivity]|].
    exists Examples.abc, Examples.dict_v3.
    split; [decide_by_computation|]. split; [vm_compute; reflexivity|].
    reflexivity.
  - decide_by_computation.
Defined.

(** *** A name for the dataset *)

(** Two tiles of Auckland, their names taken up to the first full
    stop, with the set of names taken in one order and in the other. *)
Lemma infer_dataset_path_is_a_common_prefix_witness :
  let sources := [DatasetPath.code_points "auckland_0_0.laz";
                  DatasetPath.code_points "auckland_0_1.laz"] in
  let tile_name := DatasetPath.before_char (N_of_ascii ".") in
  let parent_name := fun _ : list N => DatasetPath.code_points "tiles" in
  exists r,
    DatasetPath.infer_dataset_path tile_name parent_name elements sources = Ok r
    /\ DatasetPath.infer_dataset_path tile_name parent_name
         (fun names => reverse (elements names)) sources = Ok r.
Proof.
  intros sources tile_name parent_name.
  destruct (infer_dataset_path_is_a_common_prefix tile_name parent_name elements
              sources (fun names => reverse (elements names)))
    as (r & Hfirst & Hsecond & _).
  1-4: vm_compute; reflexivity.
  exists r. exact (conj Hfirst Hsecond).
Defined.

(** Two names that begin with the same two characters outside ASCII
    (U+65E5 and U+672C, three bytes each in UTF-8) have a common prefix
    of two characters, which is too short for a dataset path. *)
Example common_prefix_counts_characters :
  DatasetPath._common_prefix elements
    {[ [26085; 26412; 49]; [26085; 26412; 50] ]}%N 4 = Ok None.
Proof. vm_compute. reflexivity. Qed.

(** *** A file of the gitdir with other line ends *)

(** A text whose first line ends in CR LF and whose second ends in a
    lone CR: it is stored with a newline after the CR, and read back with
    LF at the end of both lines. *)
Example read_gitdir_file_translates_newlines :
  let text := "one" +:+ String Repo.CR nl +:+ "two" +:+ String Repo.CR EmptyString in
  let repo' := snd (Repo.write_gitdir_file "NOTES" text Examples.corrupt_repo) in
  fst (Repo.read_gitdir_file "NOTES" false repo')
  = Ok (Some ("one" +:+ nl +:+ "two" +:+ nl)).
Proof. vm_compute. reflexivity. Qed.
